(** * ProTCL: joint scorer, vocabularies and training loop

    A shallow embedding of the scoring core of the repository
    ([src/models/ProTCL.py]), of the vocabulary construction
    ([src/data/datasets.py]) and of the evaluation and training loop
    ([src/models/ProTCLTrainer.py]), with the properties proved about them.

    Conventions.
    - Python integers are [Z]; Python's [//] and [%] are [Z.div] and
      [Z.modulo] (both floor towards minus infinity, as Python does), with the
      [ZeroDivisionError] written out.
    - A raised exception is the [Raise] case of [result]; code that threads
      exceptions is written in the [result] monad.
    - A 2-D tensor is the list of its rows; the shape checks of torch are
      written out ([RuntimeError]), read off the rows, so that a tensor without
      rows has no width to check.  Tensor entries are an abstract
      type [T] with the operations of [Scalar]; no algebraic law is assumed
      about them, so what is proved holds for any deterministic arithmetic,
      IEEE floats included.
    - Scalars that Python compares ([score > best_score]) are rationals [Q]:
      every finite float is one, and the comparison of finite floats is the
      comparison of rationals. NaN is not represented. *)

From stdpp Require Import base list gmap strings sorting.
From Stdlib Require Import ZArith QArith Lia.
Close Scope Q_scope.
Local Open Scope Z_scope.

(** ** Python exceptions and values *)

Inductive exn :=
  | TypeError | ValueError | ZeroDivisionError | RuntimeError
  | IndexError | KeyError | FileNotFoundError | NotImplementedError.

Inductive result (A : Type) :=
  | Ok (a : A)
  | Raise (e : exn).
Arguments Ok {A} a.
Arguments Raise {A} e.

Definition bind {A B} (m : result A) (f : A → result B) : result B :=
  match m with
  | Ok a => f a
  | Raise e => Raise e
  end.

Declare Scope result_scope.
Delimit Scope result_scope with result.
Notation "x <- m ;; k" := (bind m (λ x, k))
  (at level 100, m at next level, right associativity) : result_scope.
Open Scope result_scope.

(** A [for] loop whose body may raise, threading the loop's variables: the
    first exception ends the loop. *)
Fixpoint for_fold {A S} (f : S → A → result S) (s : S) (l : list A) : result S :=
  match l with
  | [] => Ok s
  | x :: l' => s' <- f s x ;; for_fold f s' l'
  end.

(** A [for] loop whose body may raise, collecting what the body yields: the
    first exception ends the loop. *)
Fixpoint for_each {A B} (f : A → result B) (l : list A) : result (list B) :=
  match l with
  | [] => Ok []
  | x :: l' => y <- f x ;; ys <- for_each f l' ;; Ok (y :: ys)
  end.

#[global] Instance exn_eq_dec : EqDecision exn.
Proof. solve_decision. Defined.

(** The values a default argument read from the environment can take. *)
Inductive pyval :=
  | PyInt (z : Z)
  | PyStr (s : string).

(** [os.environ.get(key, default)]: the variable's value, a string, when it is
    set, [default] otherwise. *)
Definition os_environ_get (environ : gmap string string) (key : string)
    (default : pyval) : pyval :=
  match environ !! key with
  | Some s => PyStr s
  | None => default
  end.

(** [a + b], [a - b], [a // b] on these values. *)
Definition py_add (a b : pyval) : result pyval :=
  match a, b with
  | PyInt x, PyInt y => Ok (PyInt (x + y))
  | PyStr x, PyStr y => Ok (PyStr (x +:+ y))
  | _, _ => Raise TypeError
  end.

Definition py_sub (a b : pyval) : result pyval :=
  match a, b with
  | PyInt x, PyInt y => Ok (PyInt (x - y))
  | _, _ => Raise TypeError
  end.

Definition py_floordiv (a b : pyval) : result pyval :=
  match a, b with
  | PyInt x, PyInt y =>
      if decide (y = 0) then Raise ZeroDivisionError else Ok (PyInt (x / y))
  | _, _ => Raise TypeError
  end.

(** An argument that has to be an integer ([range], a slice bound). *)
Definition py_index (a : pyval) : result Z :=
  match a with
  | PyInt x => Ok x
  | PyStr _ => Raise TypeError
  end.

(** [range(start, stop, step)] as the list of its values; its length is the
    one CPython computes. *)
Definition range_length (start stop step : Z) : Z :=
  if decide (0 < step) then
    if decide (start < stop) then 1 + (stop - 1 - start) / step else 0
  else
    if decide (stop < start) then 1 + (start - 1 - stop) / (- step) else 0.

Definition py_range (start stop step : Z) : result (list Z) :=
  if decide (step = 0) then Raise ValueError
  else Ok ((λ k : nat, start + Z.of_nat k * step) <$>
             seq 0 (Z.to_nat (range_length start stop step))).

(** [l[lo:hi]]: negative bounds count from the end, and both are clamped to
    the list. *)
Definition slice_bound (len x : Z) : Z :=
  if decide (x < 0) then Z.max 0 (x + len) else Z.min x len.

Definition py_slice {A} (l : list A) (lo hi : Z) : list A :=
  let len := Z.of_nat (length l) in
  let lo' := slice_bound len lo in
  let hi' := slice_bound len hi in
  take (Z.to_nat (hi' - lo')) (drop (Z.to_nat lo') l).

(** ** Tensors and layers (the part of torch the model uses) *)

Class Scalar (T : Type) := {
  s_zero : T;
  s_add : T → T → T;
  s_mul : T → T → T;
  s_relu : T → T;
  s_sigmoid : T → T;
  s_max : T → T → T;
}.

(** The values a freshly constructed [nn.Linear] holds: [init_weight id k i]
    is entry (k, i) of the weight of the [id]-th layer constructed, and
    [init_bias id k] entry k of its bias. *)
Class Init (T : Type) := {
  init_weight : nat → nat → nat → T;
  init_bias : nat → nat → T;
}.

Abbreviation tensor T := (list (list T)).

(** [torch.cat(ts, dim=0)]: an empty list of tensors is refused. *)
Definition torch_cat0 {T} (ts : list (tensor T)) : result (tensor T) :=
  match ts with
  | [] => Raise RuntimeError
  | _ => Ok (concat ts)
  end.

(** [torch.cat([a, b], dim=1)]: the row counts have to agree. *)
Definition torch_cat1 {T} (a b : tensor T) : result (tensor T) :=
  if decide (length a = length b) then Ok (zip_with app a b)
  else Raise RuntimeError.

(** [t.reshape(n, m)]: the entries in row-major order, regrouped in [n] rows of
    [m]; refused when the number of entries is not [n * m]. *)
Fixpoint regroup {T} (n m : nat) (flat : list T) : tensor T :=
  match n with
  | O => []
  | S n' => take m flat :: regroup n' m (drop m flat)
  end.

Definition reshape2 {T} (n m : nat) (t : tensor T) : result (tensor T) :=
  let flat := concat t in
  if decide (length flat = (n * m)%nat) then Ok (regroup n m flat)
  else Raise RuntimeError.

Record Linear (T : Type) := {
  in_features : nat;
  weight : tensor T;          (* out_features rows of in_features entries *)
  bias : option (list T);
}.
Arguments in_features {T} l.
Arguments weight {T} l.
Arguments bias {T} l.

Definition nn_Linear `{Init T} (id : nat) (in_features out_features : nat)
    (use_bias : bool) : Linear T :=
  {| in_features := in_features;
     weight := (λ k, init_weight id k <$> seq 0 in_features) <$> seq 0 out_features;
     bias := if use_bias then Some (init_bias id <$> seq 0 out_features) else None |}.

(** The inner product of an input row and a weight row: torch refuses
    operands of different sizes. *)
Definition dot `{Scalar T} (x w : list T) : result T :=
  if decide (length x = length w) then Ok (foldl s_add s_zero (zip_with s_mul x w))
  else Raise RuntimeError.

(** One row through a linear layer: [x @ W^T + b].  A row whose width is not
    the layer's [in_features] is refused with [RuntimeError], as is a bias
    that does not have one entry per output.  (The layer is applied to a
    batch row by row; a batch without rows has no width in this representation
    and passes through as the empty batch.) *)
Definition linear_row `{Scalar T} (l : Linear T) (x : list T) : result (list T) :=
  if decide (length x = in_features l) then
    y <- for_each (dot x) (weight l) ;;
    match bias l with
    | Some b =>
        if decide (length b = length y) then Ok (zip_with s_add y b)
        else Raise RuntimeError
    | None => Ok y
    end
  else Raise RuntimeError.

Inductive layer (T : Type) :=
  | LinearLayer (l : Linear T)
  | ReLU.
Arguments LinearLayer {T} l.
Arguments ReLU {T}.

Definition layer_row `{Scalar T} (l : layer T) (x : list T) : result (list T) :=
  match l with
  | LinearLayer lin => linear_row lin x
  | ReLU => Ok (s_relu <$> x)
  end.

(** [nn.Sequential] over the layers, applied to one row, and to a batch: every layer
    acts on the last dimension, row by row, and the first layer that refuses
    its input ends the pass. *)
Definition sequential_row `{Scalar T} (layers : list (layer T)) (x : list T)
    : result (list T) :=
  for_fold (λ acc l, layer_row l acc) x layers.

Definition sequential `{Scalar T} (layers : list (layer T)) (t : tensor T)
    : result (tensor T) :=
  for_fold (λ acc l, for_each (layer_row l) acc) t layers.

Definition fill_bias {T} (l : Linear T) (v : T) : Linear T :=
  {| in_features := in_features l;
     weight := weight l;
     bias := match bias l with Some b => Some (replicate (length b) v) | None => None end |}.

(** ** src/models/ProTCL.py *)

Module ProTCL.

(** [get_mlp]; [id0] numbers the layers it constructs. *)
Definition get_mlp `{Init T} (id0 : nat) (input_dim output_dim : nat)
    (num_layers : Z) (output_neuron_bias : option T) : list (layer T) :=
  let layers := [LinearLayer (nn_Linear id0 input_dim output_dim true); ReLU] in
  let layers :=
    foldl (λ layers k,
             layers ++ [LinearLayer (nn_Linear (id0 + 1 + k) output_dim output_dim true); ReLU])
          layers (seq 0 (Z.to_nat (num_layers - 1))) in
  let output_neuron :=
    nn_Linear (id0 + 1 + Z.to_nat (num_layers - 1)) output_dim 1 true in
  let output_neuron :=
    match output_neuron_bias with
    | Some v => fill_bias output_neuron v
    | None => output_neuron
    end in
  layers ++ [LinearLayer output_neuron].

Record t (T : Type) := {
  train_label_encoder : bool;
  train_sequence_encoder : bool;
  W_p : Linear T;
  W_l : Linear T;
  output_layer : list (layer T);
}.
Arguments train_label_encoder {T} _.
Arguments train_sequence_encoder {T} _.
Arguments W_p {T} _.
Arguments W_l {T} _.
Arguments output_layer {T} _.

(** [ProTCL.__init__]. *)
Definition init `{Init T} (protein_embedding_dim label_embedding_dim latent_dim : nat)
    (train_label_encoder train_sequence_encoder : bool)
    (output_dim : nat) (output_num_layers : Z) (output_neuron_bias : option T) : t T :=
  {| train_label_encoder := train_label_encoder;
     train_sequence_encoder := train_sequence_encoder;
     W_p := nn_Linear 0 protein_embedding_dim latent_dim false;
     W_l := nn_Linear 1 label_embedding_dim latent_dim false;
     output_layer := get_mlp 2 (latent_dim * 2) output_dim output_num_layers
                       output_neuron_bias |}.

(** The default of [num_chunks], read from the environment when the class is
    defined. *)
Definition default_num_chunks (environ : gmap string string) : pyval :=
  os_environ_get environ "NUM_CHUNKS" (PyInt 15).

(** [(num_sequences + num_chunks - 1) // num_chunks]. *)
Definition chunk_size_of (num_sequences : nat) (num_chunks : pyval) : result Z :=
  s <- py_add (PyInt (Z.of_nat num_sequences)) num_chunks ;;
  d <- py_sub s (PyInt 1) ;;
  q <- py_floordiv d num_chunks ;;
  py_index q.

(** The body of the loop over chunks: the chunk's rows expanded against all of
    [L_e]. *)
Definition joint_of_chunk {T} (P_e_chunk L_e : tensor T) : result (tensor T) :=
  let num_labels := length L_e in
  let current_chunk_size := length P_e_chunk in
  (* unsqueeze(1).expand(-1, num_labels, -1).reshape(-1, dim) *)
  let P_e_expanded := concat ((λ p, replicate num_labels p) <$> P_e_chunk) in
  (* unsqueeze(0).expand(current_chunk_size, -1, -1).reshape(-1, dim) *)
  let L_e_expanded := concat (replicate current_chunk_size L_e) in
  torch_cat1 P_e_expanded L_e_expanded.

Definition _get_joint_embeddings {T} (P_e L_e : tensor T) (num_chunks : pyval)
    : result (tensor T * nat * nat) :=
  let num_sequences := length P_e in
  let num_labels := length L_e in
  chunk_size <- chunk_size_of num_sequences num_chunks ;;
  starts <- py_range 0 (Z.of_nat num_sequences) chunk_size ;;
  joint_embeddings_list <-
    for_each (λ i, joint_of_chunk (py_slice P_e i (i + chunk_size)) L_e) starts ;;
  joint_embeddings <- torch_cat0 joint_embeddings_list ;;
  Ok (joint_embeddings, num_sequences, num_labels).

(** The successive values of [P_e_chunk] in that loop. *)
Definition P_e_chunks {T} (P_e : tensor T) (num_chunks : pyval)
    : result (list (tensor T)) :=
  chunk_size <- chunk_size_of (length P_e) num_chunks ;;
  starts <- py_range 0 (Z.of_nat (length P_e)) chunk_size ;;
  Ok (map (λ i, py_slice P_e i (i + chunk_size)) starts).

(** [forward] from the projected embeddings on: joint embeddings, the MLP
    head, and the reshape. *)
Definition score `{Scalar T} (self : t T) (P_e L_e : tensor T) (num_chunks : pyval)
    : result (tensor T) :=
  r <- _get_joint_embeddings P_e L_e num_chunks ;;
  let '(joint_embeddings, num_sequences, num_labels) := r in
  logits <- sequential (output_layer self) joint_embeddings ;;
  reshape2 num_sequences num_labels logits.

(** [forward].  The encoders' raw inputs are only tested for [None]; the
    projections [W_p] and [W_l] refuse embeddings of another width than
    theirs. *)
Definition forward `{Scalar T} {A B C : Type} (environ : gmap string string) (self : t T)
    (sequence_onehots : option A) (sequence_embeddings : option (tensor T))
    (sequence_lengths : option B) (tokenized_labels : option C)
    (label_embeddings : option (tensor T)) : result (tensor T) :=
  L_f <- match label_embeddings with
         | Some le =>
             if negb (train_label_encoder self) then Ok le
             else if bool_decide (is_Some tokenized_labels) then Raise ValueError
             else Raise ValueError
         | None =>
             if bool_decide (is_Some tokenized_labels) then Raise ValueError
             else Raise ValueError
         end ;;
  P_f <- match sequence_embeddings with
         | Some se =>
             if negb (train_sequence_encoder self) then Ok se
             else if bool_decide (is_Some sequence_onehots)
                     && bool_decide (is_Some sequence_lengths)
                  then Raise ValueError
             else Raise ValueError
         | None =>
             if bool_decide (is_Some sequence_onehots)
                && bool_decide (is_Some sequence_lengths)
             then Raise ValueError
             else Raise ValueError
         end ;;
  P_e <- for_each (linear_row (W_p self)) P_f ;;
  L_e <- for_each (linear_row (W_l self)) L_f ;;
  score self P_e L_e (default_num_chunks environ).

End ProTCL.

(** ** src/data/datasets.py *)

Module datasets.

(** [sorted(list(s))] on strings: ascending in the lexicographic order of the
    characters' codes. *)
Definition py_sorted (l : list string) : list string := merge_sort String.le l.

(** [list(s)] for a string [s]: its characters, each a string of length 1. *)
Definition chars (s : string) : list string :=
  (λ a, String a EmptyString) <$> Stdlib.Strings.String.list_ascii_of_string s.

(** An entry of [self.data]: the sequence, and the list made of the sequence
    identifier followed by the labels. *)
Abbreviation observation := (string * list string)%type.

(** Modelled from the spec: [get_vocab_mappings] of [src/utils/data.py], which
    is not among the sources. It gives each identifier the integer that is its
    position in the vocabulary list, and the inverse mapping; filling the
    dictionary in list order, a later position overwrites an earlier one for a
    repeated identifier. *)
Definition get_vocab_mappings (vocabulary : list string)
    : gmap string nat * gmap nat string :=
  (list_to_map (reverse (zip vocabulary (seq 0 (length vocabulary)))),
   list_to_map (reverse (zip (seq 0 (length vocabulary)) vocabulary))).

(** In the three functions below the argument [..._vocabulary_path] is [None]
    when no path was given, and otherwise the list [read_json] decodes from
    the file at that path. *)
Definition _process_amino_acid_vocab (data : list observation)
    (amino_acid_vocabulary_path : option (list string)) : list string :=
  match amino_acid_vocabulary_path with
  | Some vocabulary => vocabulary
  | None =>
      let amino_acid_vocabulary : gset string :=
        foldl (λ vocab obs, vocab ∪ list_to_set (chars obs.1)) ∅ data in
      py_sorted (elements amino_acid_vocabulary)
  end.

Definition _process_label_vocab (data : list observation)
    (label_vocabulary_path : option (list string)) : list string :=
  match label_vocabulary_path with
  | Some vocabulary => vocabulary
  | None =>
      let label_vocabulary : gset string :=
        foldl (λ vocab obs, vocab ∪ list_to_set (drop 1 obs.2)) ∅ data in
      py_sorted (elements label_vocabulary)
  end.

(** [obs[1][0]] raises [IndexError] on an observation with no identifier. *)
Definition _process_sequence_id_vocab (data : list observation)
    (sequence_id_vocabulary_path : option (list string)) : result (list string) :=
  match sequence_id_vocabulary_path with
  | Some vocabulary => Ok vocabulary
  | None =>
      sequence_id_vocabulary <-
        for_fold (λ (vocab : gset string) (obs : observation),
                    match obs.2 !! 0%nat with
                    | Some id => Ok (vocab ∪ {[id]})
                    | None => Raise IndexError
                    end) ∅ data ;;
      Ok (py_sorted (elements sequence_id_vocabulary))
  end.

(** [_remove_duplicates]: [drop_duplicates(subset="sequence", keep="first")],
    an observation being dropped when its sequence was met before. *)
Fixpoint drop_duplicates (seen : gset string) (data : list observation)
    : list observation :=
  match data with
  | [] => []
  | obs :: rest =>
      if decide (obs.1 ∈ seen) then drop_duplicates seen rest
      else obs :: drop_duplicates ({[obs.1]} ∪ seen) rest
  end.

Definition _remove_duplicates (data : list observation) : list observation :=
  drop_duplicates ∅ data.

(** [max(...)] of a sequence of integers: [ValueError] when it is empty. *)
Definition py_max (l : list nat) : result nat :=
  match l with
  | [] => Raise ValueError
  | x :: l' => Ok (foldl Nat.max x l')
  end.

(** [get_max_seq_len]: the value returned, and [self.max_seq_len] after the
    call. The first argument is [self.max_seq_len] before the call. *)
Definition get_max_seq_len (max_seq_len : option nat) (data : list observation)
    : result (nat * option nat) :=
  match max_seq_len with
  | Some m => Ok (m, Some m)
  | None =>
      m <- py_max (map (λ obs : observation, Stdlib.Strings.String.length obs.1) data) ;;
      Ok (m, Some m)
  end.

(** [d[k]] on a dictionary. *)
Definition dict_get {V} (d : gmap string V) (k : string) : result V :=
  match d !! k with
  | Some v => Ok v
  | None => Raise KeyError
  end.

(** [torch.nn.functional.one_hot(indices, num_classes)]: a row per index, with
    a 1 in the column of the index; an index that is not below [num_classes]
    is refused. *)
Definition one_hot (indices : list nat) (num_classes : nat) : result (tensor Z) :=
  if decide (Forall (λ i, (i < num_classes)%nat) indices) then
    Ok (map (λ i, map (λ c, if decide (c = i) then 1 else 0) (seq 0 num_classes))
            indices)
  else Raise RuntimeError.

(** [t.permute(1, 0)] and [t.sum(dim=0)] of a tensor with [ncols] columns. *)
Definition permute10 (ncols : nat) (t : tensor Z) : tensor Z :=
  map (λ c, map (λ row, default 0 (row !! c)) t) (seq 0 ncols).

Definition sum_dim0 (ncols : nat) (t : tensor Z) : list Z :=
  map (λ c, foldl Z.add 0 (map (λ row, default 0 (row !! c)) t)) (seq 0 ncols).

(** The attributes of the dataset that [process_example] reads. *)
Record vocab := {
  sequence_id2int : gmap string nat;
  aminoacid2int : gmap string nat;
  label2int : gmap string nat;
  amino_acid_vocabulary : list string;
  label_vocabulary : list string;
}.

(** [process_example]: the integer of the sequence identifier, the one-hot
    encoding of the sequence (a row per amino acid of the vocabulary, a column
    per residue), the multi-hot encoding of the labels, and the length of the
    sequence. *)
Definition process_example (self : vocab) (sequence : string) (labels : list string)
    : result (nat * tensor Z * list Z * nat) :=
  match labels with
  | [] => Raise IndexError
  | sequence_id_alphanumeric :: labels =>
      sequence_id_numeric <- dict_get (sequence_id2int self) sequence_id_alphanumeric ;;
      amino_acid_ints <- for_each (dict_get (aminoacid2int self)) (chars sequence) ;;
      labels_ints <- for_each (dict_get (label2int self)) labels ;;
      let sequence_length := length amino_acid_ints in
      sequence_onehots <- one_hot amino_acid_ints (length (amino_acid_vocabulary self)) ;;
      let sequence_onehots :=
        permute10 (length (amino_acid_vocabulary self)) sequence_onehots in
      label_multihots <- one_hot labels_ints (length (label_vocabulary self)) ;;
      let label_multihots := sum_dim0 (length (label_vocabulary self)) label_multihots in
      Ok (sequence_id_numeric, sequence_onehots, label_multihots, sequence_length)
  end.

(** [set_padding_to_sentinel] on a tensor of shape (batch, dim, length): in
    the representation of example [b], the positions from [sequence_lengths[b]]
    on are set to the sentinel. A single length is broadcast to the whole
    batch; any other mismatch between the number of lengths and the batch size
    is refused, by the mask indexing when the batch has one example and by the
    comparison otherwise. *)
Definition fill_padding {T} (sentinel : T) (len : Z) (representation : tensor T)
    : tensor T :=
  map (imap (λ t x, if decide (len ≤ Z.of_nat t) then sentinel else x)) representation.

Definition set_padding_to_sentinel {T} (padded_representations : list (tensor T))
    (sequence_lengths : list Z) (sentinel : T) : result (list (tensor T)) :=
  let batch_size := length padded_representations in
  if decide (length sequence_lengths = batch_size) then
    Ok (zip_with (fill_padding sentinel) sequence_lengths padded_representations)
  else
    match sequence_lengths with
    | [len] => Ok (map (fill_padding sentinel len) padded_representations)
    | _ => if decide (batch_size = 1%nat) then Raise IndexError else Raise RuntimeError
    end.

End datasets.

(** ** src/models/ProTCLTrainer.py *)

Module ProTCLTrainer.

(** Modelled from the spec: the ancestors the parenthood table gives a label;
    a label absent from the table has none. *)
Definition ancestors_of (applicable_label_dict : gmap string (list string))
    (label : string) : list string :=
  default [] (applicable_label_dict !! label).

(** Modelled from the spec: the raw values, in column order, of the labels
    that have [label] among their ancestors. *)
Definition descendant_values {T} (row : list T) (label_vocab : list string)
    (applicable_label_dict : gmap string (list string)) (label : string) : list T :=
  omap (λ '(child, x),
          if bool_decide (label ∈ ancestors_of applicable_label_dict child)
          then Some x else None)
       (zip label_vocab row).

(** Modelled from the spec: [normalize_confidences] of
    [src/utils/proteinfer.py], which is not among the sources, on one row.  A
    label's confidence is propagated up to its ancestors: for every label
    column j, the normalized confidence is the maximum of the row's raw value
    in column j and of its raw values in the columns of the labels that have
    label j among their ancestors.  With the ancestor map
    [{label3: [label1]}], the normalized value of label1 is the maximum of the
    raw values of label1 and label3, and label3 keeps its raw value.  A label
    that is not in the catalog has no column and neither gives nor
    receives. *)
Definition normalize_row `{Scalar T} (label_vocab : list string)
    (applicable_label_dict : gmap string (list string)) (row : list T) : list T :=
  imap (λ j x,
          match label_vocab !! j with
          | Some label =>
              foldl s_max x (descendant_values row label_vocab applicable_label_dict label)
          | None => x
          end) row.

(** Modelled from the spec: [normalize_confidences] on the whole matrix, every
    row (sequence) normalized on its own. *)
Definition normalize_confidences `{Scalar T} (predictions : tensor T)
    (label_vocab : list string) (applicable_label_dict : gmap string (list string))
    : tensor T :=
  map (normalize_row label_vocab applicable_label_dict) predictions.

(** A batch as the collator yields it. *)
Record batch (T : Type) := {
  sequence_onehots : option (tensor T);
  sequence_embeddings : option (tensor T);
  sequence_lengths : option (list Z);
  sequence_ids : list Z;
  label_multihots : tensor T;
  tokenized_labels : option (list (list Z));
  label_embeddings : option (tensor T);
}.
Arguments sequence_onehots {T} _.
Arguments sequence_embeddings {T} _.
Arguments sequence_lengths {T} _.
Arguments sequence_ids {T} _.
Arguments label_multihots {T} _.
Arguments tokenized_labels {T} _.
Arguments label_embeddings {T} _.

(** What the trainer takes from torch and torchmetrics.  [Metric] is the
    state of a metric object, [G] the accumulated gradients, [O] the
    optimizer's state.
    - [loss_fn logits targets] is [self.loss_fn(...)] read with [.item()];
    - [backward model b k g] are the gradients after [loss.backward()] for the
      loss of batch [b] divided by [k], accumulated on [g];
    - [optimizer_step] is [self.optimizer.step()], [zero_grad] is
      [self.optimizer.zero_grad()];
    - [get_metric_by_name name threshold num_labels] is a freshly constructed
      metric of [EvalMetrics] ([src/utils/evaluation.py], not among the
      sources), [metric_forward] the call that feeds it predictions and
      targets, [metric_compute] its [compute().item()]. *)
Class Torch (T G O Metric : Type) := {
  loss_fn : tensor T → tensor T → Q;
  backward : ProTCL.t T → batch T → Z → G → G;
  optimizer_step : O → ProTCL.t T → G → O * ProTCL.t T;
  zero_grad : G → G;
  get_metric_by_name : string → Q → nat → Metric;
  metric_forward : Metric → tensor T → tensor T → Metric;
  metric_compute : Metric → Q;
}.

(** The attributes of [self] that [__init__] sets and nothing changes. *)
Record config := {
  environ : gmap string string;
  normalize_probabilities : bool;
  validations_per_epoch : Z;
  gradient_accumulation_steps : Z;
  num_epochs : Z;
  GO_label_vocab : list string;
  label_normalizer : gmap string (list string);
}.

(** [model.state_dict()]: the parameters. *)
Record state_dict (T : Type) := {
  sd_W_p : Linear T;
  sd_W_l : Linear T;
  sd_output_layer : list (layer T);
}.
Arguments sd_W_p {T} _.
Arguments sd_W_l {T} _.
Arguments sd_output_layer {T} _.

Definition get_state_dict {T} (m : ProTCL.t T) : state_dict T :=
  {| sd_W_p := ProTCL.W_p m; sd_W_l := ProTCL.W_l m;
     sd_output_layer := ProTCL.output_layer m |}.

Definition load_state_dict {T} (m : ProTCL.t T) (sd : state_dict T) : ProTCL.t T :=
  {| ProTCL.train_label_encoder := ProTCL.train_label_encoder m;
     ProTCL.train_sequence_encoder := ProTCL.train_sequence_encoder m;
     ProTCL.W_p := sd_W_p sd; ProTCL.W_l := sd_W_l sd;
     ProTCL.output_layer := sd_output_layer sd |}.

(** The calls the training loop makes on the optimizer and on the checkpoint
    file, in the order it makes them. *)
Inductive event (T : Type) :=
  | EvBackward (batch_count : Z)
  | EvOptimizerStep (batch_count : Z)
  | EvZeroGrad (batch_count : Z)
  | EvValidate (value : Q)
  | EvSave (value : Q) (sd : state_dict T)
  | EvLoad (sd : state_dict T).
Arguments EvBackward {T} _.
Arguments EvOptimizerStep {T} _.
Arguments EvZeroGrad {T} _.
Arguments EvValidate {T} _.
Arguments EvSave {T} _ _.
Arguments EvLoad {T} _.

(** What the trainer changes: the model, the optimizer and the gradients, the
    best validation value, the file at [self.model_path] ([None] while it does
    not exist), and the record of the calls made. *)
Record state (T G O : Type) := {
  model : ProTCL.t T;
  optimizer : O;
  grads : G;
  best_val_metric : Q;
  model_path : option (state_dict T);
  trace : list (event T);
}.
Arguments model {T G O} _.
Arguments optimizer {T G O} _.
Arguments grads {T G O} _.
Arguments best_val_metric {T G O} _.
Arguments model_path {T G O} _.
Arguments trace {T G O} _.

(** [a > b] on Python floats. *)
Definition py_gt (a b : Q) : bool := negb (Qle_bool a b).

(** [np.arange(0.1, 1, 0.01)]: the 90 values 0.10, 0.11, ..., 0.99. *)
Definition np_arange_thresholds : list Q :=
  (λ i : nat, Qmake (10 + Z.of_nat i) 100) <$> seq 0 90.

(** [t.shape[-1]] of a batch tensor (a batch has at least one row). *)
Definition shape_last {T} (t : tensor T) : nat :=
  match t with
  | [] => 0
  | row :: _ => length row
  end.

(** [_set_optimizer] on the model's named parameters, each with its
    [requires_grad] flag: the parameters with their flags afterwards,
    [self.trainable_params_names], and the outcome of constructing the Adam
    optimizer on the trainable parameters, which refuses an empty list. *)
Definition trainable_parameters (train_sequence_encoder train_label_encoder
    train_projection_head : bool) (named_parameters : list (string * bool))
    : list (string * bool) * list string :=
  foldl (λ '(params, trainable_params_names) '(name, requires_grad),
           let requires_grad :=
             if Stdlib.Strings.String.prefix "sequence_encoder" name
                && negb train_sequence_encoder
             then false else requires_grad in
           let requires_grad :=
             if Stdlib.Strings.String.prefix "label_encoder" name
                && negb train_label_encoder
             then false else requires_grad in
           let requires_grad :=
             if (Stdlib.Strings.String.prefix "W_p.weight" name
                 || Stdlib.Strings.String.prefix "W_l.weight" name)
                && negb train_projection_head
             then false else requires_grad in
           (params ++ [(name, requires_grad)],
            if requires_grad then trainable_params_names ++ [name]
            else trainable_params_names))
        ([], []) named_parameters.

Definition _set_optimizer (train_sequence_encoder train_label_encoder
    train_projection_head : bool) (named_parameters : list (string * bool))
    : list (string * bool) * list string * result unit :=
  let '(params, trainable_params_names) :=
    trainable_parameters train_sequence_encoder train_label_encoder
      train_projection_head named_parameters in
  (params, trainable_params_names,
   match trainable_params_names with
   | [] => Raise ValueError
   | _ => Ok ()
   end).

Section Trainer.
Context {T G O Metric : Type} `{!Scalar T, !Torch T G O Metric}.

(** [evaluation_step]: loss, logits, labels and sequence identifiers of a
    batch. *)
Definition evaluation_step (cfg : config) (m : ProTCL.t T) (b : batch T)
    : result (Q * tensor T * tensor T * list Z) :=
  logits <- ProTCL.forward (environ cfg) m (sequence_onehots b) (sequence_embeddings b)
              (sequence_lengths b) (tokenized_labels b) (label_embeddings b) ;;
  let loss := loss_fn logits (label_multihots b) in
  Ok (loss, logits, label_multihots b, sequence_ids b).

(** The sigmoid of the logits, normalized when the configuration says so. *)
Definition probabilities_of (cfg : config) (logits : tensor T) : tensor T :=
  let probabilities := map (map s_sigmoid) logits in
  if normalize_probabilities cfg then
    normalize_confidences probabilities (GO_label_vocab cfg) (label_normalizer cfg)
  else probabilities.

(** The sweep over the candidate thresholds: each candidate gets a fresh
    metric, fed the whole of the concatenated tensors. *)
Definition threshold_score (optimization_metric_name : string) (num_labels : nat)
    (all_probabilities all_label_multihots : tensor T) (th : Q) : Q :=
  let optimization_metric := get_metric_by_name optimization_metric_name th num_labels in
  let optimization_metric :=
    metric_forward optimization_metric all_probabilities all_label_multihots in
  metric_compute optimization_metric.

Definition sweep (score : Q → Q) (candidates : list Q) : Q * Q :=
  foldl (λ '(best_th, best_score) th,
           let score := score th in
           if py_gt score best_score then (th, score) else (best_th, best_score))
        (0%Q, 0%Q) candidates.

(** The body of the loop over the batches in [find_optimal_threshold]: what it
    appends to [all_probabilities] and to [all_label_multihots]. *)
Definition threshold_batch (cfg : config) (m : ProTCL.t T) (b : batch T)
    : result (tensor T * tensor T) :=
  r <- evaluation_step cfg m b ;;
  let '(_, logits, label_multihots, _) := r in
  Ok (probabilities_of cfg logits, label_multihots).

Definition find_optimal_threshold (cfg : config) (m : ProTCL.t T)
    (data_loader : list (batch T)) (optimization_metric_name : string)
    : result (Q * Q) :=
  per_batch <- for_each (threshold_batch cfg m) data_loader ;;
  all_probabilities <- torch_cat0 (map fst per_batch) ;;
  all_label_multihots <- torch_cat0 (map snd per_batch) ;;
  (* [label_multihots] is the one of the last batch *)
  let num_labels := shape_last (default [] (last (map snd per_batch))) in
  Ok (sweep (threshold_score optimization_metric_name num_labels
               all_probabilities all_label_multihots)
            np_arange_thresholds).

(** [evaluate].  [eval_metrics] is the metric collection, by name, or [None];
    the collection is returned as the loop leaves it. The per-example results
    are [None] when [test_results] has no key. *)
Record eval_loop := {
  total_loss : Q;
  eval_metrics : option (gmap string Metric);
  ids_list : list (list Z);
  probabilities_list : list (tensor T);
  labels_list : list (tensor T);
}.

Definition evaluate_batch (cfg : config) (m : ProTCL.t T) (save_results : bool)
    (st : eval_loop) (b : batch T) : result eval_loop :=
  r <- evaluation_step cfg m b ;;
  let '(loss, logits, labels, sequence_ids) := r in
  let st :=
    match eval_metrics st with
    | Some metrics =>
        let probabilities := probabilities_of cfg logits in
        let metrics := (λ metric, metric_forward metric probabilities labels) <$> metrics in
        if save_results then
          {| total_loss := total_loss st; eval_metrics := Some metrics;
             ids_list := ids_list st ++ [sequence_ids];
             probabilities_list := probabilities_list st ++ [probabilities];
             labels_list := labels_list st ++ [labels] |}
        else
          {| total_loss := total_loss st; eval_metrics := Some metrics;
             ids_list := ids_list st; probabilities_list := probabilities_list st;
             labels_list := labels_list st |}
    | None => st
    end in
  Ok {| total_loss := (total_loss st + loss)%Q; eval_metrics := eval_metrics st;
        ids_list := ids_list st; probabilities_list := probabilities_list st;
        labels_list := labels_list st |}.

Definition test_results_of (save_results : bool) (st : eval_loop)
    : option (list (list Z) * tensor T * tensor T) :=
  if save_results then
    match probabilities_list st with
    | [] => None
    | _ => Some (map (λ j, [j]) (concat (ids_list st)),
                 concat (probabilities_list st), concat (labels_list st))
    end
  else None.

(** [a / b] for a float or integer [a] and an integer [b]. *)
Definition py_truediv (a : Q) (b : Z) : result Q :=
  if decide (b = 0) then Raise ZeroDivisionError else Ok (a / inject_Z b)%Q.

Definition evaluate (cfg : config) (m : ProTCL.t T) (data_loader : list (batch T))
    (metrics : option (gmap string Metric)) (save_results : bool)
    : result (gmap string Q * option (list (list Z) * tensor T * tensor T)
              * option (gmap string Metric)) :=
  st <- for_fold (evaluate_batch cfg m save_results)
          {| total_loss := 0%Q; eval_metrics := metrics; ids_list := [];
             probabilities_list := []; labels_list := [] |} data_loader ;;
  let test_results := test_results_of save_results st in
  avg_loss <- py_truediv (total_loss st) (Z.of_nat (length data_loader)) ;;
  let final_metrics : gmap string Q :=
    match eval_metrics st with
    | Some metrics => metric_compute <$> metrics
    | None => ∅
    end in
  let final_metrics := <["avg_loss" := avg_loss]> final_metrics in
  Ok (final_metrics, test_results, eval_metrics st).

Abbreviation state' := (state T G O).

Definition log (e : list (event T)) (s : state') : state' :=
  {| model := model s; optimizer := optimizer s; grads := grads s;
     best_val_metric := best_val_metric s; model_path := model_path s;
     trace := trace s ++ e |}.

(** [validate].  The metric object handed in is updated in place by the
    evaluation, so it is handed back. *)
Definition validate (cfg : config) (s : state') (val_loader : list (batch T))
    (val_optimization_metric : Metric) (val_optimization_metric_name : string)
    : result (gmap string Q) * state' * Metric :=
  match evaluate cfg (model s) val_loader
          (Some {[val_optimization_metric_name := val_optimization_metric]}) false with
  | Raise e => (Raise e, s, val_optimization_metric)
  | Ok (val_metrics, _, metrics) =>
      let metric :=
        default val_optimization_metric
          (metrics ≫= λ ms : gmap string Metric, ms !! val_optimization_metric_name) in
      match val_metrics !! val_optimization_metric_name with
      | None => (Raise KeyError, s, metric)
      | Some value =>
          let s := log [EvValidate value] s in
          if py_gt value (best_val_metric s) then
            let sd := get_state_dict (model s) in
            (Ok val_metrics,
             {| model := model s; optimizer := optimizer s; grads := grads s;
                best_val_metric := value; model_path := Some sd;
                trace := trace s ++ [EvSave value sd] |},
             metric)
          else (Ok val_metrics, s, metric)
      end
  end.

(** The variables of the training loop. *)
Record train_loop := {
  self : state';
  metric_object : Metric;
  batch_count : Z;
}.

(** A data loader for training: its length, and the batches of each pass
    (the order is drawn afresh for every epoch). *)
Record DataLoader := {
  loader_len : nat;
  batches : nat → list (batch T);
}.

(** The body of the loop over the batches of an epoch. When it raises, the
    loop's variables are as the raising statement found them. *)
Definition train_batch (cfg : config) (train_loader_len : Z)
    (val_loader : list (batch T)) (val_optimization_metric_name : string)
    (l : train_loop) (b : batch T) : result unit * train_loop :=
  let batch_count := batch_count l + 1 in
  let s := self l in
  let l := {| self := s; metric_object := metric_object l; batch_count := batch_count |} in
  match ProTCL.forward (environ cfg) (model s) (sequence_onehots b) (sequence_embeddings b)
          (sequence_lengths b) (tokenized_labels b) (label_embeddings b) with
  | Raise e => (Raise e, l)
  | Ok logits =>
      (* loss = loss_fn(...) / gradient_accumulation_steps; loss.backward() *)
      let s := {| model := model s; optimizer := optimizer s;
                  grads := backward (model s) b (gradient_accumulation_steps cfg) (grads s);
                  best_val_metric := best_val_metric s; model_path := model_path s;
                  trace := trace s ++ [EvBackward batch_count] |} in
      let l := {| self := s; metric_object := metric_object l; batch_count := batch_count |} in
      if decide (gradient_accumulation_steps cfg = 0) then (Raise ZeroDivisionError, l)
      else
        let s :=
          if decide (batch_count `mod` gradient_accumulation_steps cfg = 0) then
            let '(o, m) := optimizer_step (optimizer s) (model s) (grads s) in
            {| model := m; optimizer := o; grads := zero_grad (grads s);
               best_val_metric := best_val_metric s; model_path := model_path s;
               trace := trace s ++ [EvOptimizerStep batch_count; EvZeroGrad batch_count] |}
          else s in
        let l := {| self := s; metric_object := metric_object l; batch_count := batch_count |} in
        if decide (batch_count = 0) then (Ok (), l)
        else if decide (validations_per_epoch cfg = 0) then (Raise ZeroDivisionError, l)
        else
          let period := train_loader_len / validations_per_epoch cfg in
          if decide (period = 0) then (Raise ZeroDivisionError, l)
          else if decide (batch_count `mod` period = 0) then
            let '(r, s, metric) :=
              validate cfg s val_loader (metric_object l) val_optimization_metric_name in
            let l := {| self := s; metric_object := metric; batch_count := batch_count |} in
            match r with
            | Raise e => (Raise e, l)
            | Ok _ => (Ok (), l)
            end
          else (Ok (), l)
  end.

(** A loop whose body changes the loop's variables and may raise. *)
Fixpoint run_loop {A S} (body : S → A → result unit * S) (s : S) (l : list A)
    : result unit * S :=
  match l with
  | [] => (Ok (), s)
  | x :: l' =>
      match body s x with
      | (Ok _, s') => run_loop body s' l'
      | (Raise e, s') => (Raise e, s')
      end
  end.

(** The two nested loops of [train]. *)
Definition train_epochs (cfg : config) (train_loader : DataLoader)
    (val_loader : list (batch T)) (val_optimization_metric_name : string)
    (l : train_loop) : result unit * train_loop :=
  run_loop (λ l epoch,
              run_loop (train_batch cfg (Z.of_nat (loader_len train_loader)) val_loader
                          val_optimization_metric_name)
                       l (batches train_loader epoch))
           l (seq 0 (Z.to_nat (num_epochs cfg))).

(** [train]: the loops, then the weights of the checkpoint file are loaded. *)
Definition train (cfg : config) (s : state') (train_loader : DataLoader)
    (val_loader : list (batch T)) (val_optimization_metric : Metric)
    (val_optimization_metric_name : string) : result unit * state' * Metric :=
  let l := {| self := s; metric_object := val_optimization_metric; batch_count := 0 |} in
  match train_epochs cfg train_loader val_loader val_optimization_metric_name l with
  | (Raise e, l) => (Raise e, self l, metric_object l)
  | (Ok _, l) =>
      let s := self l in
      match model_path s with
      | None => (Raise FileNotFoundError, s, metric_object l)
      | Some sd =>
          (Ok (),
           {| model := load_state_dict (model s) sd; optimizer := optimizer s;
              grads := grads s; best_val_metric := best_val_metric s;
              model_path := model_path s; trace := trace s ++ [EvLoad sd] |},
           metric_object l)
      end
  end.

End Trainer.

End ProTCLTrainer.

(** What the specification asks of a vocabulary built from the data: the
    identifiers that satisfy [P], each once, in lexicographic order, an
    identifier's integer being its position. *)
Definition sorted_vocabulary_of (v : list string) (P : string → Prop) : Prop :=
  StronglySorted String.le v
  ∧ NoDup v
  ∧ (∀ x, x ∈ v ↔ P x)
  ∧ (∀ x i, (datasets.get_vocab_mappings v).1 !! x = Some i ↔ v !! i = Some x)
  ∧ (∀ i, (datasets.get_vocab_mappings v).2 !! i = v !! i).

(** An ancestor map that is supplied as a full transitive closure: the
    ancestors of a label's ancestors are among the label's ancestors. *)
Definition transitively_closed (applicable_label_dict : gmap string (list string)) : Prop :=
  ∀ l a b : string,
    a ∈ default [] (applicable_label_dict !! l) →
    b ∈ default [] (applicable_label_dict !! a) →
    b ∈ default [] (applicable_label_dict !! l).

(** A metric that is 0 whatever it is fed, a loss that is 0, gradients and
    optimizer without content: enough of torch to run the trainer on concrete
    inputs. *)
Definition null_torch : ProTCLTrainer.Torch Z unit unit unit :=
  {| ProTCLTrainer.loss_fn := λ _ _, 0%Q;
     ProTCLTrainer.backward := λ _ _ _ g, g;
     ProTCLTrainer.optimizer_step := λ o m _, (o, m);
     ProTCLTrainer.zero_grad := λ g, g;
     ProTCLTrainer.get_metric_by_name := λ _ _ _, tt;
     ProTCLTrainer.metric_forward := λ m _ _, m;
     ProTCLTrainer.metric_compute := λ _, 0%Q |}.

(** The cross product as the specification words it: for every pair (i, j),
    in row-major order, the concatenation of [P_e[i]] and [L_e[j]]. *)
Definition spec_cross_product {T} (P_e L_e : tensor T) : tensor T :=
  concat (map (λ p, map (λ l, p ++ l) L_e) P_e).

(** The reference the chunked scorer is compared with: the head applied to the
    whole cross product, reshaped. *)
Definition spec_score `{Scalar T} (self : ProTCL.t T) (P_e L_e : tensor T)
    : result (tensor T) :=
  logits <- sequential (ProTCL.output_layer self) (spec_cross_product P_e L_e) ;;
  reshape2 (length P_e) (length L_e) logits.

(** A linear layer as torch constructs them: every weight row has
    [in_features] entries, and the bias one entry per output. *)
Definition Linear_wf {T} (l : Linear T) : Prop :=
  Forall (λ w, length w = in_features l) (weight l)
  ∧ match bias l with
    | Some b => length b = length (weight l)
    | None => True
    end.

(** A batch whose rows all have width [d]. *)
Definition width {T} (d : nat) (t : tensor T) : Prop := Forall (λ x, length x = d) t.

(** [below a b]: the maximum of [a] and [b] is [b]. *)
Definition below `{Scalar T} (a b : T) : Prop := s_max a b = b.

(** Integer tensors, for running the definitions on concrete inputs. *)
Definition Z_scalar : Scalar Z :=
  {| s_zero := 0; s_add := Z.add; s_mul := Z.mul; s_relu := Z.max 0;
     s_sigmoid := λ x, x; s_max := Z.max |}.
Definition Z_init : Init Z :=
  {| init_weight := λ id k i, Z.of_nat (id + k + i); init_bias := λ id k, Z.of_nat id |}.

(** A metric whose value is its threshold up to 0.5 and 0.5 beyond: the
    candidates from 0.50 on tie. *)
Definition peak_torch : ProTCLTrainer.Torch Z unit unit Q :=
  {| ProTCLTrainer.loss_fn := λ _ _, 0%Q;
     ProTCLTrainer.backward := λ _ _ _ g, g;
     ProTCLTrainer.optimizer_step := λ o m _, (o, m);
     ProTCLTrainer.zero_grad := λ g, g;
     ProTCLTrainer.get_metric_by_name := λ _ th _, th;
     ProTCLTrainer.metric_forward := λ m _ _, m;
     ProTCLTrainer.metric_compute := λ th, if Qle_bool th (1 # 2) then th else (1 # 2)%Q |}.

Definition sample_cfg : ProTCLTrainer.config :=
  {| ProTCLTrainer.environ := ∅;
     ProTCLTrainer.normalize_probabilities := true;
     ProTCLTrainer.validations_per_epoch := 1;
     ProTCLTrainer.gradient_accumulation_steps := 2;
     ProTCLTrainer.num_epochs := 1;
     ProTCLTrainer.GO_label_vocab := ["a"; "b"];
     ProTCLTrainer.label_normalizer := {["b" := ["a"]]} |}.

Definition sample_model : ProTCL.t Z :=
  @ProTCL.init Z Z_init 2 2 2 false false 3 2 None.

Definition sample_batch : ProTCLTrainer.batch Z :=
  {| ProTCLTrainer.sequence_onehots := None;
     ProTCLTrainer.sequence_embeddings := Some [[1; 2]; [3; 4]];
     ProTCLTrainer.sequence_lengths := None;
     ProTCLTrainer.sequence_ids := [0; 1];
     ProTCLTrainer.label_multihots := [[1; 0]; [0; 1]];
     ProTCLTrainer.tokenized_labels := None;
     ProTCLTrainer.label_embeddings := Some [[1; 1]; [2; 2]] |}.

(** Reading the record of calls.  [optimizer_events] keeps the calls that
    concern the gradients ([loss.backward()], [optimizer.step()],
    [optimizer.zero_grad()]); [optimizer_steps] lists the micro-batch counts at
    which [optimizer.step()] was called; [last_save] is the last write of the
    checkpoint file. *)
Definition optimizer_events {T} (tr : list (ProTCLTrainer.event T))
    : list (ProTCLTrainer.event T) :=
  tr ≫= λ e, match e with
             | ProTCLTrainer.EvBackward _ | ProTCLTrainer.EvOptimizerStep _
             | ProTCLTrainer.EvZeroGrad _ => [e]
             | _ => []
             end.

Definition optimizer_steps {T} (tr : list (ProTCLTrainer.event T)) : list Z :=
  omap (λ e, match e with ProTCLTrainer.EvOptimizerStep c => Some c | _ => None end) tr.

Definition last_save {T} (tr : list (ProTCLTrainer.event T))
    : option (Q * ProTCLTrainer.state_dict T) :=
  last (omap (λ e, match e with
                   | ProTCLTrainer.EvSave v sd => Some (v, sd)
                   | _ => None
                   end) tr).

(** Gradient accumulation over [k] micro-batches as the specification words
    it: every micro-batch is backpropagated, and the optimizer steps, and then
    zeroes the gradients, at the micro-batches whose count is a multiple of
    [k]. *)
Definition accumulation_step {T} (k : Z) (c : Z) : list (ProTCLTrainer.event T) :=
  ProTCLTrainer.EvBackward c ::
  (if decide (c `mod` k = 0)
   then [ProTCLTrainer.EvOptimizerStep c; ProTCLTrainer.EvZeroGrad c] else []).

Definition spec_accumulation {T} (k : Z) (n : nat) : list (ProTCLTrainer.event T) :=
  concat (map (λ c : nat, accumulation_step k (Z.of_nat c)) (seq 1 n)).

(** The micro-batches of a whole training run. *)
Definition total_batches {T} (train_loader : @ProTCLTrainer.DataLoader T) (num_epochs : Z)
    : nat :=
  sum_list (map (λ epoch, length (ProTCLTrainer.batches train_loader epoch))
                (seq 0 (Z.to_nat num_epochs))).

(** The checkpoint file and the recorded best value agree with the record of
    calls: no validated value exceeds the best, and the file and the best are
    those of the last save, or the initial ones if nothing was saved. *)
Definition checkpoint_consistent {T G O} (s0 s : ProTCLTrainer.state T G O) : Prop :=
  (∀ v, ProTCLTrainer.EvValidate v ∈ ProTCLTrainer.trace s →
        (v <= ProTCLTrainer.best_val_metric s)%Q)
  ∧ (ProTCLTrainer.best_val_metric s0 <= ProTCLTrainer.best_val_metric s)%Q
  ∧ match last_save (ProTCLTrainer.trace s) with
    | Some (v, sd) =>
        ProTCLTrainer.best_val_metric s = v ∧ ProTCLTrainer.model_path s = Some sd
    | None =>
        ProTCLTrainer.best_val_metric s = ProTCLTrainer.best_val_metric s0
        ∧ ProTCLTrainer.model_path s = ProTCLTrainer.model_path s0
    end.

Module PT := ProTCLTrainer.

(** What a validation does to the trainer: nothing when it raises, and
    otherwise it records the value, and saves the model exactly when the value
    is strictly above the best so far. *)
Definition validate_effect {T G O} (s s' : PT.state T G O) : Prop :=
  PT.model s' = PT.model s ∧ PT.optimizer s' = PT.optimizer s
  ∧ PT.grads s' = PT.grads s
  ∧ ((PT.trace s' = PT.trace s
      ∧ PT.best_val_metric s' = PT.best_val_metric s
      ∧ PT.model_path s' = PT.model_path s)
     ∨ (∃ v, (v <= PT.best_val_metric s)%Q
             ∧ PT.trace s' = PT.trace s ++ [PT.EvValidate v]
             ∧ PT.best_val_metric s' = PT.best_val_metric s
             ∧ PT.model_path s' = PT.model_path s)
     ∨ (∃ v, (PT.best_val_metric s < v)%Q
             ∧ PT.trace s' = PT.trace s
                 ++ [PT.EvValidate v; PT.EvSave v (PT.get_state_dict (PT.model s))]
             ∧ PT.best_val_metric s' = v
             ∧ PT.model_path s' = Some (PT.get_state_dict (PT.model s)))).

(** The accumulation invariant of the loop: after [n] micro-batches the counter
    is [n] and the gradient calls made are those of the specification. *)
Definition accumulated {T G O Metric} (k : Z) (n : nat)
    (l : @PT.train_loop T G O Metric) : Prop :=
  PT.batch_count l = Z.of_nat n
  ∧ optimizer_events (PT.trace (PT.self l)) = spec_accumulation k n.

Definition accumulated_upto {T G O Metric} (k : Z)
    (l : @PT.train_loop T G O Metric) : Prop :=
  ∃ n, optimizer_events (PT.trace (PT.self l)) = spec_accumulation k n.

(** Calls that touch neither the best value nor the checkpoint file, and
    calls that do not write the file. *)
Definition neutral {T} (e : PT.event T) : Prop :=
  match e with
  | PT.EvValidate _ | PT.EvSave _ _ => False
  | _ => True
  end.

Definition not_save {T} (e : PT.event T) : Prop :=
  match e with
  | PT.EvSave _ _ => False
  | _ => True
  end.

(** A training run on concrete inputs: three micro-batches an epoch, a step
    every two, a validation every three. *)
Definition sample_loader : @PT.DataLoader Z :=
  {| PT.loader_len := 3; PT.batches := λ _, [sample_batch; sample_batch; sample_batch] |}.

Definition sample_state : PT.state Z unit unit :=
  {| PT.model := sample_model; PT.optimizer := tt; PT.grads := tt;
     PT.best_val_metric := 0%Q; PT.model_path := None; PT.trace := [] |}.

(** Entry (b, d, i) of a 3-D tensor. *)
Definition entry3 {T} (t : list (tensor T)) (b d i : nat) : option T :=
  t !! b ≫= λ rep, rep !! d ≫= λ row, row !! i.

(** Reading what an evaluation step returned: its loss, and what the metrics
    are fed with it. *)
Definition step_loss {T} (step : Q * tensor T * tensor T * list Z) : Q := step.1.1.1.
Definition step_logits {T} (step : Q * tensor T * tensor T * list Z) : tensor T :=
  step.1.1.2.
Definition step_labels {T} (step : Q * tensor T * tensor T * list Z) : tensor T :=
  step.1.2.
Definition step_ids {T} (step : Q * tensor T * tensor T * list Z) : list Z := step.2.

Definition feed {T G O Metric} `{!Scalar T, !PT.Torch T G O Metric} (cfg : PT.config)
    (metric : Metric) (step : Q * tensor T * tensor T * list Z) : Metric :=
  PT.metric_forward metric (PT.probabilities_of cfg (step_logits step)) (step_labels step).

(** A metric collection after it was fed the steps, in order. *)
Definition feed_all {T G O Metric} `{!Scalar T, !PT.Torch T G O Metric} (cfg : PT.config)
    (steps : list (Q * tensor T * tensor T * list Z))
    (metrics : option (gmap string Metric)) : option (gmap string Metric) :=
  match metrics with
  | Some ms => Some ((λ metric, foldl (feed cfg) metric steps) <$> ms)
  | None => None
  end.

(** Whether [_set_optimizer] leaves a parameter of that name trainable. *)
Definition stays_trainable (train_sequence_encoder train_label_encoder
    train_projection_head : bool) (name : string) : bool :=
  negb (Stdlib.Strings.String.prefix "sequence_encoder" name && negb train_sequence_encoder)
  && negb (Stdlib.Strings.String.prefix "label_encoder" name && negb train_label_encoder)
  && negb ((Stdlib.Strings.String.prefix "W_p.weight" name
            || Stdlib.Strings.String.prefix "W_l.weight" name)
           && negb train_projection_head).

(** * Properties *)

(** ** Loops and slices *)

Lemma for_each_ok {A B} (f : A → result B) (g : A → B) (l : list A) :
  (∀ x, x ∈ l → f x = Ok (g x)) → for_each f l = Ok (map g l).
Proof.
  induction l as [|x l IH]; intros Hf; [done|].
  cbn. rewrite (Hf x) by left. cbn.
  rewrite IH; [done|]. intros y Hy. apply Hf. by right.
Qed.

Lemma for_each_id {A} (l : list A) : for_each Ok l = Ok l.
Proof. induction l as [|x l IH]; [done|]. cbn. by rewrite IH. Qed.

Lemma for_each_ok_elem {A B} (f : A → result B) (l : list A) (ys : list B) (x : A) :
  for_each f l = Ok ys → x ∈ l → ∃ y, f x = Ok y.
Proof.
  revert ys. induction l as [|x' l IH]; intros ys Hl Hx.
  - by apply elem_of_nil in Hx.
  - cbn in Hl. destruct (f x') as [y'|] eqn:Hx'; [|done].
    destruct (for_each f l) as [ys'|] eqn:Hl'; [|done].
    apply elem_of_cons in Hx as [-> |Hx]; [by exists y'|]. by apply (IH ys').
Qed.

(** A loop whose body raises nothing but [e0] raises nothing but [e0], and
    does raise it as soon as the body does for one element. *)
Lemma for_each_raise_only {A B} (f : A → result B) (e0 e : exn) (l : list A) :
  (∀ x e', x ∈ l → f x = Raise e' → e' = e0) → for_each f l = Raise e → e = e0.
Proof.
  induction l as [|x l IH]; intros Hf; cbn; [done|].
  destruct (f x) as [y|e'] eqn:Hx; cbn.
  - destruct (for_each f l) as [ys|e''] eqn:Hl; cbn; [done|].
    intros [= <-]. apply IH; [|done]. intros x' e' Hx'. apply Hf. by right.
  - intros [= <-]. apply (Hf x); [left|done].
Qed.

Lemma for_each_raises {A B} (f : A → result B) (e0 : exn) (l : list A) :
  (∀ x e, x ∈ l → f x = Raise e → e = e0) →
  (∃ x e, x ∈ l ∧ f x = Raise e) → for_each f l = Raise e0.
Proof.
  intros Hf (x & e & Hx & Hr).
  destruct (for_each f l) as [ys|e'] eqn:Hl.
  - destruct (for_each_ok_elem f l ys x Hl Hx) as [y Hy]. congruence.
  - f_equal. by apply (for_each_raise_only f e0 e' l).
Qed.

Lemma for_fold_raise_only {A S} (f : S → A → result S) (e0 e : exn) (s : S) (l : list A) :
  (∀ s x e', f s x = Raise e' → e' = e0) → for_fold f s l = Raise e → e = e0.
Proof.
  intros Hf. revert s. induction l as [|x l IH]; intros s; cbn; [done|].
  destruct (f s x) as [s'|e'] eqn:Hx; cbn; [apply IH|].
  intros [= <-]. by apply (Hf s x).
Qed.

Lemma for_fold_app {A S} (f : S → A → result S) (s : S) (l1 l2 : list A) :
  for_fold f s (l1 ++ l2) = (s' <- for_fold f s l1 ;; for_fold f s' l2).
Proof.
  revert s. induction l1 as [|x l1 IH]; intros s; cbn; [done|].
  destruct (f s x) as [s'|e]; cbn; [apply IH|done].
Qed.

(** Two loops in a row are one loop over the composed body, when their bodies
    raise nothing but [e0]. *)
Lemma for_each_bind {A B C} (f : A → result B) (g : B → result C) (e0 : exn)
    (l : list A) :
  (∀ x e, f x = Raise e → e = e0) → (∀ y e, g y = Raise e → e = e0) →
  (ys <- for_each f l ;; for_each g ys) = for_each (λ x, y <- f x ;; g y) l.
Proof.
  intros Hf Hg. induction l as [|x l IH]; [done|].
  cbn. destruct (f x) as [y|e] eqn:Hx; cbn; [|done].
  rewrite <- IH. destruct (for_each f l) as [ys|e] eqn:Hl; cbn; [done|].
  assert (e = e0) as ->.
  { apply (for_each_raise_only f e0 e l); [|done]. intros x' e' _. apply Hf. }
  destruct (g y) as [z|e'] eqn:Hy; cbn; [done|]. by rewrite (Hg y e' Hy).
Qed.

Lemma py_slice_take_drop {A} (l : list A) (lo c : nat) :
  py_slice l (Z.of_nat lo) (Z.of_nat lo + Z.of_nat c) = take c (drop lo l).
Proof.
  unfold py_slice, slice_bound.
  repeat case_decide; try lia.
  destruct (decide (lo ≤ length l)%nat) as [Hlo|Hlo].
  - replace (Z.of_nat lo `min` Z.of_nat (length l)) with (Z.of_nat lo) by lia.
    rewrite Nat2Z.id.
    destruct (decide (lo + c ≤ length l)%nat).
    + f_equal. lia.
    + rewrite !take_ge; [done| |]; rewrite length_drop; lia.
  - replace (Z.of_nat lo `min` Z.of_nat (length l)) with (Z.of_nat (length l)) by lia.
    rewrite Nat2Z.id.
    rewrite !drop_ge by lia. by rewrite !take_nil.
Qed.

Lemma py_range_from_zero (n cs : nat) :
  (0 < n)%nat → (0 < cs)%nat →
  py_range 0 (Z.of_nat n) (Z.of_nat cs) =
    Ok (map (λ j : nat, Z.of_nat (j * cs)) (seq 0 (S ((n - 1) / cs)))).
Proof.
  intros Hn Hcs. unfold py_range, range_length.
  repeat case_decide; try lia.
  f_equal.
  replace (Z.to_nat (1 + (Z.of_nat n - 1 - 0) / Z.of_nat cs)) with (S ((n - 1) / cs)).
  - apply map_ext. intros j. lia.
  - replace (Z.of_nat n - 1 - 0) with (Z.of_nat (n - 1)) by lia.
    rewrite <- Nat2Z.inj_div. lia.
Qed.

(** Cutting a list into consecutive pieces of [cs] and gluing them back. *)
Lemma concat_pieces {A} (cs m : nat) (l : list A) :
  (length l ≤ m * cs)%nat →
  concat (map (λ j, take cs (drop (j * cs) l)) (seq 0 m)) = l.
Proof.
  revert l. induction m as [|m IH]; intros l Hl.
  - destruct l; [done | simpl in Hl; lia].
  - cbn [seq map concat]. rewrite <- seq_shift, map_map.
    rewrite Nat.mul_0_l, drop_0.
    transitivity (take cs l ++ drop cs l); [|apply take_drop].
    f_equal.
    transitivity (concat (map (λ j, take cs (drop (j * cs) (drop cs l))) (seq 0 m))).
    + f_equal. apply map_ext. intros j.
      rewrite drop_drop. f_equal.
    + apply IH. rewrite length_drop. lia.
Qed.

Lemma ceil_div_covers (n k : Z) :
  1 ≤ k → 1 ≤ n → 1 ≤ (n + k - 1) / k ∧ n ≤ k * ((n + k - 1) / k).
Proof.
  intros Hk Hn.
  pose proof (Z.div_mod (n + k - 1) k ltac:(lia)) as Hdm.
  pose proof (Z.mod_pos_bound (n + k - 1) k ltac:(lia)) as Hb.
  split; [|lia].
  apply Z.div_le_lower_bound; lia.
Qed.

(** ** The joint scorer *)

Lemma chunk_size_of_int (n : nat) (k : Z) :
  k ≠ 0 → ProTCL.chunk_size_of n (PyInt k) = Ok ((Z.of_nat n + k - 1) / k).
Proof.
  intros Hk. unfold ProTCL.chunk_size_of. cbn.
  by case_decide.
Qed.

Lemma zip_replicate_app {T} (p : list T) (L : tensor T) :
  zip_with app (replicate (length L) p) L = map (λ l, p ++ l) L.
Proof. induction L as [|l L IH]; [done|]. cbn. by rewrite IH. Qed.

Lemma expand_cross {T} (c L : tensor T) :
  zip_with app (concat (map (λ p, replicate (length L) p) c))
               (concat (replicate (length c) L))
  = spec_cross_product c L.
Proof.
  unfold spec_cross_product.
  induction c as [|p c IH]; [done|].
  cbn. rewrite zip_with_app by (by rewrite length_replicate).
  by rewrite IH, zip_replicate_app.
Qed.

Lemma expand_lengths {T} (c L : tensor T) :
  length (concat (map (λ p, replicate (length L) p) c))
  = length (concat (replicate (length c) L)).
Proof.
  induction c as [|p c IH]; [done|].
  cbn. rewrite !length_app, length_replicate. by rewrite IH.
Qed.

Lemma joint_of_chunk_cross {T} (c L : tensor T) :
  ProTCL.joint_of_chunk c L = Ok (spec_cross_product c L).
Proof.
  unfold ProTCL.joint_of_chunk, torch_cat1.
  rewrite decide_True by apply expand_lengths.
  by rewrite expand_cross.
Qed.

Lemma spec_cross_product_concat {T} (chunks : list (tensor T)) (L : tensor T) :
  concat (map (λ c, spec_cross_product c L) chunks)
  = spec_cross_product (concat chunks) L.
Proof.
  unfold spec_cross_product.
  induction chunks as [|c chunks IH]; [done|].
  cbn. by rewrite IH, map_app, concat_app.
Qed.

Lemma torch_cat0_nonempty {T} (ts : list (tensor T)) :
  ts ≠ [] → torch_cat0 ts = Ok (concat ts).
Proof. by destruct ts. Qed.

(** The chunks of a loop with an integer chunk count [k >= 1]. *)
Lemma P_e_chunks_int {T} (P_e : tensor T) (k : Z) :
  1 ≤ k → P_e ≠ [] →
  let cs := Z.to_nat ((Z.of_nat (length P_e) + k - 1) / k) in
  ProTCL.P_e_chunks P_e (PyInt k)
  = Ok (map (λ j, take cs (drop (j * cs) P_e)) (seq 0 (S ((length P_e - 1) / cs)))).
Proof.
  intros Hk HP cs.
  assert (0 < length P_e)%nat as Hn by (destruct P_e; [done | simpl; lia]).
  destruct (ceil_div_covers (Z.of_nat (length P_e)) k) as [Hcs1 Hcov]; [lia..|].
  unfold ProTCL.P_e_chunks. rewrite chunk_size_of_int by lia. cbn [bind].
  replace ((Z.of_nat (length P_e) + k - 1) / k) with (Z.of_nat cs) by (unfold cs; lia).
  rewrite py_range_from_zero by (unfold cs; lia). cbn [bind].
  f_equal. rewrite map_map. apply map_ext. intros j.
  by rewrite py_slice_take_drop.
Qed.

Lemma get_joint_embeddings_chunks {T} (P_e L_e : tensor T) (k : Z) :
  1 ≤ k → P_e ≠ [] →
  ∃ chunks, ProTCL.P_e_chunks P_e (PyInt k) = Ok chunks
    ∧ chunks ≠ []
    ∧ ProTCL._get_joint_embeddings P_e L_e (PyInt k)
      = Ok (concat (map (λ c, spec_cross_product c L_e) chunks), length P_e, length L_e).
Proof.
  intros Hk HP.
  assert (0 < length P_e)%nat as Hn by (destruct P_e; [done | simpl; lia]).
  destruct (ceil_div_covers (Z.of_nat (length P_e)) k) as [Hcs1 Hcov]; [lia..|].
  eexists. split; [by apply P_e_chunks_int|]. split; [done|].
  unfold ProTCL._get_joint_embeddings. rewrite chunk_size_of_int by lia. cbn [bind].
  set (cs := Z.to_nat ((Z.of_nat (length P_e) + k - 1) / k)).
  replace ((Z.of_nat (length P_e) + k - 1) / k) with (Z.of_nat cs) by (unfold cs; lia).
  rewrite py_range_from_zero by (unfold cs; lia). cbn [bind].
  erewrite for_each_ok; last first.
  { intros i _. apply joint_of_chunk_cross. }
  cbn [bind]. rewrite torch_cat0_nonempty by done. cbn [bind].
  do 3 f_equal. rewrite !map_map. f_equal. apply map_ext. intros j.
  by rewrite py_slice_take_drop.
Qed.

Lemma pieces_cover (n cs : nat) :
  (0 < cs)%nat → (n ≤ S ((n - 1) / cs) * cs)%nat.
Proof.
  intros Hcs.
  pose proof (Nat.div_mod_eq (n - 1) cs) as Hdm.
  pose proof (Nat.mod_upper_bound (n - 1) cs ltac:(lia)) as Hb.
  nia.
Qed.

Lemma P_e_chunks_concat {T} (P_e : tensor T) (k : Z) (chunks : list (tensor T)) :
  1 ≤ k → P_e ≠ [] →
  ProTCL.P_e_chunks P_e (PyInt k) = Ok chunks → concat chunks = P_e.
Proof.
  intros Hk HP. rewrite P_e_chunks_int by done. intros [= <-].
  assert (0 < length P_e)%nat as Hn by (destruct P_e; [done | simpl; lia]).
  destruct (ceil_div_covers (Z.of_nat (length P_e)) k) as [Hcs1 _]; [lia..|].
  apply (concat_pieces _ (S _)), pieces_cover. lia.
Qed.

Lemma get_joint_embeddings_int {T} (P_e L_e : tensor T) (k : Z) :
  1 ≤ k → P_e ≠ [] →
  ProTCL._get_joint_embeddings P_e L_e (PyInt k)
  = Ok (spec_cross_product P_e L_e, length P_e, length L_e).
Proof.
  intros Hk HP.
  destruct (get_joint_embeddings_chunks P_e L_e k Hk HP) as (chunks & Hc & _ & ->).
  by rewrite spec_cross_product_concat, (P_e_chunks_concat P_e k chunks).
Qed.

(** What the layers raise is [RuntimeError]. *)
Lemma dot_raise `{Scalar T} (x w : list T) (e : exn) : dot x w = Raise e → e = RuntimeError.
Proof. unfold dot. case_decide; congruence. Qed.

Lemma linear_row_raise `{Scalar T} (l : Linear T) (x : list T) (e : exn) :
  linear_row l x = Raise e → e = RuntimeError.
Proof.
  unfold linear_row. case_decide; [|congruence].
  destruct (for_each (dot x) (weight l)) as [y|e'] eqn:Hy; cbn.
  - destruct (bias l); [case_decide|]; congruence.
  - intros [= <-]. apply (for_each_raise_only (dot x) RuntimeError e' (weight l)); [|done].
    intros w e'' _. apply dot_raise.
Qed.

Lemma layer_row_raise `{Scalar T} (l : layer T) (x : list T) (e : exn) :
  layer_row l x = Raise e → e = RuntimeError.
Proof. destruct l; cbn; [apply linear_row_raise|done]. Qed.

Lemma sequential_row_raise `{Scalar T} (layers : list (layer T)) (x : list T) (e : exn) :
  sequential_row layers x = Raise e → e = RuntimeError.
Proof.
  apply for_fold_raise_only. intros acc l e'. apply layer_row_raise.
Qed.

(** The layers act row by row. *)
Lemma sequential_rows `{Scalar T} (layers : list (layer T)) (t : tensor T) :
  sequential layers t = for_each (sequential_row layers) t.
Proof.
  unfold sequential, sequential_row.
  revert t. induction layers as [|l layers IH]; intros t.
  - cbn. by rewrite for_each_id.
  - cbn [for_fold].
    rewrite <- (for_each_bind (layer_row l) _ RuntimeError).
    + destruct (for_each (layer_row l) t) as [t'|e]; cbn; [apply IH|done].
    + apply layer_row_raise.
    + intros y e. apply sequential_row_raise.
Qed.

Lemma sequential_raise `{Scalar T} (layers : list (layer T)) (t : tensor T) (e : exn) :
  sequential layers t = Raise e → e = RuntimeError.
Proof.
  rewrite sequential_rows. apply for_each_raise_only.
  intros x e' _. apply sequential_row_raise.
Qed.

Lemma sequential_row_app `{Scalar T} (l1 l2 : list (layer T)) (x : list T) :
  sequential_row (l1 ++ l2) x = (y <- sequential_row l1 x ;; sequential_row l2 y).
Proof. apply for_fold_app. Qed.

(** A well-formed linear layer takes the rows of its input width, and them
    only. *)
Lemma nn_Linear_wf `{Init T} (id in_features out_features : nat) (use_bias : bool) :
  Linear_wf (nn_Linear id in_features out_features use_bias).
Proof.
  split; cbn.
  - apply Forall_forall. intros w Hw.
    apply list_elem_of_fmap in Hw as (k & -> & _). by rewrite length_fmap, length_seq.
  - destruct use_bias; [|done]. by rewrite !length_fmap.
Qed.

Lemma fill_bias_wf {T} (l : Linear T) (v : T) : Linear_wf l → Linear_wf (fill_bias l v).
Proof.
  intros [Hw Hb]. split; [done|]. cbn.
  destruct (bias l) as [b|]; [|done]. by rewrite length_replicate.
Qed.

Lemma linear_row_fits `{Scalar T} (l : Linear T) (x : list T) :
  Linear_wf l → length x = in_features l →
  ∃ y, linear_row l x = Ok y ∧ length y = length (weight l).
Proof.
  intros [Hw Hb] Hx. unfold linear_row. rewrite decide_True by done.
  rewrite (for_each_ok _ (λ w, foldl s_add s_zero (zip_with s_mul x w))); last first.
  { intros w Hin. unfold dot. rewrite decide_True; [done|].
    rewrite Forall_forall in Hw. rewrite (Hw w Hin). done. }
  cbn [bind]. destruct (bias l) as [b|].
  - rewrite decide_True by (by rewrite length_map).
    eexists. split; [done|]. rewrite length_zip_with, length_map. lia.
  - eexists. split; [done|]. by rewrite length_map.
Qed.

Lemma linear_row_misfit `{Scalar T} (l : Linear T) (x : list T) :
  length x ≠ in_features l → linear_row l x = Raise RuntimeError.
Proof. intros Hx. unfold linear_row. by rewrite decide_False. Qed.

(** A linear layer on a batch. *)
Lemma linear_batch_fits `{Scalar T} (l : Linear T) (t : tensor T) :
  Linear_wf l → width (in_features l) t →
  ∃ t', for_each (linear_row l) t = Ok t' ∧ length t' = length t
        ∧ width (length (weight l)) t'.
Proof.
  intros Hl. unfold width. induction t as [|x t IH]; intros Ht.
  - exists []. by split; [|split; [|constructor]].
  - apply Forall_cons in Ht as [Hx Ht].
    destruct (linear_row_fits l x Hl Hx) as (y & Hy & Hly).
    destruct (IH Ht) as (t' & Ht' & Hlen & Hw).
    exists (y :: t'). cbn. rewrite Hy, Ht'. cbn.
    split; [done|]. split; [by rewrite Hlen|by constructor].
Qed.

Lemma linear_batch_misfit `{Scalar T} (l : Linear T) (t : tensor T) :
  ¬ width (in_features l) t → for_each (linear_row l) t = Raise RuntimeError.
Proof.
  intros Ht. apply for_each_raises.
  - intros x e _. apply linear_row_raise.
  - apply not_Forall_Exists in Ht; [|apply _].
    apply Exists_exists in Ht as (x & Hx & Hlen).
    exists x, RuntimeError. split; [done|]. by apply linear_row_misfit.
Qed.

Lemma foldl_append_blocks {A B} (f : B → list A) (init : list A) (ks : list B) :
  foldl (λ acc k, acc ++ f k) init ks = init ++ concat (map f ks).
Proof.
  revert init. induction ks as [|k ks IH]; intros init; cbn.
  - by rewrite app_nil_r.
  - by rewrite IH, app_assoc.
Qed.

(** The hidden blocks of [get_mlp] keep the width [output_dim]. *)
Lemma hidden_blocks_fit `{Scalar T, Init T} (output_dim : nat) (f : nat → nat)
    (ks : list nat) (x : list T) :
  length x = output_dim →
  ∃ y, sequential_row
         (concat (map (λ k, [LinearLayer (nn_Linear (f k) output_dim output_dim true); ReLU])
                      ks)) x = Ok y
       ∧ length y = output_dim.
Proof.
  revert x. induction ks as [|k ks IH]; intros x Hx; [by exists x|].
  cbn [map concat app]. unfold sequential_row. cbn [for_fold layer_row].
  destruct (linear_row_fits (nn_Linear (f k) output_dim output_dim true) x)
    as (y & -> & Hy); [apply nn_Linear_wf|done|].
  cbn [bind]. apply IH.
  rewrite length_fmap, Hy. cbn. by rewrite length_fmap, length_seq.
Qed.

(** The head built by [get_mlp] takes the rows of width [input_dim], and
    ends in a single neuron: one scalar a row.  Any other row is refused. *)
Lemma get_mlp_one_output `{Scalar T, Init T} (id0 input_dim output_dim : nat)
    (num_layers : Z) (output_neuron_bias : option T) :
  ∃ s : list T → T,
    (∀ x, length x = input_dim →
          sequential_row
            (ProTCL.get_mlp id0 input_dim output_dim num_layers output_neuron_bias) x
          = Ok [s x])
    ∧ (∀ x, length x ≠ input_dim →
            sequential_row
              (ProTCL.get_mlp id0 input_dim output_dim num_layers output_neuron_bias) x
            = Raise RuntimeError).
Proof.
  set (head := ProTCL.get_mlp id0 input_dim output_dim num_layers output_neuron_bias).
  exists (λ x, match sequential_row head x with
               | Ok (z :: _) => z
               | _ => s_zero
               end).
  assert (∃ out, Linear_wf out ∧ in_features out = output_dim
                 ∧ length (weight out) = 1%nat
                 ∧ head = (LinearLayer (nn_Linear id0 input_dim output_dim true) :: ReLU ::
                           concat (map (λ k, [LinearLayer (nn_Linear (id0 + 1 + k) output_dim
                                                                 output_dim true); ReLU])
                                       (seq 0 (Z.to_nat (num_layers - 1)))))
                          ++ [LinearLayer out]) as (out & Hwf & Hin & Hout & ->).
  { unfold head, ProTCL.get_mlp.
    rewrite (foldl_append_blocks
               (λ k, [LinearLayer (nn_Linear (id0 + 1 + k) output_dim output_dim true); ReLU])).
    eexists. split; [|split; [|split; [|reflexivity]]].
    - destruct output_neuron_bias; [apply fill_bias_wf|]; apply nn_Linear_wf.
    - by destruct output_neuron_bias.
    - by destruct output_neuron_bias. }
  split.
  - intros x Hx.
    assert (∃ z, sequential_row
                   ((LinearLayer (nn_Linear id0 input_dim output_dim true) :: ReLU ::
                     concat (map (λ k, [LinearLayer (nn_Linear (id0 + 1 + k) output_dim
                                                           output_dim true); ReLU])
                                 (seq 0 (Z.to_nat (num_layers - 1)))))
                    ++ [LinearLayer out]) x = Ok [z]) as [z Hz]; [|by rewrite Hz].
    rewrite sequential_row_app.
    unfold sequential_row at 1. cbn [for_fold layer_row].
    destruct (linear_row_fits (nn_Linear id0 input_dim output_dim true) x)
      as (y & -> & Hy); [apply nn_Linear_wf|done|].
    cbn [bind].
    destruct (hidden_blocks_fit output_dim (λ k, (id0 + 1 + k)%nat)
                (seq 0 (Z.to_nat (num_layers - 1))) (s_relu <$> y))
      as (y' & Hy' & Hlen).
    { rewrite length_fmap, Hy. cbn. by rewrite length_fmap, length_seq. }
    unfold sequential_row in Hy'. rewrite Hy'. cbn [bind].
    unfold sequential_row. cbn [for_fold layer_row].
    destruct (linear_row_fits out y') as (z & -> & Hz); [done|congruence|].
    cbn [bind]. rewrite Hout in Hz.
    destruct z as [|z0 [|? ?]]; try done. by exists z0.
  - intros x Hx. cbn [app]. unfold sequential_row. cbn [for_fold layer_row].
    by rewrite linear_row_misfit.
Qed.

Lemma regroup_cross {T U} (f : list T → U) (P L : tensor T) :
  regroup (length P) (length L) (map f (spec_cross_product P L))
  = map (λ p, map (λ l, f (p ++ l)) L) P.
Proof.
  unfold spec_cross_product.
  induction P as [|p P IH]; [done|].
  cbn [length regroup map concat]. rewrite map_app, map_map.
  rewrite take_app_length' by (by rewrite length_map).
  rewrite drop_app_length' by (by rewrite length_map).
  by rewrite IH.
Qed.

Lemma length_spec_cross_product {T} (P L : tensor T) :
  length (spec_cross_product P L) = (length P * length L)%nat.
Proof.
  unfold spec_cross_product.
  induction P as [|p P IH]; [done|].
  cbn. by rewrite length_app, length_map, IH.
Qed.

Lemma concat_singletons {A B} (f : A → B) (l : list A) :
  concat (map (λ x, [f x]) l) = map f l.
Proof. induction l as [|x l IH]; [done|]. cbn. by rewrite IH. Qed.

Lemma score_spec_score `{Scalar T} (self : ProTCL.t T) (P_e L_e : tensor T) (k : Z) :
  1 ≤ k → P_e ≠ [] →
  ProTCL.score self P_e L_e (PyInt k) = spec_score self P_e L_e.
Proof.
  intros Hk HP. unfold ProTCL.score.
  by rewrite get_joint_embeddings_int.
Qed.

Lemma elem_of_spec_cross_product {T} (P L : tensor T) (x : list T) :
  x ∈ spec_cross_product P L ↔ ∃ p l, p ∈ P ∧ l ∈ L ∧ x = p ++ l.
Proof.
  unfold spec_cross_product. induction P as [|p0 P IH]; cbn [map concat].
  - split; [intros Hx; by apply elem_of_nil in Hx|].
    intros (p & l & Hp & _). by apply elem_of_nil in Hp.
  - rewrite elem_of_app, IH. split.
    + intros [Hx|(p & l & Hp & Hl & ->)].
      * apply list_elem_of_fmap in Hx as (l & -> & Hl). exists p0, l.
        split; [left|done].
      * exists p, l. split; [by right|done].
    + intros (p & l & Hp & Hl & ->). apply elem_of_cons in Hp as [-> |Hp].
      * left. apply list_elem_of_fmap. by exists l.
      * right. by exists p, l.
Qed.

(** The scorer with a head that gives one scalar for a joint row of width
    [d] and refuses any other row: the matrix of the pairs' scalars when all
    the joint rows have that width, [RuntimeError] when one has not. *)
Lemma score_head_ok `{Scalar T} (self : ProTCL.t T) (s : list T → T) (d : nat)
    (P_e L_e : tensor T) (k : Z) :
  1 ≤ k → P_e ≠ [] →
  (∀ x, length x = d → sequential_row (ProTCL.output_layer self) x = Ok [s x]) →
  (∀ p l, p ∈ P_e → l ∈ L_e → length (p ++ l) = d) →
  ProTCL.score self P_e L_e (PyInt k) = Ok (map (λ p, map (λ l, s (p ++ l)) L_e) P_e).
Proof.
  intros Hk HP Hs Hfit. rewrite score_spec_score by done.
  unfold spec_score. rewrite sequential_rows.
  rewrite (for_each_ok _ (λ x, [s x])); last first.
  { intros x Hx. apply elem_of_spec_cross_product in Hx as (p & l & Hp & Hl & ->).
    apply Hs. by apply Hfit. }
  cbn [bind]. unfold reshape2.
  rewrite concat_singletons.
  rewrite decide_True by (by rewrite length_map, length_spec_cross_product).
  by rewrite regroup_cross.
Qed.

Lemma score_head_raise `{Scalar T} (self : ProTCL.t T) (d : nat)
    (P_e L_e : tensor T) (k : Z) :
  1 ≤ k → P_e ≠ [] →
  (∀ x, length x ≠ d →
        sequential_row (ProTCL.output_layer self) x = Raise RuntimeError) →
  (∃ p l, p ∈ P_e ∧ l ∈ L_e ∧ length (p ++ l) ≠ d) →
  ProTCL.score self P_e L_e (PyInt k) = Raise RuntimeError.
Proof.
  intros Hk HP Hbad (p & l & Hp & Hl & Hlen). rewrite score_spec_score by done.
  unfold spec_score. rewrite sequential_rows.
  rewrite (for_each_raises _ RuntimeError); [done| |].
  - intros x e _. apply sequential_row_raise.
  - exists (p ++ l), RuntimeError. split; [|by apply Hbad].
    apply elem_of_spec_cross_product. by exists p, l.
Qed.

Lemma width_pairs {T} (d : nat) (P_e L_e : tensor T) (p l : list T) :
  width d P_e → width d L_e → p ∈ P_e → l ∈ L_e → length (p ++ l) = (d * 2)%nat.
Proof.
  unfold width. rewrite !Forall_forall. intros HP HL Hp Hl.
  rewrite length_app, (HP p Hp), (HL l Hl). lia.
Qed.

(** C1. For entity-A rows [P_e] and entity-B rows [L_e], both non-empty, and
    any integer chunk count [k >= 1], the chunked construction of the joint
    embeddings followed by the MLP head and the reshape yields exactly the
    outcome of the single-chunk computation (and of the unchunked reference).
    The head of a freshly constructed model takes joint rows of width
    [2 * latent_dim], one scalar a row: for projected embeddings, whose width
    is [latent_dim], the outcome is the logits tensor of [n_a] rows of [n_b]
    columns, entry (i, j) being the head's scalar for the concatenation of
    [P_e[i]] and [L_e[j]]; when a joint row has another width, the head
    refuses it and the outcome is [RuntimeError], chunked or not. *)
Theorem C1_chunked_score_equals_unchunked `{Scalar T, Init T}
    (protein_embedding_dim label_embedding_dim latent_dim : nat)
    (train_label_encoder train_sequence_encoder : bool)
    (output_dim : nat) (output_num_layers : Z) (output_neuron_bias : option T)
    (P_e L_e : tensor T) (k : Z) :
  1 ≤ k → P_e ≠ [] → L_e ≠ [] →
  let self := ProTCL.init protein_embedding_dim label_embedding_dim latent_dim
                train_label_encoder train_sequence_encoder
                output_dim output_num_layers output_neuron_bias in
  ProTCL.score self P_e L_e (PyInt k) = ProTCL.score self P_e L_e (PyInt 1)
  ∧ ProTCL.score self P_e L_e (PyInt k) = spec_score self P_e L_e
  ∧ ∃ s : list T → T,
      (∀ x, length x = (latent_dim * 2)%nat →
            sequential_row (ProTCL.output_layer self) x = Ok [s x])
      ∧ (width latent_dim P_e → width latent_dim L_e →
         ProTCL.score self P_e L_e (PyInt k)
         = Ok (map (λ p, map (λ l, s (p ++ l)) L_e) P_e))
      ∧ ((∃ p l, p ∈ P_e ∧ l ∈ L_e ∧ length (p ++ l) ≠ (latent_dim * 2)%nat) →
         ProTCL.score self P_e L_e (PyInt k) = Raise RuntimeError).
Proof.
  intros Hk HP HL self.
  split; [by rewrite !score_spec_score by (done || lia)|].
  split; [by apply score_spec_score|].
  destruct (get_mlp_one_output 2 (latent_dim * 2) output_dim output_num_layers
              output_neuron_bias) as (s & Hs & Hbad).
  exists s. split; [exact Hs|]. split.
  - intros HwP HwL. apply (score_head_ok self s (latent_dim * 2)); [done..|].
    intros p l. by apply width_pairs.
  - by apply (score_head_raise self (latent_dim * 2)).
Qed.

Lemma C1_witness :
  let self := @ProTCL.init Z Z_init 2 2 2 false false 3 2 None in
  @ProTCL.score Z Z_scalar self [[1; 2]; [3; 4]; [5; 6]] [[7; 8]; [9; 10]] (PyInt 2)
  = @ProTCL.score Z Z_scalar self [[1; 2]; [3; 4]; [5; 6]] [[7; 8]; [9; 10]] (PyInt 1)
  ∧ ∃ logits,
      @ProTCL.score Z Z_scalar self [[1; 2]; [3; 4]; [5; 6]] [[7; 8]; [9; 10]] (PyInt 2)
      = Ok logits
      ∧ length logits = 3%nat.
Proof.
  destruct (@C1_chunked_score_equals_unchunked Z Z_scalar Z_init 2 2 2 false false 3 2 None
              [[1; 2]; [3; 4]; [5; 6]] [[7; 8]; [9; 10]] 2
              ltac:(lia) ltac:(discriminate) ltac:(discriminate))
    as (Hsame & _ & s & _ & Hok & _).
  split; [exact Hsame|].
  eexists. split.
  - apply Hok; repeat constructor.
  - by rewrite length_map.
Defined.

(** C2, as amended. For [n_a >= 1] rows and an integer chunk count
    [k >= 1], the loop takes chunks of size [cs = ceil(n_a / k)]: there are
    [ceil(n_a / cs)] of them, at most [k]; glued together in order they are
    exactly [P_e] (so every row is in exactly one chunk); every chunk has
    between 1 and [cs] rows and every chunk but the last exactly [cs]; and
    the joint embeddings are the chunks' cross products with the whole of
    [L_e], in order. *)
Theorem C2_chunk_partition {T} (P_e L_e : tensor T) (k : Z) :
  1 ≤ k → P_e ≠ [] →
  let n := Z.of_nat (length P_e) in
  let cs := (n + k - 1) / k in
  ∃ chunks,
    ProTCL.P_e_chunks P_e (PyInt k) = Ok chunks
    ∧ Z.of_nat (length chunks) = (n + cs - 1) / cs
    ∧ Z.of_nat (length chunks) ≤ k
    ∧ concat chunks = P_e
    ∧ (∀ (i : nat) c, chunks !! i = Some c →
         1 ≤ Z.of_nat (length c) ≤ cs
         ∧ ((i + 1 < length chunks)%nat → Z.of_nat (length c) = cs))
    ∧ ProTCL._get_joint_embeddings P_e L_e (PyInt k)
      = Ok (concat (map (λ c, spec_cross_product c L_e) chunks),
            length P_e, length L_e).
Proof.
  intros Hk HP n cs.
  assert (0 < length P_e)%nat as Hn by (destruct P_e; [done | simpl; lia]).
  destruct (ceil_div_covers n k) as [Hcs1 Hcov]; [lia..|]. fold cs in Hcs1, Hcov.
  destruct (get_joint_embeddings_chunks P_e L_e k Hk HP) as (chunks & Hc & _ & Hj).
  exists chunks. split; [done|].
  pose proof (P_e_chunks_concat P_e k chunks Hk HP Hc) as Hcat.
  set (c := Z.to_nat cs) in *.
  set (m := ((length P_e - 1) / c)%nat) in *.
  assert (map (λ j, take c (drop (j * c) P_e)) (seq 0 (S m)) = chunks) as Hc'.
  { pose proof (P_e_chunks_int P_e k Hk HP) as Hc2. cbv zeta in Hc2.
    rewrite Hc in Hc2. unfold m, c, cs, n. by injection Hc2. }
  clear Hc. rename Hc' into Hc.
  assert (Z.of_nat m = (n - 1) / cs) as Hm.
  { unfold m. rewrite Nat2Z.inj_div. f_equal; lia. }
  assert (length chunks = S m) as Hlen.
  { rewrite <- Hc. by rewrite length_map, length_seq. }
  assert ((n + cs - 1) / cs = 1 + (n - 1) / cs) as Hceil.
  { replace (n + cs - 1) with ((n - 1) + 1 * cs) by lia.
    rewrite Z.div_add by lia. lia. }
  assert ((n - 1) / cs < k) as Hlt.
  { apply Z.div_lt_upper_bound; lia. }
  assert (cs * ((n - 1) / cs) ≤ n - 1) as Hfloor.
  { apply Z.mul_div_le. lia. }
  split; [lia|]. split; [lia|]. split; [done|]. split; [|done].
  intros i ch Hi. rewrite <- Hc in Hi.
  apply list_lookup_fmap_Some in Hi as (j & Hch & Hj').
  apply lookup_seq in Hj' as [-> Hjm]. cbn in Hch. subst ch.
  rewrite length_take, length_drop.
  assert (Z.of_nat i ≤ (n - 1) / cs) as Hi' by lia.
  assert (Z.of_nat (i * c) ≤ n - 1) as Hic by nia.
  split; [lia|].
  intros Hnext.
  assert (Z.of_nat i + 1 ≤ (n - 1) / cs) as Hi'' by lia.
  assert (Z.of_nat (i * c) + cs ≤ n - 1) by nia.
  lia.
Qed.

Lemma C2_witness :
  ∃ chunks,
    ProTCL.P_e_chunks [[1]; [2]; [3]; [4]; [5]] (PyInt 2) = Ok chunks
    ∧ concat chunks = [[1]; [2]; [3]; [4]; [5]].
Proof.
  destruct (C2_chunk_partition [[1]; [2]; [3]; [4]; [5]] [[7]] 2
              ltac:(lia) ltac:(discriminate)) as (chunks & Hc & _ & _ & Hcat & _).
  exists chunks. split; [exact Hc | exact Hcat].
Defined.

(** C2 as stated fails: 16 rows with the default 15 chunks give chunks of 2
    rows, hence 8 chunks and not 15. *)
Lemma C2_counterexample :
  ∃ chunks,
    ProTCL.P_e_chunks (replicate 16 [0]) (PyInt 15) = Ok chunks
    ∧ length chunks = 8%nat
    ∧ Z.of_nat (length chunks) ≠ 15.
Proof. eexists. split; [vm_compute; reflexivity|]. split; [reflexivity | vm_compute; discriminate]. Qed.

(** C9. When [NUM_CHUNKS] is set in the environment, the default chunk count
    is the variable's string value and [_get_joint_embeddings] raises
    [TypeError] on every input; with the variable unset the default is the
    integer 15. *)
Theorem C9_env_num_chunks_type_error (environ : gmap string string) (s : string) :
  environ !! "NUM_CHUNKS" = Some s →
  (∀ T (P_e L_e : tensor T),
     ProTCL._get_joint_embeddings P_e L_e (ProTCL.default_num_chunks environ)
     = Raise TypeError)
  ∧ ProTCL.default_num_chunks (delete "NUM_CHUNKS" environ) = PyInt 15.
Proof.
  intros Hs. unfold ProTCL.default_num_chunks, os_environ_get. split.
  - intros T P_e L_e. by rewrite Hs.
  - by rewrite lookup_delete_eq.
Qed.

Lemma C9_witness :
  (∀ T (P_e L_e : tensor T),
     ProTCL._get_joint_embeddings P_e L_e
       (ProTCL.default_num_chunks {["NUM_CHUNKS" := "4"]})
     = Raise TypeError)
  ∧ ProTCL.default_num_chunks (delete "NUM_CHUNKS" {["NUM_CHUNKS" := "4"]}) = PyInt 15.
Proof.
  exact (C9_env_num_chunks_type_error {["NUM_CHUNKS" := "4"]} "4"
           (lookup_singleton_eq _ _)).
Defined.

(** ** Vocabularies *)

Lemma vocab_int2term (v : list string) (i : nat) :
  (datasets.get_vocab_mappings v).2 !! i = v !! i.
Proof.
  unfold datasets.get_vocab_mappings. cbn [snd].
  assert (NoDup (reverse (zip (seq 0 (length v)) v)).*1) as Hnd.
  { rewrite fmap_reverse, reverse_Permutation, fst_zip by (by rewrite length_seq).
    apply NoDup_seq. }
  destruct (v !! i) as [x|] eqn:Hx.
  - apply elem_of_list_to_map; [done|].
    apply elem_of_reverse, list_elem_of_lookup. exists i.
    apply lookup_zip_Some. split; [|done].
    apply lookup_seq. split; [done|]. by apply lookup_lt_Some in Hx.
  - apply not_elem_of_list_to_map.
    rewrite fmap_reverse, elem_of_reverse, fst_zip by (by rewrite length_seq).
    rewrite elem_of_seq. apply lookup_ge_None in Hx. lia.
Qed.

Lemma vocab_term2int (v : list string) (x : string) (i : nat) :
  NoDup v → (datasets.get_vocab_mappings v).1 !! x = Some i ↔ v !! i = Some x.
Proof.
  intros Hnd. unfold datasets.get_vocab_mappings. cbn [fst].
  rewrite <- elem_of_list_to_map; last first.
  { rewrite fmap_reverse, reverse_Permutation, fst_zip by (by rewrite length_seq). done. }
  rewrite elem_of_reverse, list_elem_of_lookup. split.
  - intros [j Hj]. apply lookup_zip_Some in Hj as [Hx Hi].
    apply lookup_seq in Hi as [-> _]. done.
  - intros Hx. exists i. apply lookup_zip_Some. split; [done|].
    apply lookup_seq. split; [done|]. by apply lookup_lt_Some in Hx.
Qed.

Lemma py_sorted_elements (X : gset string) :
  sorted_vocabulary_of (datasets.py_sorted (elements X)) (λ x, x ∈ X).
Proof.
  unfold datasets.py_sorted.
  assert (NoDup (merge_sort String.le (elements X))) as Hnd.
  { rewrite merge_sort_Permutation. apply NoDup_elements. }
  split; [apply (StronglySorted_merge_sort _)|].
  split; [done|]. split; [|split].
  - intros x. by rewrite merge_sort_Permutation, elem_of_elements.
  - intros x i. by apply vocab_term2int.
  - apply vocab_int2term.
Qed.

Lemma elem_of_foldl_union {A} (f : A → gset string) (l : list A) (S0 : gset string) x :
  x ∈ foldl (λ vocab obs, vocab ∪ f obs) S0 l ↔ x ∈ S0 ∨ ∃ obs, obs ∈ l ∧ x ∈ f obs.
Proof.
  revert S0. induction l as [|a l IH]; intros S0; cbn.
  - split; [by left|]. intros [?|(obs & Hobs & _)]; [done|]. by apply elem_of_nil in Hobs.
  - rewrite IH, elem_of_union. split.
    + intros [[?|?]|(obs & ? & ?)]; [by left|right; exists a|right; exists obs];
        (split; [|done]); [left|by right].
    + intros [?|(obs & Hobs & ?)]; [by left; left|].
      apply elem_of_cons in Hobs as [-> |?]; [by left; right|right; by exists obs].
Qed.

Lemma process_sequence_id_loop (data : list datasets.observation) (S0 : gset string) :
  match for_fold (λ (vocab : gset string) (obs : datasets.observation),
                    match obs.2 !! 0%nat with
                    | Some id => Ok (vocab ∪ {[id]})
                    | None => Raise IndexError
                    end) S0 data with
  | Ok S' => Forall (λ obs : datasets.observation, obs.2 ≠ []) data
            ∧ ∀ x, x ∈ S' ↔ x ∈ S0 ∨ ∃ obs, obs ∈ data ∧ obs.2 !! 0%nat = Some x
  | Raise e => e = IndexError
               ∧ ¬ Forall (λ obs : datasets.observation, obs.2 ≠ []) data
  end.
Proof.
  revert S0. induction data as [|[sq ls] data IH]; intros S0; cbn.
  - split; [done|]. intros x. split; [by left|].
    intros [?|(obs & Hobs & _)]; [done|]. by apply elem_of_nil in Hobs.
  - destruct ls as [|id ls]; cbn.
    + split; [done|]. intros HF. by apply Forall_cons in HF as [? _].
    + specialize (IH (S0 ∪ {[id]})). destruct (for_fold _ _ data) as [S'|e].
      * destruct IH as [HF Hin]. split; [by constructor|].
        intros x. rewrite Hin, elem_of_union, elem_of_singleton. split.
        -- intros [[?| ->]|(obs & ? & ?)]; [by left|right|right].
           ++ exists (sq, id :: ls). split; [left|done].
           ++ exists obs. split; [by right|done].
        -- intros [?|(obs & Hobs & Hid)]; [by left; left|].
           apply elem_of_cons in Hobs as [-> |?].
           ++ cbn in Hid. left; right. congruence.
           ++ right. by exists obs.
      * destruct IH as [-> HF]. split; [done|].
        intros HF'. apply HF. by apply Forall_cons in HF' as [_ ?].
Qed.

(** C6. Without a vocabulary file, each of the three vocabularies (amino
    acids, labels, sequence identifiers) is the set of the identifiers found in
    the data, sorted lexicographically without repetition, and an
    identifier's integer is its position in that list; the identifiers
    Q9Y6K9, P12345, O43561 get O43561:0, P12345:1, Q9Y6K9:2.  With a
    vocabulary file, the vocabulary is the file's list as it is, position by
    position. *)
Theorem C6_vocabulary_order (data : list datasets.observation) :
  sorted_vocabulary_of (datasets._process_amino_acid_vocab data None)
    (λ x, ∃ obs, obs ∈ data ∧ x ∈ datasets.chars obs.1)
  ∧ sorted_vocabulary_of (datasets._process_label_vocab data None)
      (λ x, ∃ obs, obs ∈ data ∧ x ∈ drop 1 obs.2)
  ∧ match datasets._process_sequence_id_vocab data None with
    | Ok v => Forall (λ obs : datasets.observation, obs.2 ≠ []) data
              ∧ sorted_vocabulary_of v (λ x, ∃ obs, obs ∈ data ∧ obs.2 !! 0%nat = Some x)
    | Raise e => e = IndexError
                 ∧ ¬ Forall (λ obs : datasets.observation, obs.2 ≠ []) data
    end
  ∧ (let v := datasets._process_sequence_id_vocab
                [("MKT", ["Q9Y6K9"; "GO:1"]); ("MAA", ["P12345"]); ("MKV", ["O43561"; "GO:2"])]
                None in
     v = Ok ["O43561"; "P12345"; "Q9Y6K9"]
     ∧ (datasets.get_vocab_mappings ["O43561"; "P12345"; "Q9Y6K9"]).1
       = {["O43561" := 0%nat; "P12345" := 1%nat; "Q9Y6K9" := 2%nat]})
  ∧ ∀ vocabulary,
      datasets._process_amino_acid_vocab data (Some vocabulary) = vocabulary
      ∧ datasets._process_label_vocab data (Some vocabulary) = vocabulary
      ∧ datasets._process_sequence_id_vocab data (Some vocabulary) = Ok vocabulary
      ∧ ∀ i, (datasets.get_vocab_mappings vocabulary).2 !! i = vocabulary !! i.
Proof.
  split; [|split; [|split; [|split]]].
  - unfold datasets._process_amino_acid_vocab.
    destruct (py_sorted_elements
                (foldl (λ vocab obs, vocab ∪ list_to_set (datasets.chars obs.1)) ∅ data))
      as (Hs & Hnd & Hin & Hm).
    split; [done|]. split; [done|]. split; [|done].
    intros x. rewrite Hin, elem_of_foldl_union. split.
    + intros [Hx|(obs & Ho & Hx)]; [by apply not_elem_of_empty in Hx|].
      exists obs. split; [done|]. by apply elem_of_list_to_set in Hx.
    + intros (obs & Ho & Hx). right. exists obs. split; [done|].
      by apply elem_of_list_to_set.
  - unfold datasets._process_label_vocab.
    destruct (py_sorted_elements
                (foldl (λ vocab (obs : datasets.observation),
                          vocab ∪ list_to_set (drop 1 obs.2)) ∅ data))
      as (Hs & Hnd & Hin & Hm).
    split; [done|]. split; [done|]. split; [|done].
    intros x. rewrite Hin, elem_of_foldl_union. split.
    + intros [Hx|(obs & Ho & Hx)]; [by apply not_elem_of_empty in Hx|].
      exists obs. split; [done|]. by apply elem_of_list_to_set in Hx.
    + intros (obs & Ho & Hx). right. exists obs. split; [done|].
      by apply elem_of_list_to_set.
  - unfold datasets._process_sequence_id_vocab.
    pose proof (process_sequence_id_loop data ∅) as Hloop.
    destruct (for_fold _ _ data) as [S'|e]; cbn; [|done].
    destruct Hloop as [HF HS]. split; [done|].
    destruct (py_sorted_elements S') as (Hs & Hnd & Hin & Hm).
    split; [done|]. split; [done|]. split; [|done].
    intros x. rewrite Hin, HS. split; [|by right].
    intros [Hx|?]; [by apply not_elem_of_empty in Hx|done].
  - split; [by vm_compute|].
    apply map_eq. intros x.
    destruct (decide (x = "O43561")) as [-> |]; [by vm_compute|].
    destruct (decide (x = "P12345")) as [-> |]; [by vm_compute|].
    destruct (decide (x = "Q9Y6K9")) as [-> |]; [by vm_compute|].
    rewrite !lookup_insert_ne, lookup_singleton_ne by done.
    apply not_elem_of_list_to_map. cbn.
    rewrite !elem_of_cons, elem_of_nil. by intros [?|[?|[?|[]]]].
  - intros vocabulary. repeat split. apply vocab_int2term.
Qed.

(** ** Confidence normalization *)

Section Normalize.
Context `{Scalar T}.
Hypothesis max_assoc : ∀ a b c : T, s_max a (s_max b c) = s_max (s_max a b) c.
Hypothesis max_comm : ∀ a b : T, s_max a b = s_max b a.
Hypothesis max_idem : ∀ a : T, s_max a a = a.

Lemma below_max_l a b : below a (s_max a b).
Proof. unfold below. by rewrite max_assoc, max_idem. Qed.

Lemma below_max_r a b : below b (s_max a b).
Proof. unfold below. by rewrite (max_comm a b), max_assoc, max_idem. Qed.

Lemma below_trans a b c : below a b → below b c → below a c.
Proof. unfold below. intros Hab Hbc. by rewrite <- Hbc, max_assoc, Hab. Qed.

Lemma below_lub a b c : below a c → below b c → below (s_max a b) c.
Proof. unfold below. intros Hac Hbc. by rewrite <- max_assoc, Hbc, Hac. Qed.

Lemma foldl_max_init x ys : below x (foldl s_max x ys).
Proof.
  revert x. induction ys as [|y ys IH]; intros x; cbn.
  - apply max_idem.
  - eapply below_trans; [apply below_max_l | apply IH].
Qed.

Lemma foldl_max_elem x ys y : y ∈ ys → below y (foldl s_max x ys).
Proof.
  revert x. induction ys as [|y' ys IH]; intros x Hy; cbn.
  - by apply elem_of_nil in Hy.
  - apply elem_of_cons in Hy as [-> |Hy]; [|by apply IH].
    eapply below_trans; [apply below_max_r | apply foldl_max_init].
Qed.

Lemma foldl_max_lub x ys z :
  below x z → (∀ y, y ∈ ys → below y z) → below (foldl s_max x ys) z.
Proof.
  revert x. induction ys as [|y ys IH]; intros x Hx Hys; cbn; [done|].
  apply IH.
  - apply below_lub; [done|]. apply Hys. left.
  - intros y' Hy'. apply Hys. by right.
Qed.

Lemma foldl_max_absorb z ys :
  (∀ y, y ∈ ys → below y z) → foldl s_max z ys = z.
Proof.
  induction ys as [|y ys IH]; intros Hys; cbn; [done|].
  assert (s_max z y = z) as ->.
  { rewrite max_comm. apply Hys. left. }
  apply IH. intros y' Hy'. apply Hys. by right.
Qed.

Lemma elem_of_descendant_values (row : list T) vocab dict (label : string) (y : T) :
  y ∈ ProTCLTrainer.descendant_values row vocab dict label
  ↔ ∃ (c : nat) (child : string),
      vocab !! c = Some child ∧ row !! c = Some y
      ∧ label ∈ ProTCLTrainer.ancestors_of dict child.
Proof.
  unfold ProTCLTrainer.descendant_values. rewrite list_elem_of_omap. split.
  - intros ([child x] & Hin & Hy).
    case_bool_decide as Hanc; [|done]. injection Hy as ->.
    apply list_elem_of_lookup in Hin as [c Hc].
    apply lookup_zip_with_Some in Hc as (child' & x' & [= -> ->] & Hv & Hr).
    by exists c, child'.
  - intros (c & child & Hv & Hr & Hanc). exists (child, y). split.
    + apply list_elem_of_lookup. exists c.
      apply lookup_zip_with_Some. by exists child, y.
    + by rewrite bool_decide_eq_true_2.
Qed.

Lemma normalize_row_lookup vocab dict (row : list T) (j : nat) :
  ProTCLTrainer.normalize_row vocab dict row !! j
  = (λ x, match vocab !! j with
          | Some label =>
              foldl s_max x (ProTCLTrainer.descendant_values row vocab dict label)
          | None => x
          end) <$> row !! j.
Proof. unfold ProTCLTrainer.normalize_row. apply list_lookup_imap. Qed.

(** The normalized value of a label is the least value above its raw value
    and the raw values of the labels it is an ancestor of. *)
Lemma normalize_row_propagates_up vocab dict (row : list T) (j : nat) (label : string)
    (x : T) :
  vocab !! j = Some label → row !! j = Some x →
  ∃ n, ProTCLTrainer.normalize_row vocab dict row !! j = Some n
       ∧ below x n
       ∧ (∀ (c : nat) (child : string) (y : T),
            vocab !! c = Some child → row !! c = Some y →
            label ∈ ProTCLTrainer.ancestors_of dict child → below y n)
       ∧ (∀ z, below x z →
               (∀ (c : nat) (child : string) (y : T),
                  vocab !! c = Some child → row !! c = Some y →
                  label ∈ ProTCLTrainer.ancestors_of dict child → below y z) →
               below n z).
Proof.
  intros Hv Hr. rewrite normalize_row_lookup, Hv, Hr. cbn.
  eexists. split; [done|]. split; [apply foldl_max_init|]. split.
  - intros c child y Hc Hy Hanc. apply foldl_max_elem.
    apply elem_of_descendant_values. by exists c, child.
  - intros z Hx Hz. apply foldl_max_lub; [done|].
    intros y Hy. apply elem_of_descendant_values in Hy as (c & child & Hc & Hy & Hanc).
    by apply (Hz c child).
Qed.

Lemma normalize_row_idempotent vocab dict (row : list T) :
  transitively_closed dict →
  ProTCLTrainer.normalize_row vocab dict (ProTCLTrainer.normalize_row vocab dict row)
  = ProTCLTrainer.normalize_row vocab dict row.
Proof.
  intros Htrans. apply list_eq. intros j.
  rewrite normalize_row_lookup.
  destruct (ProTCLTrainer.normalize_row vocab dict row !! j) as [n|] eqn:Hn; [|done].
  cbn. f_equal.
  destruct (vocab !! j) as [label|] eqn:Hv; [|done].
  apply foldl_max_absorb. intros y Hy.
  rewrite normalize_row_lookup, Hv in Hn.
  destruct (row !! j) as [xj|] eqn:Hxj; [|done]. injection Hn as <-.
  apply elem_of_descendant_values in Hy as (c & child & Hc & Hy & Hanc).
  rewrite normalize_row_lookup, Hc in Hy.
  destruct (row !! c) as [xc|] eqn:Hxc; [|done]. injection Hy as <-.
  apply foldl_max_lub.
  - apply foldl_max_elem, elem_of_descendant_values. by exists c, child.
  - intros z Hz. apply foldl_max_elem.
    apply elem_of_descendant_values in Hz as (c' & child' & Hc' & Hz & Hanc').
    apply elem_of_descendant_values. exists c', child'. split; [done|]. split; [done|].
    unfold ProTCLTrainer.ancestors_of in *.
    by apply (Htrans child' child label).
Qed.

End Normalize.

(** C5. With a maximum on confidences that is associative, commutative and
    idempotent (as the maximum of floats is), and an ancestor map that is a
    full transitive closure, normalizing twice gives the same matrix as
    normalizing once, for every matrix and label vocabulary: what a label
    receives from the labels below it, its ancestors have received already. *)
Theorem C5_normalize_idempotent `{Scalar T} (predictions : tensor T)
    (label_vocab : list string) (applicable_label_dict : gmap string (list string)) :
  (∀ a b c : T, s_max a (s_max b c) = s_max (s_max a b) c) →
  (∀ a b : T, s_max a b = s_max b a) →
  (∀ a : T, s_max a a = a) →
  transitively_closed applicable_label_dict →
  ProTCLTrainer.normalize_confidences
    (ProTCLTrainer.normalize_confidences predictions label_vocab applicable_label_dict)
    label_vocab applicable_label_dict
  = ProTCLTrainer.normalize_confidences predictions label_vocab applicable_label_dict.
Proof.
  intros Hassoc Hcomm Hidem Htrans.
  unfold ProTCLTrainer.normalize_confidences. rewrite map_map.
  apply map_ext. intros row. by apply normalize_row_idempotent.
Qed.

(** The scenario of the specification, with the confidences in tenths: four
    labels, label1 the one ancestor of label3, and a first sequence with 0.2
    for label1 and 0.9 for label3. *)
Lemma parent_map_closed : transitively_closed {["label3" := ["label1"]]}.
Proof.
  intros l a b Ha Hb.
  destruct (decide (l = "label3")) as [->|Hl].
  - rewrite lookup_singleton_eq in Ha. cbn in Ha.
    apply list_elem_of_singleton in Ha as ->.
    rewrite lookup_singleton_ne in Hb by done. by apply elem_of_nil in Hb.
  - rewrite lookup_singleton_ne in Ha by done. by apply elem_of_nil in Ha.
Defined.

Lemma normalize_confidences_scenario :
  @ProTCLTrainer.normalize_confidences Z Z_scalar
    [[5; 2; 1; 9]; [3; 8; 0; 4]; [0; 0; 7; 0]]
    ["label0"; "label1"; "label2"; "label3"] {["label3" := ["label1"]]}
  = [[5; 9; 1; 9]; [3; 8; 0; 4]; [0; 0; 7; 0]].
Proof. vm_compute. reflexivity. Qed.

Lemma C5_witness :
  @ProTCLTrainer.normalize_confidences Z Z_scalar
    (@ProTCLTrainer.normalize_confidences Z Z_scalar
       [[5; 2; 1; 9]; [3; 8; 0; 4]; [0; 0; 7; 0]]
       ["label0"; "label1"; "label2"; "label3"] {["label3" := ["label1"]]})
    ["label0"; "label1"; "label2"; "label3"] {["label3" := ["label1"]]}
  = @ProTCLTrainer.normalize_confidences Z Z_scalar
      [[5; 2; 1; 9]; [3; 8; 0; 4]; [0; 0; 7; 0]]
      ["label0"; "label1"; "label2"; "label3"] {["label3" := ["label1"]]}.
Proof.
  exact (@C5_normalize_idempotent Z Z_scalar [[5; 2; 1; 9]; [3; 8; 0; 4]; [0; 0; 7; 0]]
           ["label0"; "label1"; "label2"; "label3"] {["label3" := ["label1"]]}
           Z.max_assoc Z.max_comm Z.max_id parent_map_closed).
Defined.

(** ** The threshold sweep *)

Lemma py_gt_lt (a b : Q) : ProTCLTrainer.py_gt a b = true ↔ (b < a)%Q.
Proof.
  unfold ProTCLTrainer.py_gt. rewrite negb_true_iff. split.
  - intros Hle. apply Qnot_le_lt. intros Hab.
    apply Qle_bool_iff in Hab. congruence.
  - intros Hlt. destruct (Qle_bool a b) eqn:Hle; [|done].
    apply Qle_bool_iff in Hle. by apply Qlt_not_le in Hlt.
Qed.

Lemma py_gt_le (a b : Q) : ProTCLTrainer.py_gt a b = false ↔ (a <= b)%Q.
Proof.
  unfold ProTCLTrainer.py_gt. rewrite negb_false_iff. apply Qle_bool_iff.
Qed.

(** What a sweep returns: the initial pair when no candidate scores above 0,
    and otherwise the first candidate that attains the greatest score. *)
Lemma sweep_spec (score : Q → Q) (candidates : list Q) :
  ∃ th sc, ProTCLTrainer.sweep score candidates = (th, sc)
    ∧ (((∀ c, c ∈ candidates → (score c <= 0)%Q) ∧ th = 0%Q ∧ sc = 0%Q)
       ∨ (∃ i : nat, candidates !! i = Some th
            ∧ sc = score th
            ∧ (0 < sc)%Q
            ∧ (∀ c, c ∈ candidates → (score c <= sc)%Q)
            ∧ (∀ (j : nat) c, (j < i)%nat → candidates !! j = Some c →
                              (score c < sc)%Q))).
Proof.
  unfold ProTCLTrainer.sweep.
  induction candidates as [|c cands IH] using rev_ind.
  - exists 0%Q, 0%Q. split; [done|]. left. split; [|done].
    intros c Hc. by apply elem_of_nil in Hc.
  - rewrite foldl_snoc.
    destruct IH as (th & sc & -> & IH).
    destruct (ProTCLTrainer.py_gt (score c) sc) eqn:Hgt.
    + apply py_gt_lt in Hgt.
      exists c, (score c). split; [done|]. right.
      exists (length cands). split; [by apply list_lookup_middle|].
      split; [done|].
      assert (∀ c', c' ∈ cands → (score c' <= sc)%Q) as Hprev.
      { destruct IH as [(Hall & _ & ->)|(i & _ & _ & _ & Hall & _)]; done. }
      assert (0 <= sc)%Q as Hsc.
      { destruct IH as [(_ & _ & ->)|(i & _ & _ & Hpos & _)];
          [apply Qle_refl | by apply Qlt_le_weak]. }
      split; [by eapply Qle_lt_trans|]. split.
      * intros c' Hc'. apply elem_of_app in Hc' as [Hc'|Hc'].
        -- apply Qlt_le_weak. eapply Qle_lt_trans; [by apply Hprev|done].
        -- apply list_elem_of_singleton in Hc' as ->. apply Qle_refl.
      * intros j c' Hj Hc'. rewrite lookup_app_l in Hc' by done.
        eapply Qle_lt_trans; [|done]. apply Hprev.
        by eapply list_elem_of_lookup_2.
    + apply py_gt_le in Hgt.
      exists th, sc. split; [done|].
      destruct IH as [(Hall & -> & ->)|(i & Hi & Hs & Hpos & Hall & Hfirst)].
      * left. split; [|done]. intros c' Hc'.
        apply elem_of_app in Hc' as [Hc'|Hc']; [by apply Hall|].
        by apply list_elem_of_singleton in Hc' as ->.
      * right. exists i. split; [by apply lookup_app_l_Some|].
        split; [done|]. split; [done|]. split.
        -- intros c' Hc'. apply elem_of_app in Hc' as [Hc'|Hc']; [by apply Hall|].
           by apply list_elem_of_singleton in Hc' as ->.
        -- intros j c' Hj Hc'. apply (Hfirst j c' Hj).
           apply lookup_lt_Some in Hi.
           rewrite lookup_app_l in Hc' by lia. done.
Qed.

Lemma np_arange_thresholds_lookup (i : nat) (th : Q) :
  ProTCLTrainer.np_arange_thresholds !! i = Some th
  ↔ (i < 90)%nat ∧ th = Qmake (10 + Z.of_nat i) 100.
Proof.
  unfold ProTCLTrainer.np_arange_thresholds.
  rewrite list_lookup_fmap_Some. split.
  - intros (j & -> & Hj). apply lookup_seq in Hj as [-> ?]. done.
  - intros [Hi ->]. exists i. split; [done|]. by apply lookup_seq.
Qed.

Lemma for_each_length {A B} (f : A → result B) (l : list A) (r : list B) :
  for_each f l = Ok r → length r = length l.
Proof.
  revert r. induction l as [|x l IH]; intros r; cbn.
  - by intros [= <-].
  - destruct (f x) as [y|e]; cbn; [|done].
    destruct (for_each f l) as [ys|e]; cbn; [|done].
    intros [= <-]. cbn. f_equal. by apply IH.
Qed.

Section Sweep.
Context {T G O Metric : Type} `{!Scalar T, !ProTCLTrainer.Torch T G O Metric}.

Lemma find_optimal_threshold_ok (cfg : ProTCLTrainer.config) (m : ProTCL.t T)
    (data_loader : list (ProTCLTrainer.batch T)) (name : string)
    (per_batch : list (tensor T * tensor T)) :
  data_loader ≠ [] →
  for_each (ProTCLTrainer.threshold_batch cfg m) data_loader = Ok per_batch →
  ProTCLTrainer.find_optimal_threshold cfg m data_loader name
  = Ok (ProTCLTrainer.sweep
          (ProTCLTrainer.threshold_score name
             (ProTCLTrainer.shape_last (default [] (last (map snd per_batch))))
             (concat (map fst per_batch)) (concat (map snd per_batch)))
          ProTCLTrainer.np_arange_thresholds).
Proof.
  intros Hne Hpb. unfold ProTCLTrainer.find_optimal_threshold.
  rewrite Hpb. cbn [bind].
  apply for_each_length in Hpb.
  destruct per_batch as [|pb per_batch]; [by destruct data_loader|].
  done.
Qed.

End Sweep.

(** C3, as amended. For a loader with at least one batch whose evaluation
    steps succeed, [find_optimal_threshold] sweeps the candidates 0.10, 0.11,
    ..., 0.99 in ascending order, scoring each with a fresh metric on the whole
    of the concatenated tensors. If some candidate scores strictly above 0, it
    returns the candidate of greatest score with that score, and among equal
    scores the lowest threshold: every lower candidate scores strictly less.
    Otherwise it returns the initial pair (0, 0). *)
Theorem C3_threshold_sweep {T G O Metric : Type}
    `{!Scalar T, !ProTCLTrainer.Torch T G O Metric}
    (cfg : ProTCLTrainer.config) (m : ProTCL.t T)
    (data_loader : list (ProTCLTrainer.batch T)) (name : string)
    (per_batch : list (tensor T * tensor T)) :
  data_loader ≠ [] →
  for_each (ProTCLTrainer.threshold_batch cfg m) data_loader = Ok per_batch →
  let score :=
    ProTCLTrainer.threshold_score name
      (ProTCLTrainer.shape_last (default [] (last (map snd per_batch))))
      (concat (map fst per_batch)) (concat (map snd per_batch)) in
  let candidates := ProTCLTrainer.np_arange_thresholds in
  (∀ (i : nat) th, candidates !! i = Some th
                   ↔ (i < 90)%nat ∧ th = Qmake (10 + Z.of_nat i) 100)
  ∧ ∃ th sc,
      ProTCLTrainer.find_optimal_threshold cfg m data_loader name = Ok (th, sc)
      ∧ (((∀ c, c ∈ candidates → (score c <= 0)%Q) ∧ th = 0%Q ∧ sc = 0%Q)
         ∨ (th ∈ candidates
            ∧ sc = score th
            ∧ (0 < sc)%Q
            ∧ (∀ c, c ∈ candidates → (score c <= sc)%Q)
            ∧ (∀ c, c ∈ candidates → (c < th)%Q → (score c < sc)%Q))).
Proof.
  intros Hne Hpb score candidates.
  split; [apply np_arange_thresholds_lookup|].
  destruct (sweep_spec score candidates) as (th & sc & Hsweep & Hspec).
  exists th, sc. split.
  { rewrite (find_optimal_threshold_ok cfg m data_loader name per_batch) by done.
    by f_equal. }
  destruct Hspec as [?|(i & Hi & Hsc & Hpos & Hall & Hfirst)]; [by left|right].
  split; [by eapply list_elem_of_lookup_2|].
  split; [done|]. split; [done|]. split; [done|].
  intros c Hc Hlt.
  apply list_elem_of_lookup in Hc as [j Hj].
  apply (Hfirst j c); [|done].
  apply np_arange_thresholds_lookup in Hi as [_ ->].
  apply np_arange_thresholds_lookup in Hj as [_ ->].
  unfold Qlt in Hlt. cbn in Hlt. lia.
Qed.

(** C10. For a loader with at least one batch whose evaluation steps succeed,
    if no candidate threshold scores strictly above 0 then
    [find_optimal_threshold] returns (0, 0); that threshold is not one of the
    candidates, all of which lie strictly between 0 and 1, while it does
    not. *)
Theorem C10_no_positive_score {T G O Metric : Type}
    `{!Scalar T, !ProTCLTrainer.Torch T G O Metric}
    (cfg : ProTCLTrainer.config) (m : ProTCL.t T)
    (data_loader : list (ProTCLTrainer.batch T)) (name : string)
    (per_batch : list (tensor T * tensor T)) :
  data_loader ≠ [] →
  for_each (ProTCLTrainer.threshold_batch cfg m) data_loader = Ok per_batch →
  (∀ c, c ∈ ProTCLTrainer.np_arange_thresholds →
        (ProTCLTrainer.threshold_score name
           (ProTCLTrainer.shape_last (default [] (last (map snd per_batch))))
           (concat (map fst per_batch)) (concat (map snd per_batch)) c <= 0)%Q) →
  ProTCLTrainer.find_optimal_threshold cfg m data_loader name = Ok (0%Q, 0%Q)
  ∧ (0%Q ∉ ProTCLTrainer.np_arange_thresholds)
  ∧ (∀ c, c ∈ ProTCLTrainer.np_arange_thresholds → (0 < c)%Q ∧ (c < 1)%Q)
  ∧ ¬ ((0 < 0)%Q ∧ (0 < 1)%Q).
Proof.
  intros Hne Hpb Hall.
  assert (∀ c, c ∈ ProTCLTrainer.np_arange_thresholds → (0 < c)%Q ∧ (c < 1)%Q) as Hrange.
  { intros c Hc. apply list_elem_of_lookup in Hc as [i Hi].
    apply np_arange_thresholds_lookup in Hi as [Hi ->].
    unfold Qlt. cbn. lia. }
  split; [|split; [|split; [done|]]].
  - rewrite (find_optimal_threshold_ok cfg m data_loader name per_batch) by done.
    f_equal.
    destruct (sweep_spec
                (ProTCLTrainer.threshold_score name
                   (ProTCLTrainer.shape_last (default [] (last (map snd per_batch))))
                   (concat (map fst per_batch)) (concat (map snd per_batch)))
                ProTCLTrainer.np_arange_thresholds)
      as (th & sc & -> & [(_ & -> & ->)|(i & Hi & -> & Hpos & _)]); [done|].
    exfalso. apply (Qlt_not_le _ _ Hpos). apply Hall.
    by eapply list_elem_of_lookup_2.
  - intros H0. apply Hrange in H0 as [H0 _]. by apply Qlt_irrefl in H0.
  - intros [H0 _]. by apply Qlt_irrefl in H0.
Qed.

Lemma C3_witness :
  ∃ th sc,
    @ProTCLTrainer.find_optimal_threshold Z unit unit Q Z_scalar peak_torch
      sample_cfg sample_model [sample_batch] "f1_micro" = Ok (th, sc).
Proof.
  edestruct (@C3_threshold_sweep Z unit unit Q Z_scalar peak_torch
               sample_cfg sample_model [sample_batch] "f1_micro")
    as (_ & th & sc & Heq & _).
  - discriminate.
  - vm_compute. reflexivity.
  - exists th, sc. exact Heq.
Defined.

(** C3 as stated fails: with a metric that is 0 at every threshold the
    function returns the threshold 0, which is not one of the candidates. *)
Lemma C3_counterexample :
  @ProTCLTrainer.find_optimal_threshold Z unit unit unit Z_scalar null_torch
    sample_cfg sample_model [sample_batch] "f1_micro" = Ok (0%Q, 0%Q)
  ∧ (0%Q ∉ ProTCLTrainer.np_arange_thresholds).
Proof.
  split; [by vm_compute|].
  intros H0. apply list_elem_of_lookup in H0 as [i Hi].
  apply np_arange_thresholds_lookup in Hi as [_ Hi]. discriminate Hi.
Qed.

Lemma C10_witness :
  @ProTCLTrainer.find_optimal_threshold Z unit unit unit Z_scalar null_torch
    sample_cfg sample_model [sample_batch] "f1_micro" = Ok (0%Q, 0%Q).
Proof.
  eapply (@C10_no_positive_score Z unit unit unit Z_scalar null_torch
            sample_cfg sample_model [sample_batch] "f1_micro").
  - discriminate.
  - vm_compute. reflexivity.
  - intros c _. cbn. discriminate.
Defined.

(** ** Empty loaders *)

Lemma bind_raise {A B} (m : result A) (f : A → result B) (e : exn) :
  bind m f = Raise e → m = Raise e ∨ ∃ a, m = Ok a ∧ f a = Raise e.
Proof. destruct m as [a|e']; cbn; [right; by exists a|]. intros [= ->]. by left. Qed.

Lemma for_fold_raise {A S} (f : S → A → result S) (s : S) (l : list A) (e : exn) :
  for_fold f s l = Raise e → ∃ s' x, x ∈ l ∧ f s' x = Raise e.
Proof.
  revert s. induction l as [|x l IH]; intros s; cbn; [done|].
  intros Hr. apply bind_raise in Hr as [Hr|(s' & _ & Hr)].
  - exists s, x. split; [left|done].
  - destruct (IH _ Hr) as (s'' & y & Hy & Hf). exists s'', y. split; [by right|done].
Qed.

(** The joint scorer never divides by zero at the default chunk count. *)
Lemma score_default_no_zero_division `{Scalar T} (environ : gmap string string)
    (self : ProTCL.t T) (P_e L_e : tensor T) :
  ProTCL.score self P_e L_e (ProTCL.default_num_chunks environ)
  ≠ Raise ZeroDivisionError.
Proof.
  unfold ProTCL.score, ProTCL._get_joint_embeddings, ProTCL.default_num_chunks,
    os_environ_get.
  destruct (environ !! "NUM_CHUNKS") as [s|]; [done|].
  rewrite chunk_size_of_int by done. cbn [bind].
  unfold py_range. case_decide; [done|]. cbn [bind].
  erewrite for_each_ok by (intros i _; apply joint_of_chunk_cross). cbn [bind].
  destruct (map _ _) as [|j js]; [done|]. cbn [torch_cat0 bind].
  destruct (sequential _ _) as [logits|e] eqn:Hseq; cbn [bind].
  - unfold reshape2. by case_decide.
  - by rewrite (sequential_raise _ _ _ Hseq).
Qed.

Lemma forward_no_zero_division `{Scalar T} {A B C : Type} (environ : gmap string string)
    (self : ProTCL.t T) (oh : option A) (se : option (tensor T)) (sl : option B)
    (tl : option C) (le : option (tensor T)) :
  ProTCL.forward environ self oh se sl tl le ≠ Raise ZeroDivisionError.
Proof.
  unfold ProTCL.forward. intros Hr.
  apply bind_raise in Hr as [Hr|(L_f & _ & Hr)].
  { destruct le; repeat case_match; done. }
  apply bind_raise in Hr as [Hr|(P_f & _ & Hr)].
  { destruct se; repeat case_match; done. }
  apply bind_raise in Hr as [Hr|(P_e & _ & Hr)].
  { apply for_each_raise_only with (e0 := RuntimeError) in Hr; [done|].
    intros x e _. apply linear_row_raise. }
  apply bind_raise in Hr as [Hr|(L_e & _ & Hr)].
  { apply for_each_raise_only with (e0 := RuntimeError) in Hr; [done|].
    intros x e _. apply linear_row_raise. }
  by apply score_default_no_zero_division in Hr.
Qed.

(** C4, as amended. With a loader that yields no batch,
    [find_optimal_threshold] fails, by the [RuntimeError] of concatenating an
    empty list of tensors and not by a guard of its own; [evaluate] has no
    guard either, and raises [ZeroDivisionError] exactly when the loader is
    empty, from dividing the accumulated loss by the number of batches. *)
Theorem C4_empty_loader {T G O Metric : Type}
    `{!Scalar T, !ProTCLTrainer.Torch T G O Metric}
    (cfg : ProTCLTrainer.config) (m : ProTCL.t T) (name : string) :
  ProTCLTrainer.find_optimal_threshold cfg m [] name = Raise RuntimeError
  ∧ ∀ (data_loader : list (ProTCLTrainer.batch T))
      (metrics : option (gmap string Metric)) (save_results : bool),
      ProTCLTrainer.evaluate cfg m data_loader metrics save_results
      = Raise ZeroDivisionError
      ↔ data_loader = [].
Proof.
  split; [done|]. intros data_loader metrics save_results. split.
  - unfold ProTCLTrainer.evaluate. intros Hr.
    apply bind_raise in Hr as [Hr|(st & _ & Hr)].
    + exfalso. apply for_fold_raise in Hr as (st & b & _ & Hr).
      unfold ProTCLTrainer.evaluate_batch in Hr.
      apply bind_raise in Hr as [Hr|(r & _ & Hr)].
      * unfold ProTCLTrainer.evaluation_step in Hr.
        apply bind_raise in Hr as [Hr|(logits & _ & Hr)]; [|done].
        by apply forward_no_zero_division in Hr.
      * by destruct r as [[[? ?] ?] ?].
    + apply bind_raise in Hr as [Hr|(avg & _ & Hr)]; [|done].
      unfold ProTCLTrainer.py_truediv in Hr. case_decide; [|done].
      destruct data_loader; [done|]. cbn in *. lia.
  - by intros ->.
Qed.

(** C4 as stated fails: on an empty loader [evaluate] lets the division by
    zero through. *)
Lemma C4_counterexample :
  @ProTCLTrainer.evaluate Z unit unit unit Z_scalar null_torch
    sample_cfg sample_model [] None false = Raise ZeroDivisionError.
Proof. reflexivity. Qed.

(** ** The training loop *)

Lemma run_loop_weighted {A S} (w : A → nat) (I : nat → S → Prop) (J : S → Prop)
    (body : S → A → result unit * S) (l : list A) (n : nat) (s : S) :
  (∀ n s x, I n s →
            match body s x with
            | (Ok _, s') => I (n + w x)%nat s'
            | (Raise _, s') => J s'
            end) →
  I n s →
  match PT.run_loop body s l with
  | (Ok _, s') => I (n + sum_list (map w l))%nat s'
  | (Raise _, s') => J s'
  end.
Proof.
  intros Hbody. revert n s. induction l as [|x l IH]; intros n s HI; cbn.
  - by rewrite Nat.add_0_r.
  - specialize (Hbody n s x HI). destruct (body s x) as [[u|e] s1]; [|done].
    specialize (IH _ _ Hbody).
    destruct (PT.run_loop body s1 l) as [[u'|e] s2]; [|done].
    by rewrite Nat.add_assoc.
Qed.

Lemma run_loop_inv {A S} (K : S → Prop) (body : S → A → result unit * S)
    (l : list A) (s : S) :
  (∀ s x, K s → K (body s x).2) → K s → K (PT.run_loop body s l).2.
Proof.
  intros Hbody. revert s. induction l as [|x l IH]; intros s HK; cbn; [done|].
  specialize (Hbody s x HK). destruct (body s x) as [[u|e] s1]; cbn in *; [|done].
  by apply IH.
Qed.

Lemma optimizer_events_app {T} (tr1 tr2 : list (PT.event T)) :
  optimizer_events (tr1 ++ tr2) = optimizer_events tr1 ++ optimizer_events tr2.
Proof. unfold optimizer_events. apply bind_app. Qed.

Lemma optimizer_steps_app {T} (tr1 tr2 : list (PT.event T)) :
  optimizer_steps (tr1 ++ tr2) = optimizer_steps tr1 ++ optimizer_steps tr2.
Proof. unfold optimizer_steps. apply omap_app. Qed.

Lemma optimizer_steps_events {T} (tr : list (PT.event T)) :
  optimizer_steps (optimizer_events tr) = optimizer_steps tr.
Proof.
  induction tr as [|e tr IH]; [done|].
  change (e :: tr) with ([e] ++ tr).
  rewrite optimizer_events_app, !optimizer_steps_app, IH.
  by destruct e.
Qed.

Lemma spec_accumulation_S {T} (k : Z) (n : nat) :
  @spec_accumulation T k (S n)
  = spec_accumulation k n ++ accumulation_step k (Z.of_nat (S n)).
Proof.
  unfold spec_accumulation. rewrite seq_S, map_app, concat_app. cbn.
  by rewrite app_nil_r.
Qed.

Lemma optimizer_events_accumulation_step {T} (k c : Z) :
  optimizer_events (@accumulation_step T k c) = accumulation_step k c.
Proof. unfold accumulation_step. by case_decide. Qed.

(** The steps of an accumulation over [n] micro-batches: the multiples of
    [k] up to [n], as many as [n / k]. *)
Lemma optimizer_steps_accumulation {T} (k : Z) (n : nat) :
  1 ≤ k →
  Z.of_nat (length (optimizer_steps (@spec_accumulation T k n))) = Z.of_nat n / k
  ∧ ∀ c, c ∈ optimizer_steps (@spec_accumulation T k n)
         ↔ 1 ≤ c ≤ Z.of_nat n ∧ c `mod` k = 0.
Proof.
  intros Hk. induction n as [|n [IHlen IHin]].
  - split; [by rewrite Z.div_0_l by lia|].
    intros c. cbn. rewrite elem_of_nil. lia.
  - rewrite spec_accumulation_S, optimizer_steps_app.
    pose proof (Z.div_mod (Z.of_nat n) k ltac:(lia)) as Hdm.
    pose proof (Z.mod_pos_bound (Z.of_nat n) k ltac:(lia)) as Hb.
    unfold accumulation_step. case_decide as Hmod; cbn -[Z.of_nat Z.div Z.modulo spec_accumulation].
    + assert (Z.of_nat (S n) / k = Z.of_nat n / k + 1) as Hq.
      { symmetry. apply (Z.div_unique _ _ _ 0); [lia|].
        pose proof (Z.div_mod (Z.of_nat (S n)) k ltac:(lia)) as Hdm'.
        rewrite Hmod in Hdm'. 
        assert (k * (Z.of_nat (S n) / k) = k * (Z.of_nat n / k + 1)) as Heq; [|lia].
        assert (Z.of_nat n `mod` k = k - 1); [|lia].
        assert (k * (Z.of_nat (S n) / k - Z.of_nat n / k) = Z.of_nat n `mod` k + 1) by lia.
        assert (0 < Z.of_nat (S n) / k - Z.of_nat n / k) by nia.
        assert (Z.of_nat (S n) / k - Z.of_nat n / k < 2) by nia.
        nia. }
      split.
      * rewrite length_app. cbn. lia.
      * intros c. rewrite elem_of_app, IHin, list_elem_of_singleton.
        split; [intros [?| ->]; lia|].
        intros [Hc Hc']. destruct (decide (c = Z.of_nat (S n))); [by right|left; lia].
    + assert (Z.of_nat (S n) / k = Z.of_nat n / k) as Hq.
      { symmetry. apply (Z.div_unique _ _ _ (Z.of_nat n `mod` k + 1)); [|lia].
        assert (Z.of_nat n `mod` k + 1 ≠ k); [|lia].
        intros Heq. apply Hmod.
        replace (Z.of_nat (S n)) with (0 + (Z.of_nat n / k + 1) * k) by lia.
        by rewrite Z.mod_add by lia. }
      split.
      * rewrite length_app. cbn. lia.
      * intros c. rewrite app_nil_r, IHin.
        split; [lia|]. intros [Hc Hc'].
        destruct (decide (c = Z.of_nat (S n))) as [->|]; [done|lia].
Qed.

Section TrainProofs.
Context {T G O Metric : Type} `{!Scalar T, !PT.Torch T G O Metric}.
Implicit Types (s : PT.state T G O) (l : @PT.train_loop T G O Metric).

Lemma validate_effect_spec (cfg : PT.config) s (val_loader : list (PT.batch T))
    (metric : Metric) (name : string) :
  validate_effect s (PT.validate cfg s val_loader metric name).1.2.
Proof.
  unfold PT.validate.
  destruct (PT.evaluate _ _ _ _ _) as [[[val_metrics res] metrics]|e]; cbn.
  2:{ repeat split. by left. }
  destruct (val_metrics !! name) as [value|]; cbn.
  2:{ repeat split. by left. }
  destruct (PT.py_gt value (PT.best_val_metric s)) eqn:Hgt; cbn.
  - apply py_gt_lt in Hgt. repeat split. right; right. exists value.
    repeat split; [done|]. by rewrite <- app_assoc.
  - apply py_gt_le in Hgt. repeat split. right; left. by exists value.
Qed.

Lemma validate_effect_optimizer_events s s' :
  validate_effect s s' → optimizer_events (PT.trace s') = optimizer_events (PT.trace s).
Proof.
  intros (_ & _ & _ & [(-> & _)|[(v & _ & -> & _)|(v & _ & -> & _)]]); [done|..];
    rewrite optimizer_events_app; cbn; by rewrite app_nil_r.
Qed.

Lemma train_batch_accumulated (cfg : PT.config) (len : Z) (val_loader : list (PT.batch T))
    (name : string) (n : nat) l (b : PT.batch T) :
  1 ≤ PT.gradient_accumulation_steps cfg →
  accumulated (PT.gradient_accumulation_steps cfg) n l →
  match PT.train_batch cfg len val_loader name l b with
  | (Ok _, l') => accumulated (PT.gradient_accumulation_steps cfg) (n + 1) l'
  | (Raise _, l') => accumulated_upto (PT.gradient_accumulation_steps cfg) l'
  end.
Proof.
  intros Hk [Hbc Hev]. unfold PT.train_batch.
  set (k := PT.gradient_accumulation_steps cfg) in *.
  destruct (ProTCL.forward _ _ _ _ _ _ _) as [logits|e]; [|by exists n].
  rewrite decide_False by lia.
  set (bc := PT.batch_count l + 1).
  assert (bc = Z.of_nat (n + 1)) as Hbc' by (unfold bc; lia).
  set (s2 := {| PT.model := _; PT.trace := PT.trace (PT.self l) ++ [PT.EvBackward bc] |}).
  set (s3 := if decide (bc `mod` k = 0) then _ else s2).
  assert (optimizer_events (PT.trace s3) = spec_accumulation k (n + 1)) as Hs3.
  { rewrite Nat.add_1_r, spec_accumulation_S, <- Hev. unfold accumulation_step.
    rewrite <- Nat.add_1_r, <- Hbc'. unfold s3.
    case_decide.
    - destruct (PT.optimizer_step _ _ _) as [o m']. unfold s2. cbn [PT.trace].
      rewrite !optimizer_events_app. cbn. by rewrite <- app_assoc.
    - unfold s2. cbn [PT.trace]. by rewrite optimizer_events_app. }
  clearbody s3.
  case_decide; [done|]. case_decide; [by exists (n + 1)%nat|].
  case_decide; [by exists (n + 1)%nat|].
  case_decide; [|done].
  pose proof (validate_effect_spec cfg s3 val_loader (PT.metric_object l) name) as Hv.
  apply validate_effect_optimizer_events in Hv.
  destruct (PT.validate _ _ _ _ _) as [[r s4] metric']. cbn in Hv.
  destruct r as [vm|e]; cbn.
  - split; [done|]. cbn. by rewrite Hv.
  - exists (n + 1)%nat. cbn. by rewrite Hv.
Qed.

Lemma train_epochs_accumulated (cfg : PT.config) (train_loader : @PT.DataLoader T)
    (val_loader : list (PT.batch T)) (name : string) l :
  1 ≤ PT.gradient_accumulation_steps cfg →
  accumulated (PT.gradient_accumulation_steps cfg) 0 l →
  match PT.train_epochs cfg train_loader val_loader name l with
  | (Ok _, l') =>
      accumulated (PT.gradient_accumulation_steps cfg)
        (total_batches train_loader (PT.num_epochs cfg)) l'
  | (Raise _, l') => accumulated_upto (PT.gradient_accumulation_steps cfg) l'
  end.
Proof.
  intros Hk Hacc. unfold PT.train_epochs, total_batches.
  apply (run_loop_weighted (λ epoch, length (PT.batches train_loader epoch))
           (accumulated (PT.gradient_accumulation_steps cfg))
           (accumulated_upto (PT.gradient_accumulation_steps cfg)) _ _ 0%nat);
    [|done].
  intros n l0 epoch Hl0.
  pose proof (run_loop_weighted (λ _, 1%nat)
                (accumulated (PT.gradient_accumulation_steps cfg))
                (accumulated_upto (PT.gradient_accumulation_steps cfg))
                (PT.train_batch cfg (Z.of_nat (PT.loader_len train_loader)) val_loader name)
                (PT.batches train_loader epoch) n l0) as Hinner.
  replace (sum_list (map (λ _, 1%nat) (PT.batches train_loader epoch)))
    with (length (PT.batches train_loader epoch)) in Hinner.
  - apply Hinner; [|done]. intros n' l' b Hl'. by apply train_batch_accumulated.
  - clear. induction (PT.batches train_loader epoch) as [|b bs IH]; [done|].
    cbn. by rewrite IH.
Qed.

End TrainProofs.

Section CheckpointProofs.
Context {T G O Metric : Type} `{!Scalar T, !PT.Torch T G O Metric}.
Implicit Types (s : PT.state T G O) (l : @PT.train_loop T G O Metric).

Lemma last_save_not_save (tr evs : list (PT.event T)) :
  Forall not_save evs → last_save (tr ++ evs) = last_save tr.
Proof.
  intros Hn. unfold last_save. rewrite omap_app.
  replace (omap _ evs) with (@nil (Q * PT.state_dict T)); [by rewrite app_nil_r|].
  induction Hn as [|e evs He _ IH]; [done|]. cbn. by destruct e.
Qed.

Lemma last_save_neutral (tr evs : list (PT.event T)) :
  Forall neutral evs → last_save (tr ++ evs) = last_save tr.
Proof.
  intros Hn. apply last_save_not_save.
  eapply Forall_impl; [exact Hn|]. by intros [].
Qed.

Lemma checkpoint_consistent_neutral s0 s s' (evs : list (PT.event T)) :
  checkpoint_consistent s0 s →
  PT.best_val_metric s' = PT.best_val_metric s →
  PT.model_path s' = PT.model_path s →
  PT.trace s' = PT.trace s ++ evs →
  Forall neutral evs →
  checkpoint_consistent s0 s'.
Proof.
  intros (Hval & Hbest & Hlast) Hb Hp Ht Hn. unfold checkpoint_consistent.
  rewrite Hb, Hp, Ht, last_save_neutral by done.
  split; [|done]. intros v Hv. apply elem_of_app in Hv as [Hv|Hv]; [by apply Hval|].
  rewrite Forall_forall in Hn. by apply Hn in Hv.
Qed.

Lemma checkpoint_consistent_validate s0 s s' :
  checkpoint_consistent s0 s → validate_effect s s' → checkpoint_consistent s0 s'.
Proof.
  intros (Hval & Hbest & Hlast) (_ & _ & _ & Heff). unfold checkpoint_consistent.
  destruct Heff as [(Ht & Hb & Hp)|[(v & Hv & Ht & Hb & Hp)|(v & Hv & Ht & Hb & Hp)]];
    rewrite Ht, Hb, Hp.
  - done.
  - split; [|split; [done|]].
    + intros v' Hv'. apply elem_of_app in Hv' as [Hv'|Hv']; [by apply Hval|].
      apply list_elem_of_singleton in Hv'. by injection Hv' as ->.
    + by rewrite (last_save_not_save _ [PT.EvValidate v]) by (by repeat constructor).
  - split; [|split].
    + intros v' Hv'. apply elem_of_app in Hv' as [Hv'|Hv'].
      * apply Qlt_le_weak. eapply Qle_lt_trans; [by apply Hval|done].
      * apply elem_of_cons in Hv' as [Hv'|Hv'].
        -- injection Hv' as ->. apply Qle_refl.
        -- by apply list_elem_of_singleton in Hv'.
    + apply Qlt_le_weak. by eapply Qle_lt_trans.
    + unfold last_save. rewrite omap_app. cbn. by rewrite last_snoc.
Qed.

Lemma train_batch_checkpoint (cfg : PT.config) (len : Z) (val_loader : list (PT.batch T))
    (name : string) s0 l (b : PT.batch T) :
  checkpoint_consistent s0 (PT.self l) →
  checkpoint_consistent s0 (PT.self (PT.train_batch cfg len val_loader name l b).2).
Proof.
  intros HK. unfold PT.train_batch.
  destruct (ProTCL.forward _ _ _ _ _ _ _) as [logits|e]; [|done].
  set (bc := PT.batch_count l + 1).
  set (s2 := {| PT.model := _; PT.trace := PT.trace (PT.self l) ++ [PT.EvBackward bc] |}).
  assert (checkpoint_consistent s0 s2) as HK2.
  { apply (checkpoint_consistent_neutral s0 (PT.self l) s2 [PT.EvBackward bc]);
      try done. by repeat constructor. }
  case_decide; [done|].
  set (s3 := if decide (bc `mod` _ = 0) then _ else s2).
  assert (checkpoint_consistent s0 s3) as HK3.
  { unfold s3. case_decide; [|done].
    destruct (PT.optimizer_step _ _ _) as [o m'].
    eapply (checkpoint_consistent_neutral s0 s2 _
              [PT.EvOptimizerStep bc; PT.EvZeroGrad bc]); try done.
    by repeat constructor. }
  clearbody s3. clear HK2.
  repeat (case_decide; [done|]). case_decide; [|done].
  pose proof (validate_effect_spec cfg s3 val_loader (PT.metric_object l) name) as Hv.
  destruct (PT.validate _ _ _ _ _) as [[r s4] metric']. cbn in Hv.
  pose proof (checkpoint_consistent_validate s0 s3 s4 HK3 Hv).
  by destruct r.
Qed.

Lemma train_epochs_checkpoint (cfg : PT.config) (train_loader : @PT.DataLoader T)
    (val_loader : list (PT.batch T)) (name : string) s0 l :
  checkpoint_consistent s0 (PT.self l) →
  checkpoint_consistent s0
    (PT.self (PT.train_epochs cfg train_loader val_loader name l).2).
Proof.
  intros HK. unfold PT.train_epochs.
  apply (run_loop_inv (λ l, checkpoint_consistent s0 (PT.self l))); [|done].
  intros l0 epoch Hl0.
  apply (run_loop_inv (λ l, checkpoint_consistent s0 (PT.self l))); [|done].
  intros l1 b Hl1. by apply train_batch_checkpoint.
Qed.

End CheckpointProofs.

(** C7. With [gradient_accumulation_steps = k >= 1], a training run that
    has backpropagated [N] micro-batches has made exactly the gradient calls
    of accumulation over [k] micro-batches: [optimizer.step()], followed by
    [optimizer.zero_grad()], at the micro-batches whose cumulative count is a
    multiple of [k] and at no other, [N / k] times in all (the remainder of
    [N] by [k] gets no step); when the run completes, [N] is the number of
    micro-batches of all the epochs. *)
Theorem C7_gradient_accumulation {T G O Metric : Type}
    `{!Scalar T, !PT.Torch T G O Metric}
    (cfg : PT.config) (s0 : PT.state T G O) (train_loader : @PT.DataLoader T)
    (val_loader : list (PT.batch T)) (metric : Metric) (name : string) :
  1 ≤ PT.gradient_accumulation_steps cfg →
  PT.trace s0 = [] →
  let k := PT.gradient_accumulation_steps cfg in
  let out := PT.train cfg s0 train_loader val_loader metric name in
  let tr := PT.trace out.1.2 in
  ∃ N : nat,
    optimizer_events tr = spec_accumulation k N
    ∧ Z.of_nat (length (optimizer_steps tr)) = Z.of_nat N / k
    ∧ (∀ c, c ∈ optimizer_steps tr ↔ 1 ≤ c ≤ Z.of_nat N ∧ c `mod` k = 0)
    ∧ (out.1.1 = Ok () → N = total_batches train_loader (PT.num_epochs cfg)).
Proof.
  intros Hk Htr k out tr.
  assert (∃ N : nat, optimizer_events tr = spec_accumulation k N
            ∧ (out.1.1 = Ok () → N = total_batches train_loader (PT.num_epochs cfg)))
    as (N & Hev & Htot).
  { unfold tr, out, PT.train.
    pose proof (train_epochs_accumulated cfg train_loader val_loader name
                  {| PT.self := s0; PT.metric_object := metric; PT.batch_count := 0 |}
                  Hk) as Hloop.
    destruct (PT.train_epochs _ _ _ _ _) as [[u|e] l'].
    - destruct Hloop as [_ Hev]; [split; [done|by cbn; rewrite Htr]|].
      exists (total_batches train_loader (PT.num_epochs cfg)). split; [|done].
      destruct (PT.model_path (PT.self l')) as [sd|]; cbn [fst snd PT.trace]; [|done].
      rewrite optimizer_events_app, Hev. cbn. by rewrite app_nil_r.
    - destruct Hloop as [N Hev]; [split; [done|by cbn; rewrite Htr]|].
      exists N. split; [exact Hev|done]. }
  exists N. split; [done|].
  rewrite <- (optimizer_steps_events tr), Hev.
  destruct (optimizer_steps_accumulation (T:=T) k N Hk) as [Hlen Hin].
  split; [done|]. split; [done|]. done.
Qed.

(** C8. In every validation the model is written to the checkpoint file, and
    the recorded best set to the validated value, exactly when that value is
    strictly greater than the best recorded so far; an equal or lower value
    leaves file and best as they were. Through a whole training run the file
    and the best stay those of the last save, no validated value exceeding the
    best; and when [train] returns, the model's parameters are those of the
    checkpoint file, loaded as its last action. *)
Theorem C8_best_checkpoint {T G O Metric : Type}
    `{!Scalar T, !PT.Torch T G O Metric}
    (cfg : PT.config) (val_loader : list (PT.batch T)) (metric : Metric) (name : string) :
  (∀ s : PT.state T G O,
     let out := PT.validate cfg s val_loader metric name in
     let s' := out.1.2 in
     match out.1.1 with
     | Ok val_metrics =>
         ∃ v, val_metrics !! name = Some v
           ∧ PT.model s' = PT.model s
           ∧ ((PT.best_val_metric s < v)%Q →
              PT.best_val_metric s' = v
              ∧ PT.model_path s' = Some (PT.get_state_dict (PT.model s)))
           ∧ ((v <= PT.best_val_metric s)%Q →
              PT.best_val_metric s' = PT.best_val_metric s
              ∧ PT.model_path s' = PT.model_path s)
     | Raise _ => s' = s
     end)
  ∧ (∀ (s0 : PT.state T G O) (train_loader : @PT.DataLoader T),
       PT.trace s0 = [] →
       let out := PT.train cfg s0 train_loader val_loader metric name in
       let s' := out.1.2 in
       checkpoint_consistent s0 s'
       ∧ match out.1.1 with
         | Ok _ => ∃ sd, PT.model_path s' = Some sd
                         ∧ PT.get_state_dict (PT.model s') = sd
                         ∧ last (PT.trace s') = Some (PT.EvLoad sd)
         | Raise _ => True
         end).
Proof.
  split.
  - intros s. unfold PT.validate.
    destruct (PT.evaluate _ _ _ _ _) as [[[val_metrics res] metrics]|e]; cbn; [|done].
    destruct (val_metrics !! name) as [value|] eqn:Hval; cbn; [|done].
    destruct (PT.py_gt value (PT.best_val_metric s)) eqn:Hgt; cbn.
    + apply py_gt_lt in Hgt. exists value. split; [done|]. split; [done|].
      split; [done|]. intros Hle. by apply Qlt_not_le in Hgt.
    + apply py_gt_le in Hgt. exists value. split; [done|]. split; [done|].
      split; [|done]. intros Hlt. by apply Qlt_not_le in Hlt.
  - intros s0 train_loader Htr out s'.
    assert (checkpoint_consistent s0 s0) as HK0.
    { unfold checkpoint_consistent. rewrite Htr. split; [|split; [apply Qle_refl|done]].
      intros v Hv. by apply elem_of_nil in Hv. }
    unfold s', out, PT.train.
    pose proof (train_epochs_checkpoint cfg train_loader val_loader name s0
                  {| PT.self := s0; PT.metric_object := metric; PT.batch_count := 0 |}
                  HK0) as HK.
    destruct (PT.train_epochs _ _ _ _ _) as [[u|e] l']; cbn in HK; [|done].
    destruct (PT.model_path (PT.self l')) as [sd|] eqn:Hsd; cbn; [|done].
    split.
    + eapply (checkpoint_consistent_neutral s0 (PT.self l') _ [PT.EvLoad sd]); try done.
      by repeat constructor.
    + exists sd. split; [done|]. split; [by destruct sd|]. by rewrite last_snoc.
Qed.

Lemma C7_witness :
  ∃ N : nat,
    optimizer_events
      (PT.trace (@PT.train Z unit unit Q Z_scalar peak_torch sample_cfg sample_state
                   sample_loader [sample_batch] (1 # 4)%Q "f1_micro").1.2)
    = spec_accumulation 2 N.
Proof.
  destruct (@C7_gradient_accumulation Z unit unit Q Z_scalar peak_torch sample_cfg
              sample_state sample_loader [sample_batch] (1 # 4)%Q "f1_micro"
              ltac:(cbn; lia) eq_refl) as (N & Hev & _).
  exists N. exact Hev.
Defined.

Lemma C8_witness :
  checkpoint_consistent sample_state
    (@PT.train Z unit unit Q Z_scalar peak_torch sample_cfg sample_state
       sample_loader [sample_batch] (1 # 4)%Q "f1_micro").1.2.
Proof.
  exact (proj1 (proj2 (@C8_best_checkpoint Z unit unit Q Z_scalar peak_torch sample_cfg
                         [sample_batch] (1 # 4)%Q "f1_micro")
                  sample_state sample_loader eq_refl)).
Defined.

(** * Further properties of the code *)

(** ** src/models/ProTCL.py *)

(** X1. [forward] fails loudly: without precomputed label embeddings, or
    without precomputed sequence embeddings, or when either encoder is to be
    trained, it raises [ValueError], whatever the other arguments and the
    environment. *)
Theorem forward_requires_frozen_embeddings `{Scalar T} {A B C : Type}
    (environ : gmap string string) (self : ProTCL.t T)
    (sequence_onehots : option A) (sequence_embeddings : option (tensor T))
    (sequence_lengths : option B) (tokenized_labels : option C)
    (label_embeddings : option (tensor T)) :
  label_embeddings = None ∨ ProTCL.train_label_encoder self = true
  ∨ sequence_embeddings = None ∨ ProTCL.train_sequence_encoder self = true →
  ProTCL.forward environ self sequence_onehots sequence_embeddings sequence_lengths
    tokenized_labels label_embeddings
  = Raise ValueError.
Proof.
  intros Hbad. unfold ProTCL.forward.
  destruct label_embeddings as [le|], (ProTCL.train_label_encoder self) eqn:Htl;
    cbn; try (by case_match).
  destruct sequence_embeddings as [se|], (ProTCL.train_sequence_encoder self) eqn:Hts;
    cbn; try (by case_match).
  by destruct Hbad as [?|[?|[?|?]]].
Qed.

Lemma forward_requires_frozen_embeddings_witness :
  @ProTCL.forward Z Z_scalar unit unit unit ∅ sample_model
    (Some ()) None (Some ()) None (Some [[1; 1]])
  = Raise ValueError.
Proof.
  apply forward_requires_frozen_embeddings. right; right; left. reflexivity.
Defined.

(** With both embeddings given and both encoders frozen, [forward] is the two
    projections followed by the scorer. *)
Lemma forward_frozen `{Scalar T} {A B C : Type} (environ : gmap string string)
    (self : ProTCL.t T) (oh : option A) (sl : option B) (tl : option C)
    (P_f L_f : tensor T) :
  ProTCL.train_label_encoder self = false →
  ProTCL.train_sequence_encoder self = false →
  ProTCL.forward environ self oh (Some P_f) sl tl (Some L_f)
  = (P_e <- for_each (linear_row (ProTCL.W_p self)) P_f ;;
     L_e <- for_each (linear_row (ProTCL.W_l self)) L_f ;;
     ProTCL.score self P_e L_e (ProTCL.default_num_chunks environ)).
Proof. intros Htl Hts. unfold ProTCL.forward. by rewrite Htl, Hts. Qed.

(** X2. With both embeddings precomputed, both encoders frozen, [NUM_CHUNKS]
    unset and non-empty batches, [forward] of a freshly constructed model
    depends on the widths of the embeddings.  When every sequence embedding
    has [protein_embedding_dim] entries and every label embedding
    [label_embedding_dim], both projections succeed, with rows of width
    [latent_dim], and [forward] returns the [n_a] by [n_b] matrix whose entry
    (i, j) is the head's scalar for the projection of sequence i joined to
    the projection of label j.  When an embedding has another width, its
    projection refuses it and [forward] raises [RuntimeError]. *)
Theorem forward_scores_projected_pairs `{Scalar T, Init T} {A B C : Type}
    (environ : gmap string string)
    (protein_embedding_dim label_embedding_dim latent_dim output_dim : nat)
    (output_num_layers : Z) (output_neuron_bias : option T)
    (sequence_onehots : option A) (sequence_lengths : option B)
    (tokenized_labels : option C) (P_f L_f : tensor T) :
  environ !! "NUM_CHUNKS" = None → P_f ≠ [] → L_f ≠ [] →
  let self := ProTCL.init protein_embedding_dim label_embedding_dim latent_dim
                false false output_dim output_num_layers output_neuron_bias in
  (width protein_embedding_dim P_f → width label_embedding_dim L_f →
   ∃ (s : list T → T) (P_e L_e : tensor T),
     for_each (linear_row (ProTCL.W_p self)) P_f = Ok P_e
     ∧ for_each (linear_row (ProTCL.W_l self)) L_f = Ok L_e
     ∧ length P_e = length P_f ∧ length L_e = length L_f
     ∧ width latent_dim P_e ∧ width latent_dim L_e
     ∧ (∀ x, length x = (latent_dim * 2)%nat →
             sequential_row (ProTCL.output_layer self) x = Ok [s x])
     ∧ ProTCL.forward environ self sequence_onehots (Some P_f) sequence_lengths
         tokenized_labels (Some L_f)
       = Ok (map (λ p, map (λ l, s (p ++ l)) L_e) P_e))
  ∧ (¬ (width protein_embedding_dim P_f ∧ width label_embedding_dim L_f) →
     ProTCL.forward environ self sequence_onehots (Some P_f) sequence_lengths
       tokenized_labels (Some L_f)
     = Raise RuntimeError).
Proof.
  intros Henv HP HL self.
  assert (Linear_wf (ProTCL.W_p self) ∧ in_features (ProTCL.W_p self) = protein_embedding_dim
          ∧ length (weight (ProTCL.W_p self)) = latent_dim) as (HwfP & HinP & HoutP).
  { split; [apply nn_Linear_wf|]. split; [done|]. cbn. by rewrite length_fmap, length_seq. }
  assert (Linear_wf (ProTCL.W_l self) ∧ in_features (ProTCL.W_l self) = label_embedding_dim
          ∧ length (weight (ProTCL.W_l self)) = latent_dim) as (HwfL & HinL & HoutL).
  { split; [apply nn_Linear_wf|]. split; [done|]. cbn. by rewrite length_fmap, length_seq. }
  rewrite forward_frozen by done.
  unfold ProTCL.default_num_chunks, os_environ_get. rewrite Henv.
  split.
  - intros HwP HwL.
    destruct (get_mlp_one_output 2 (latent_dim * 2) output_dim output_num_layers
                output_neuron_bias) as (s & Hs & _).
    destruct (linear_batch_fits (ProTCL.W_p self) P_f) as (P_e & HPe & HlenP & HwPe);
      [done|by rewrite HinP|].
    destruct (linear_batch_fits (ProTCL.W_l self) L_f) as (L_e & HLe & HlenL & HwLe);
      [done|by rewrite HinL|].
    rewrite HoutP in HwPe. rewrite HoutL in HwLe.
    exists s, P_e, L_e. do 6 (split; [done|]). split; [exact Hs|].
    rewrite HPe, HLe. cbn [bind].
    apply (score_head_ok self s (latent_dim * 2)); [lia| |exact Hs|].
    + intros ->. by destruct P_f.
    + intros p l. by apply width_pairs.
  - intros Hbad.
    destruct (decide (width protein_embedding_dim P_f)) as [HwP|HwP].
    + destruct (linear_batch_fits (ProTCL.W_p self) P_f) as (P_e & -> & _);
        [done|by rewrite HinP|].
      cbn [bind]. rewrite linear_batch_misfit; [done|].
      rewrite HinL. intros HwL. by apply Hbad.
    + rewrite linear_batch_misfit; [done|]. by rewrite HinP.
Qed.

Lemma forward_scores_projected_pairs_witness :
  (∃ logits,
     @ProTCL.forward Z Z_scalar unit unit unit ∅ sample_model
       None (Some [[1; 2]; [3; 4]]) None None (Some [[1; 1]; [2; 2]])
     = Ok logits)
  ∧ @ProTCL.forward Z Z_scalar unit unit unit ∅ sample_model
      None (Some [[1; 2; 3; 4; 5]]) None None (Some [[1; 1]; [2; 2]])
    = Raise RuntimeError.
Proof.
  split.
  - destruct (@forward_scores_projected_pairs Z Z_scalar Z_init unit unit unit ∅
                2 2 2 3 2 None None None None [[1; 2]; [3; 4]] [[1; 1]; [2; 2]]
                (lookup_empty _) ltac:(discriminate) ltac:(discriminate))
      as [Hok _].
    destruct Hok as (s & P_e & L_e & _ & _ & _ & _ & _ & _ & _ & Heq);
      [repeat constructor..|].
    eexists. exact Heq.
  - apply (@forward_scores_projected_pairs Z Z_scalar Z_init unit unit unit ∅
             2 2 2 3 2 None None None None [[1; 2; 3; 4; 5]] [[1; 1]; [2; 2]]
             (lookup_empty _) ltac:(discriminate) ltac:(discriminate)).
    intros [Hw _]. apply Forall_cons in Hw as [Hw _]. discriminate Hw.
Defined.

Lemma lookup_spec_cross_product {T} (P L : tensor T) (i j : nat) (p l : list T) :
  P !! i = Some p → L !! j = Some l →
  spec_cross_product P L !! (i * length L + j)%nat = Some (p ++ l).
Proof.
  unfold spec_cross_product. revert i. induction P as [|p0 P IH]; intros i Hp Hl; [done|].
  cbn [map concat]. destruct i as [|i]; cbn in Hp.
  - injection Hp as ->. rewrite lookup_app_l.
    + apply list_lookup_fmap_Some. by exists l.
    + rewrite length_map. by apply lookup_lt_Some in Hl.
  - rewrite lookup_app_r by (rewrite length_map; lia).
    rewrite length_map.
    replace (S i * length L + j - length L)%nat with (i * length L + j)%nat by lia.
    by apply IH.
Qed.

(** X3. For an integer chunk count [k >= 1] and a non-empty [P_e], the joint
    embeddings have [n_a * n_b] rows, row [i * n_b + j] being [P_e[i]]
    followed by [L_e[j]], and the sizes returned are [n_a] and [n_b]. *)
Theorem get_joint_embeddings_row_index {T} (P_e L_e : tensor T) (k : Z) :
  1 ≤ k → P_e ≠ [] →
  ∃ joint,
    ProTCL._get_joint_embeddings P_e L_e (PyInt k)
    = Ok (joint, length P_e, length L_e)
    ∧ length joint = (length P_e * length L_e)%nat
    ∧ ∀ (i j : nat) p l,
        P_e !! i = Some p → L_e !! j = Some l →
        joint !! (i * length L_e + j)%nat = Some (p ++ l).
Proof.
  intros Hk HP. exists (spec_cross_product P_e L_e).
  split; [by apply get_joint_embeddings_int|].
  split; [apply length_spec_cross_product|].
  intros i j p l. apply lookup_spec_cross_product.
Qed.

Lemma get_joint_embeddings_row_index_witness :
  ∃ joint,
    ProTCL._get_joint_embeddings [[1]; [2]; [3]] [[7]; [8]] (PyInt 2)
    = Ok (joint, 3%nat, 2%nat)
    ∧ joint !! 3%nat = Some [2; 8].
Proof.
  destruct (get_joint_embeddings_row_index [[1]; [2]; [3]] [[7]; [8]] 2
              ltac:(lia) ltac:(discriminate)) as (joint & Heq & _ & Hrow).
  exists joint. split; [exact Heq|].
  exact (Hrow 1%nat 1%nat [2] [8] eq_refl eq_refl).
Defined.

(** X4. Degenerate chunkings. With no entity-A row and an integer chunk count
    [k >= 1] the chunk size is 0 and the loop's [range] raises [ValueError];
    with a chunk count of 0 the chunk size computation raises
    [ZeroDivisionError] on every input. *)
Theorem get_joint_embeddings_degenerate {T} (P_e L_e : tensor T) (k : Z) :
  1 ≤ k →
  ProTCL._get_joint_embeddings [] L_e (PyInt k) = Raise ValueError
  ∧ ProTCL._get_joint_embeddings P_e L_e (PyInt 0) = Raise ZeroDivisionError.
Proof.
  intros Hk. split; [|done].
  unfold ProTCL._get_joint_embeddings. rewrite chunk_size_of_int by lia.
  cbn [bind length]. replace ((Z.of_nat 0 + k - 1) / k) with 0; [done|].
  symmetry. apply Z.div_small. lia.
Qed.

Lemma get_joint_embeddings_degenerate_witness :
  ProTCL._get_joint_embeddings [] [[7]; [8]] (PyInt 15) = Raise ValueError
  ∧ ProTCL._get_joint_embeddings [[1]] [[7]; [8]] (PyInt 0) = Raise ZeroDivisionError.
Proof.
  exact (get_joint_embeddings_degenerate [[1]] [[7]; [8]] 15 ltac:(lia)).
Defined.

Lemma P_e_chunks_sizes {T} (P_e : tensor T) (k : Z) :
  1 ≤ k → P_e ≠ [] →
  ∃ chunks,
    ProTCL.P_e_chunks P_e (PyInt k) = Ok chunks
    ∧ ∀ c, c ∈ chunks →
           Z.of_nat (length c) ≤ (Z.of_nat (length P_e) + k - 1) / k.
Proof.
  intros Hk HP. eexists. split; [by apply P_e_chunks_int|].
  intros c Hc. apply list_elem_of_fmap in Hc as (j & -> & _).
  rewrite length_take.
  destruct (ceil_div_covers (Z.of_nat (length P_e)) k) as [Hcs _]; [lia| |lia].
  destruct P_e; [done|cbn; lia].
Qed.

(** X6. What chunking is for: with an integer chunk count [k >= 1], every
    pass of the loop expands its chunk to exactly [rows of the chunk * n_b]
    joint rows, never more than [ceil(n_a / k) * n_b]. *)
Theorem chunk_expansion_bounded {T} (P_e L_e : tensor T) (k : Z) :
  1 ≤ k → P_e ≠ [] →
  ∃ chunks,
    ProTCL.P_e_chunks P_e (PyInt k) = Ok chunks
    ∧ ∀ c, c ∈ chunks →
        ∃ joint, ProTCL.joint_of_chunk c L_e = Ok joint
          ∧ length joint = (length c * length L_e)%nat
          ∧ Z.of_nat (length joint)
            ≤ (Z.of_nat (length P_e) + k - 1) / k * Z.of_nat (length L_e).
Proof.
  intros Hk HP.
  destruct (P_e_chunks_sizes P_e k Hk HP) as (chunks & Hc & Hsize).
  exists chunks. split; [done|]. intros c Hin.
  exists (spec_cross_product c L_e). split; [apply joint_of_chunk_cross|].
  rewrite length_spec_cross_product. split; [done|].
  specialize (Hsize c Hin). nia.
Qed.

Lemma chunk_expansion_bounded_witness :
  ∃ chunks,
    ProTCL.P_e_chunks [[1]; [2]; [3]; [4]; [5]] (PyInt 2) = Ok chunks
    ∧ ∀ c, c ∈ chunks →
        ∃ joint, ProTCL.joint_of_chunk c [[7]; [8]] = Ok joint
          ∧ Z.of_nat (length joint) ≤ 6.
Proof.
  destruct (chunk_expansion_bounded [[1]; [2]; [3]; [4]; [5]] [[7]; [8]] 2
              ltac:(lia) ltac:(discriminate)) as (chunks & Hc & Hb).
  exists chunks. split; [exact Hc|]. intros c Hin.
  destruct (Hb c Hin) as (joint & Hj & _ & Hle).
  exists joint. split; [exact Hj | exact Hle].
Defined.

(** X5. The head [get_mlp] builds is [max(1, num_layers)] pairs of a linear
    layer with [output_dim] outputs and a ReLU, followed by one linear layer
    with a single output; a given [output_neuron_bias] is the bias of that
    last layer. *)
Theorem get_mlp_structure `{Init T} (id0 input_dim output_dim : nat)
    (num_layers : Z) (output_neuron_bias : option T) :
  ∃ (lins : list (Linear T)) (out : Linear T),
    ProTCL.get_mlp id0 input_dim output_dim num_layers output_neuron_bias
    = concat (map (λ lin, [LinearLayer lin; ReLU]) lins) ++ [LinearLayer out]
    ∧ Z.of_nat (length lins) = Z.max 1 num_layers
    ∧ Forall (λ lin, length (weight lin) = output_dim) lins
    ∧ length (weight out) = 1%nat
    ∧ bias out = match output_neuron_bias with
                 | Some v => Some [v]
                 | None => Some [init_bias (id0 + 1 + Z.to_nat (num_layers - 1)) 0]
                 end.
Proof.
  unfold ProTCL.get_mlp.
  set (m := Z.to_nat (num_layers - 1)).
  exists (nn_Linear id0 input_dim output_dim true
            :: map (λ k, nn_Linear (id0 + 1 + k) output_dim output_dim true) (seq 0 m)).
  eexists. split; [|split; [|split; [|split]]].
  - rewrite (foldl_append_blocks
               (λ k, [LinearLayer (nn_Linear (id0 + 1 + k) output_dim output_dim true); ReLU])).
    cbn [map concat]. rewrite map_map. reflexivity.
  - cbn. rewrite length_map, length_seq. unfold m. lia.
  - constructor.
    + cbn. by rewrite length_map, length_seq.
    + apply Forall_forall. intros lin Hlin.
      apply list_elem_of_fmap in Hlin as (k & -> & _).
      cbn. by rewrite length_map, length_seq.
  - by destruct output_neuron_bias.
  - by destruct output_neuron_bias.
Qed.

(** ** src/data/datasets.py *)

Lemma process_sequence_id_vocab_perm (data data' : list datasets.observation) :
  data ≡ₚ data' →
  datasets._process_sequence_id_vocab data None
  = datasets._process_sequence_id_vocab data' None.
Proof.
  intros Hperm. unfold datasets._process_sequence_id_vocab.
  pose proof (process_sequence_id_loop data ∅) as H1.
  pose proof (process_sequence_id_loop data' ∅) as H2.
  destruct (for_fold _ _ data) as [S1|e1], (for_fold _ _ data') as [S2|e2]; cbn.
  - destruct H1 as [_ H1], H2 as [_ H2]. do 3 f_equal.
    apply set_eq. intros x. rewrite H1, H2.
    split; (intros [?|(obs & Hobs & ?)]; [by left|right; exists obs; split; [|done]]).
    + by rewrite <- Hperm.
    + by rewrite Hperm.
  - destruct H1 as [HF _], H2 as [_ HF']. exfalso. apply HF'. by rewrite <- Hperm.
  - destruct H1 as [_ HF], H2 as [HF' _]. exfalso. apply HF. by rewrite Hperm.
  - destruct H1 as [-> _], H2 as [-> _]. done.
Qed.

(** X7. The vocabularies built from the data do not depend on the order of
    the records: permuting the data gives the same amino-acid, label and
    sequence-identifier vocabularies, hence the same integers. *)
Theorem vocabulary_order_independent (data data' : list datasets.observation) :
  data ≡ₚ data' →
  datasets._process_amino_acid_vocab data None
  = datasets._process_amino_acid_vocab data' None
  ∧ datasets._process_label_vocab data None = datasets._process_label_vocab data' None
  ∧ datasets._process_sequence_id_vocab data None
    = datasets._process_sequence_id_vocab data' None.
Proof.
  intros Hperm. split; [|split].
  - unfold datasets._process_amino_acid_vocab. do 2 f_equal.
    apply set_eq. intros x. rewrite !elem_of_foldl_union.
    split; (intros [?|(obs & Hobs & ?)]; [by left|right; exists obs; split; [|done]]).
    + by rewrite <- Hperm.
    + by rewrite Hperm.
  - unfold datasets._process_label_vocab. do 2 f_equal.
    apply set_eq. intros x.
    rewrite !(elem_of_foldl_union (λ obs : datasets.observation, list_to_set (drop 1 obs.2))).
    split; (intros [?|(obs & Hobs & ?)]; [by left|right; exists obs; split; [|done]]).
    + by rewrite <- Hperm.
    + by rewrite Hperm.
  - by apply process_sequence_id_vocab_perm.
Qed.

Lemma vocabulary_order_independent_witness :
  datasets._process_label_vocab [("MK", ["P1"; "GO:2"]); ("MA", ["P2"; "GO:1"])] None
  = datasets._process_label_vocab [("MA", ["P2"; "GO:1"]); ("MK", ["P1"; "GO:2"])] None.
Proof.
  exact (proj1 (proj2 (vocabulary_order_independent
                         [("MK", ["P1"; "GO:2"]); ("MA", ["P2"; "GO:1"])]
                         [("MA", ["P2"; "GO:1"]); ("MK", ["P1"; "GO:2"])]
                         (Permutation_swap _ _ [])))).
Defined.

Lemma drop_duplicates_fresh (seen : gset string) (data : list datasets.observation) obs :
  obs ∈ datasets.drop_duplicates seen data → (obs.1 ∉ seen) ∧ obs ∈ data.
Proof.
  revert seen. induction data as [|o data IH]; intros seen Hin; cbn in Hin.
  - by apply elem_of_nil in Hin.
  - case_decide as Hseen.
    + apply IH in Hin as [? ?]. split; [done|by right].
    + apply elem_of_cons in Hin as [-> |Hin]; [split; [done|left]|].
      apply IH in Hin as [Hn ?]. split; [|by right].
      intros ?. apply Hn. apply elem_of_union. by right.
Qed.

Lemma drop_duplicates_NoDup (seen : gset string) (data : list datasets.observation) :
  NoDup (datasets.drop_duplicates seen data).*1.
Proof.
  revert seen. induction data as [|o data IH]; intros seen; cbn; [constructor|].
  case_decide; [apply IH|]. cbn. constructor; [|apply IH].
  intros Hin. apply list_elem_of_fmap in Hin as (obs & Heq & Hobs).
  apply drop_duplicates_fresh in Hobs as [Hobs _]. apply Hobs.
  rewrite <- Heq. apply elem_of_union. left. by apply elem_of_singleton.
Qed.

Lemma drop_duplicates_sublist (seen : gset string) (data : list datasets.observation) :
  datasets.drop_duplicates seen data `sublist_of` data.
Proof.
  revert seen. induction data as [|o data IH]; intros seen; cbn; [constructor|].
  case_decide; [by apply sublist_cons|by apply sublist_skip].
Qed.

Lemma drop_duplicates_first (seen : gset string) (data : list datasets.observation)
    (sq : string) :
  sq ∉ seen →
  snd <$> list_find (λ o : datasets.observation, o.1 = sq)
            (datasets.drop_duplicates seen data)
  = snd <$> list_find (λ o : datasets.observation, o.1 = sq) data.
Proof.
  revert seen. induction data as [|o data IH]; intros seen Hsq; cbn; [done|].
  case_decide as Hseen.
  - case_decide as Ho; [by rewrite Ho in Hseen|].
    rewrite IH by done. by destruct (list_find _ data) as [[? ?]|].
  - cbn. case_decide as Ho; [done|].
    rewrite <- !option_fmap_compose.
    specialize (IH ({[o.1]} ∪ seen)).
    destruct (list_find _ data) as [[? ?]|], (list_find _ (datasets.drop_duplicates _ _))
      as [[? ?]|]; cbn in *; apply IH;
      (intros Hin; apply elem_of_union in Hin as [Hin|Hin];
       [by apply elem_of_singleton in Hin|done]).
Qed.

Lemma drop_duplicates_id (seen : gset string) (data : list datasets.observation) :
  NoDup data.*1 → (∀ obs, obs ∈ data → obs.1 ∉ seen) →
  datasets.drop_duplicates seen data = data.
Proof.
  revert seen. induction data as [|o data IH]; intros seen Hnd Hfresh; cbn; [done|].
  cbn in Hnd. apply NoDup_cons in Hnd as [Ho Hnd].
  rewrite decide_False by (apply Hfresh; left).
  f_equal. apply IH; [done|].
  intros obs Hobs Hin. apply elem_of_union in Hin as [Hin|Hin].
  - apply elem_of_singleton in Hin. apply Ho. rewrite <- Hin.
    apply list_elem_of_fmap. by exists obs.
  - by apply (Hfresh obs); [right|].
Qed.

(** X8. [_remove_duplicates] keeps, in their order, the observations whose
    sequence did not occur earlier: the result is a sublist of the data in
    which no sequence repeats, the observation kept for a sequence is the
    first the data has for it, and removing duplicates again changes
    nothing. *)
Theorem remove_duplicates_keeps_first (data : list datasets.observation) :
  let kept := datasets._remove_duplicates data in
  kept `sublist_of` data
  ∧ NoDup kept.*1
  ∧ (∀ sq : string,
       snd <$> list_find (λ o : datasets.observation, o.1 = sq) kept
       = snd <$> list_find (λ o : datasets.observation, o.1 = sq) data)
  ∧ datasets._remove_duplicates kept = kept.
Proof.
  unfold datasets._remove_duplicates. cbn zeta.
  split; [apply drop_duplicates_sublist|].
  split; [apply drop_duplicates_NoDup|].
  split; [intros sq; by apply drop_duplicates_first|].
  apply drop_duplicates_id; [apply drop_duplicates_NoDup|done].
Qed.

Lemma foldl_max_spec (x : nat) (l : list nat) :
  let m := foldl Nat.max x l in
  (x ≤ m)%nat ∧ (∀ y, y ∈ l → (y ≤ m)%nat) ∧ m ∈ x :: l.
Proof.
  revert x. induction l as [|y l IH]; intros x; cbn.
  - split; [done|]. split; [|left]. intros y Hy. by apply elem_of_nil in Hy.
  - destruct (IH (x `max` y)%nat) as (Hx & Hall & Hin). split; [lia|]. split.
    + intros z Hz. apply elem_of_cons in Hz as [-> |Hz]; [lia|by apply Hall].
    + apply elem_of_cons in Hin as [Hin|Hin]; [|by right; right].
      rewrite Hin. destruct (Nat.max_spec x y) as [[_ ->]|[_ ->]]; [right|]; left.
Qed.

(** X9. [get_max_seq_len] on a dataset whose maximum was not computed yet
    raises [ValueError] when there is no observation; otherwise it returns the
    length of a longest sequence and remembers it. Once remembered, that
    value is returned without looking at the data. *)
Theorem get_max_seq_len_spec (data : list datasets.observation) :
  datasets.get_max_seq_len None [] = Raise ValueError
  ∧ (∀ m data', datasets.get_max_seq_len (Some m) data' = Ok (m, Some m))
  ∧ (data ≠ [] →
     ∃ m, datasets.get_max_seq_len None data = Ok (m, Some m)
       ∧ (∀ obs : datasets.observation, obs ∈ data →
            (Stdlib.Strings.String.length obs.1 ≤ m)%nat)
       ∧ ∃ obs : datasets.observation,
           obs ∈ data ∧ Stdlib.Strings.String.length obs.1 = m).
Proof.
  split; [done|]. split; [done|]. intros Hne.
  destruct data as [|o data]; [done|]. cbn.
  destruct (foldl_max_spec (Stdlib.Strings.String.length o.1)
              (map (λ obs : datasets.observation, Stdlib.Strings.String.length obs.1) data))
    as (Hx & Hall & Hin).
  eexists. split; [done|]. split.
  - intros obs Hobs. apply elem_of_cons in Hobs as [-> |Hobs]; [done|].
    apply Hall. apply list_elem_of_fmap. by exists obs.
  - apply elem_of_cons in Hin as [Hin|Hin].
    + exists o. split; [left|done].
    + apply list_elem_of_fmap in Hin as (obs & Heq & Hobs).
      exists obs. split; [by right|done].
Qed.

Lemma get_max_seq_len_witness :
  ∃ m, datasets.get_max_seq_len None [("MKT", ["P1"]); ("MKTAY", ["P2"])]
       = Ok (m, Some m).
Proof.
  destruct (proj2 (proj2 (get_max_seq_len_spec [("MKT", ["P1"]); ("MKTAY", ["P2"])]))
              ltac:(discriminate)) as (m & Heq & _).
  exists m. exact Heq.
Defined.

Lemma for_each_Forall2 {A B} (f : A → result B) (l : list A) (r : list B) :
  for_each f l = Ok r → Forall2 (λ x y, f x = Ok y) l r.
Proof.
  revert r. induction l as [|x l IH]; intros r; cbn.
  - intros [= <-]. constructor.
  - destruct (f x) as [y|e] eqn:Hfx; cbn; [|done].
    destruct (for_each f l) as [ys|e]; cbn; [|done].
    intros [= <-]. constructor; [done|by apply IH].
Qed.

Lemma foldl_add_shift (a : Z) (l : list Z) :
  foldl Z.add a l = a + foldl Z.add 0 l.
Proof.
  revert a. induction l as [|x l IH]; intros a; cbn; [lia|].
  rewrite (IH (a + x)), (IH (0 + x)). lia.
Qed.

Lemma one_hot_row_lookup (num_classes i c : nat) :
  (c < num_classes)%nat →
  default 0 (map (λ c', if decide (c' = i) then 1 else 0) (seq 0 num_classes) !! c)
  = if decide (c = i) then 1 else 0.
Proof.
  intros Hc.
  assert (map (λ c', if decide (c' = i) then 1 else 0) (seq 0 num_classes) !! c
          = Some (if decide (c = i) then 1 else 0)) as ->; [|done].
  apply list_lookup_fmap_Some. exists c. split; [done|]. by apply lookup_seq.
Qed.

(** The column sums of one-hot rows count the occurrences of each class. *)
Lemma sum_one_hot_count (d : gmap string nat) (labels : list string) (ints : list nat)
    (num_classes j : nat) :
  Forall2 (λ l i, datasets.dict_get d l = Ok i) labels ints →
  (j < num_classes)%nat →
  foldl Z.add 0
    (map (λ row, default 0 (row !! j))
       (map (λ i, map (λ c, if decide (c = i) then 1 else 0) (seq 0 num_classes)) ints))
  = Z.of_nat (length (filter (λ l, d !! l = Some j) labels)).
Proof.
  intros HF Hj. induction HF as [|l i labels ints Hl HF IH]; [done|].
  cbn [map foldl]. rewrite foldl_add_shift, IH, one_hot_row_lookup by done.
  unfold datasets.dict_get in Hl. destruct (d !! l) as [i'|] eqn:Hd; [|done].
  injection Hl as ->.
  rewrite filter_cons. case_decide as Hij.
  - rewrite decide_True by (by rewrite Hd, Hij). cbn. lia.
  - rewrite decide_False by (rewrite Hd; congruence). lia.
Qed.

(** X10. When [process_example] returns, the integer it gives is the one of
    the sequence identifier (the first entry of the labels list), the length
    is the number of residues, the one-hot encoding has a row per amino acid
    of the vocabulary and a column per residue, and entry j of the multi-hot
    vector is the number of times a label mapped to j occurs among the labels:
    0 or 1 only when no label repeats.  Without a sequence identifier it
    raises [IndexError], and with one that has no integer, [KeyError]. *)
Theorem process_example_spec (self : datasets.vocab) (sequence : string)
    (id : string) (labels : list string)
    (sid : nat) (onehots : tensor Z) (multihots : list Z) (len : nat) :
  datasets.process_example self sequence (id :: labels) = Ok (sid, onehots, multihots, len) →
  datasets.sequence_id2int self !! id = Some sid
  ∧ len = Stdlib.Strings.String.length sequence
  ∧ length onehots = length (datasets.amino_acid_vocabulary self)
  ∧ Forall (λ row, length row = len) onehots
  ∧ length multihots = length (datasets.label_vocabulary self)
  ∧ (∀ j : nat, (j < length (datasets.label_vocabulary self))%nat →
       multihots !! j
       = Some (Z.of_nat (length (filter (λ l, datasets.label2int self !! l = Some j)
                                        labels))))
  ∧ datasets.process_example self sequence [] = Raise IndexError
  ∧ (∀ id', datasets.sequence_id2int self !! id' = None →
            datasets.process_example self sequence (id' :: labels) = Raise KeyError).
Proof.
  unfold datasets.process_example. intros Hok.
  unfold datasets.dict_get at 1 in Hok.
  destruct (datasets.sequence_id2int self !! id) as [sid'|] eqn:Hsid; [|done].
  cbn [bind] in Hok.
  destruct (for_each _ (datasets.chars sequence)) as [aa_ints|e] eqn:Haa; [|done].
  cbn [bind] in Hok.
  destruct (for_each _ labels) as [label_ints|e] eqn:Hlab; [|done].
  cbn [bind] in Hok.
  unfold datasets.one_hot in Hok.
  case_decide as Haa_lt; [|done]. cbn [bind] in Hok.
  case_decide as Hlab_lt; [|done]. cbn [bind] in Hok.
  injection Hok as <- <- <- <-.
  apply for_each_length in Haa.
  apply for_each_Forall2 in Hlab.
  split; [done|]. split.
  { rewrite Haa. unfold datasets.chars. rewrite length_fmap. clear.
    induction sequence as [|a sq IH]; [done|]. cbn. by rewrite IH. }
  split; [unfold datasets.permute10; by rewrite length_map, length_seq|].
  split.
  { unfold datasets.permute10. apply Forall_forall. intros row Hrow.
    apply list_elem_of_fmap in Hrow as (c & -> & _). by rewrite !length_map. }
  split; [unfold datasets.sum_dim0; by rewrite length_map, length_seq|].
  split.
  { intros j Hj. unfold datasets.sum_dim0.
    apply list_lookup_fmap_Some. exists j. split; [|by apply lookup_seq].
    symmetry. f_equal. by apply sum_one_hot_count. }
  split; [done|].
  intros id' Hid'. unfold datasets.dict_get at 1. by rewrite Hid'.
Qed.

Lemma process_example_witness :
  ∃ onehots multihots,
    datasets.process_example
      {| datasets.sequence_id2int := {["P1" := 0%nat]};
         datasets.aminoacid2int := {["K" := 0%nat; "M" := 1%nat]};
         datasets.label2int := {["GO:1" := 0%nat; "GO:2" := 1%nat]};
         datasets.amino_acid_vocabulary := ["K"; "M"];
         datasets.label_vocabulary := ["GO:1"; "GO:2"] |}
      "MKM" ["P1"; "GO:2"; "GO:2"]
    = Ok (0%nat, onehots, multihots, 3%nat)
    ∧ multihots !! 1%nat = Some 2.
Proof.
  assert (datasets.process_example
            {| datasets.sequence_id2int := {["P1" := 0%nat]};
               datasets.aminoacid2int := {["K" := 0%nat; "M" := 1%nat]};
               datasets.label2int := {["GO:1" := 0%nat; "GO:2" := 1%nat]};
               datasets.amino_acid_vocabulary := ["K"; "M"];
               datasets.label_vocabulary := ["GO:1"; "GO:2"] |}
            "MKM" ["P1"; "GO:2"; "GO:2"]
          = Ok (0%nat, [[0; 1; 0]; [1; 0; 1]], [0; 2], 3%nat)) as Hrun
    by (vm_compute; reflexivity).
  exists [[0; 1; 0]; [1; 0; 1]], [0; 2]. split; [exact Hrun|].
  destruct (process_example_spec _ _ _ _ _ _ _ _ Hrun) as (_ & _ & _ & _ & _ & Hm & _).
  rewrite (Hm 1%nat ltac:(cbn; lia)). vm_compute. reflexivity.
Defined.

Lemma fill_padding_lookup {T} (sentinel : T) (len : Z) (rep : tensor T) (d i : nat) :
  (datasets.fill_padding sentinel len rep !! d ≫= λ row, row !! i)
  = (λ x, if decide (len ≤ Z.of_nat i) then sentinel else x)
      <$> (rep !! d ≫= λ row, row !! i).
Proof.
  unfold datasets.fill_padding.
  assert (map (imap (λ t x, if decide (len ≤ Z.of_nat t) then sentinel else x)) rep !! d
          = imap (λ t x, if decide (len ≤ Z.of_nat t) then sentinel else x) <$> rep !! d)
    as -> by apply list_lookup_fmap.
  destruct (rep !! d) as [row|]; cbn; [|done].
  apply list_lookup_imap.
Qed.

Lemma fill_padding_idempotent {T} (sentinel : T) (len : Z) (rep : tensor T) :
  datasets.fill_padding sentinel len (datasets.fill_padding sentinel len rep)
  = datasets.fill_padding sentinel len rep.
Proof.
  unfold datasets.fill_padding. rewrite map_map. apply map_ext. intros row.
  apply list_eq. intros i. rewrite !list_lookup_imap.
  destruct (row !! i); cbn; [|done]. by case_decide.
Qed.

(** X11. With one length per example, [set_padding_to_sentinel] returns a
    tensor of the same shape in which entry (b, d, t) is the sentinel when
    [t >= sequence_lengths[b]] and the input's entry otherwise; applying it
    again with the same lengths changes nothing. *)
Theorem set_padding_to_sentinel_spec {T} (padded : list (tensor T))
    (sequence_lengths : list Z) (sentinel : T) :
  length sequence_lengths = length padded →
  ∃ out,
    datasets.set_padding_to_sentinel padded sequence_lengths sentinel = Ok out
    ∧ length out = length padded
    ∧ (∀ (b d t : nat) len, sequence_lengths !! b = Some len →
         entry3 out b d t
         = (λ x, if decide (len ≤ Z.of_nat t) then sentinel else x)
             <$> entry3 padded b d t)
    ∧ datasets.set_padding_to_sentinel out sequence_lengths sentinel = Ok out.
Proof.
  intros Hlen. unfold datasets.set_padding_to_sentinel.
  rewrite decide_True by done.
  eexists. split; [done|]. split; [|split].
  - rewrite length_zip_with. lia.
  - intros b d t len Hb. unfold entry3. rewrite lookup_zip_with, Hb. cbn.
    destruct (padded !! b) as [rep|]; cbn; [|done].
    apply fill_padding_lookup.
  - rewrite decide_True by (rewrite length_zip_with; lia).
    f_equal. clear Hlen. revert padded.
    induction sequence_lengths as [|len lens IH]; intros padded; [done|].
    destruct padded as [|rep padded]; [done|]. cbn.
    by rewrite fill_padding_idempotent, IH.
Qed.

Lemma set_padding_to_sentinel_witness :
  ∃ out,
    datasets.set_padding_to_sentinel [[[1; 2; 3]; [4; 5; 6]]; [[7; 8; 9]; [1; 1; 1]]]
      [2; 1] 0
    = Ok out
    ∧ entry3 out 1 0 2 = Some 0.
Proof.
  destruct (set_padding_to_sentinel_spec
              [[[1; 2; 3]; [4; 5; 6]]; [[7; 8; 9]; [1; 1; 1]]] [2; 1] 0 eq_refl)
    as (out & Heq & _ & Hentry & _).
  exists out. split; [exact Heq|].
  rewrite (Hentry 1%nat 0%nat 2%nat 1 eq_refl). reflexivity.
Defined.

(** ** src/models/ProTCLTrainer.py *)

Section EvaluateProofs.
Context {T G O Metric : Type} `{!Scalar T, !PT.Torch T G O Metric}.

(** The loop of [evaluate] over a loader whose evaluation steps succeed. *)
Lemma evaluate_loop_spec (cfg : PT.config) (m : ProTCL.t T) (save_results : bool)
    (loader : list (PT.batch T)) (steps : list (Q * tensor T * tensor T * list Z))
    (st : PT.eval_loop) :
  for_each (PT.evaluation_step cfg m) loader = Ok steps →
  ∃ st',
    for_fold (PT.evaluate_batch cfg m save_results) st loader = Ok st'
    ∧ PT.total_loss st' = foldl Qplus (PT.total_loss st) (map step_loss steps)
    ∧ PT.eval_metrics st' = feed_all cfg steps (PT.eval_metrics st)
    ∧ (let keep := save_results && bool_decide (is_Some (PT.eval_metrics st)) in
       PT.ids_list st' = PT.ids_list st ++ (if keep then map step_ids steps else [])
       ∧ PT.probabilities_list st'
         = PT.probabilities_list st
             ++ (if keep
                 then map (λ step, PT.probabilities_of cfg (step_logits step)) steps
                 else [])
       ∧ PT.labels_list st'
         = PT.labels_list st ++ (if keep then map step_labels steps else [])).
Proof.
  revert steps st. induction loader as [|b loader IH]; intros steps st; cbn.
  - intros [= <-]. exists st. split; [done|]. split; [done|]. split.
    + destruct (PT.eval_metrics st) as [ms|]; cbn; [|done].
      f_equal. symmetry. apply map_fmap_id.
    + cbn. destruct (_ && _); by rewrite !app_nil_r.
  - destruct (PT.evaluation_step cfg m b) as [[[[loss logits] labels] ids]|e] eqn:Hstep;
      cbn; [|done].
    destruct (for_each _ loader) as [steps'|e] eqn:Hrest; cbn; [|done].
    intros [= <-].
    unfold PT.evaluate_batch at 1. rewrite Hstep. cbn [bind].
    destruct (PT.eval_metrics st) as [ms|] eqn:Hms.
    + destruct save_results; cbn [PT.total_loss PT.eval_metrics PT.ids_list
                                    PT.probabilities_list PT.labels_list].
      * edestruct (IH steps') as (st' & Hrun & Htot & Hmet & Hids & Hprobs & Hlabs);
          [done|]. exists st'. split; [exact Hrun|].
        cbn in Htot, Hmet, Hids, Hprobs, Hlabs.
        split; [exact Htot|]. split.
        { rewrite Hmet. unfold feed_all. by rewrite <- map_fmap_compose. }
        cbn. rewrite Hids, Hprobs, Hlabs, <- !app_assoc. done.
      * edestruct (IH steps') as (st' & Hrun & Htot & Hmet & Hids & Hprobs & Hlabs);
          [done|]. exists st'. split; [exact Hrun|].
        cbn in Htot, Hmet, Hids, Hprobs, Hlabs.
        split; [exact Htot|]. split.
        { rewrite Hmet. unfold feed_all. by rewrite <- map_fmap_compose. }
        cbn. rewrite Hids, Hprobs, Hlabs, !app_nil_r. done.
    + edestruct (IH steps') as (st' & Hrun & Htot & Hmet & Hids & Hprobs & Hlabs);
        [done|]. exists st'. split; [exact Hrun|].
      cbn in Htot, Hmet, Hids, Hprobs, Hlabs. rewrite Hms in *.
      split; [exact Htot|]. split; [exact Hmet|].
      destruct save_results; cbn in *; by rewrite Hids, Hprobs, Hlabs.
Qed.

End EvaluateProofs.

Section EvaluateResults.
Context {T G O Metric : Type} `{!Scalar T, !PT.Torch T G O Metric}.

Lemma evaluation_step_batch (cfg : PT.config) (m : ProTCL.t T) (b : PT.batch T)
    (step : Q * tensor T * tensor T * list Z) :
  PT.evaluation_step cfg m b = Ok step →
  step_ids step = PT.sequence_ids b ∧ step_labels step = PT.label_multihots b.
Proof.
  unfold PT.evaluation_step. destruct (ProTCL.forward _ _ _ _ _ _ _); cbn; [|done].
  by intros [= <-].
Qed.

Lemma evaluation_steps_batches (cfg : PT.config) (m : ProTCL.t T)
    (loader : list (PT.batch T)) (steps : list (Q * tensor T * tensor T * list Z)) :
  for_each (PT.evaluation_step cfg m) loader = Ok steps →
  map step_ids steps = map PT.sequence_ids loader
  ∧ map step_labels steps = map PT.label_multihots loader.
Proof.
  intros Hsteps. apply for_each_Forall2 in Hsteps.
  induction Hsteps as [|b step loader steps Hb _ [IH1 IH2]]; [done|].
  apply evaluation_step_batch in Hb as [Hi Hl]. cbn. by rewrite Hi, Hl, IH1, IH2.
Qed.

Lemma evaluate_ok (cfg : PT.config) (m : ProTCL.t T) (loader : list (PT.batch T))
    (steps : list (Q * tensor T * tensor T * list Z))
    (metrics : option (gmap string Metric)) (save_results : bool) :
  loader ≠ [] →
  for_each (PT.evaluation_step cfg m) loader = Ok steps →
  ∃ st,
    PT.evaluate cfg m loader metrics save_results
    = Ok (<["avg_loss" := (PT.total_loss st / inject_Z (Z.of_nat (length loader)))%Q]>
            (match PT.eval_metrics st with
             | Some ms => PT.metric_compute <$> ms
             | None => ∅
             end),
          PT.test_results_of save_results st, PT.eval_metrics st)
    ∧ PT.total_loss st = foldl Qplus 0%Q (map step_loss steps)
    ∧ PT.eval_metrics st = feed_all cfg steps metrics
    ∧ (let keep := save_results && bool_decide (is_Some metrics) in
       PT.ids_list st = (if keep then map step_ids steps else [])
       ∧ PT.probabilities_list st
         = (if keep
            then map (λ step, PT.probabilities_of cfg (step_logits step)) steps
            else [])
       ∧ PT.labels_list st = (if keep then map step_labels steps else [])).
Proof.
  intros Hne Hsteps. unfold PT.evaluate.
  edestruct (evaluate_loop_spec cfg m save_results loader steps) as (st & -> & Hst);
    [done|].
  exists st. cbn [bind]. unfold PT.py_truediv.
  rewrite decide_False by (destruct loader; [done|cbn; lia]). cbn [bind].
  split; [done|]. exact Hst.
Qed.

End EvaluateResults.

(** X12. For a loader with at least one batch whose evaluation steps succeed,
    [evaluate] returns; its metrics always hold, under [avg_loss], the sum of
    the batches' losses divided by the number of batches (taking the place of
    a metric of that name, if the collection has one), and under every other
    name the value computed by the collection's metric of that name after it
    was fed every batch, in loader order.  The collection handed in is left
    fed with all the batches. *)
Theorem evaluate_metrics {T G O Metric : Type} `{!Scalar T, !PT.Torch T G O Metric}
    (cfg : PT.config) (m : ProTCL.t T) (loader : list (PT.batch T))
    (steps : list (Q * tensor T * tensor T * list Z))
    (metrics : option (gmap string Metric)) (save_results : bool) :
  loader ≠ [] →
  for_each (PT.evaluation_step cfg m) loader = Ok steps →
  ∃ final results,
    PT.evaluate cfg m loader metrics save_results
    = Ok (final, results, feed_all cfg steps metrics)
    ∧ final !! "avg_loss"
      = Some (foldl Qplus 0%Q (map step_loss steps)
              / inject_Z (Z.of_nat (length loader)))%Q
    ∧ ∀ name : string, name ≠ "avg_loss" →
        final !! name
        = match feed_all cfg steps metrics with
          | Some ms => PT.metric_compute <$> ms !! name
          | None => None
          end.
Proof.
  intros Hne Hsteps.
  destruct (evaluate_ok cfg m loader steps metrics save_results Hne Hsteps)
    as (st & -> & Htot & Hmet & _).
  rewrite Hmet, Htot. eexists _, _. split; [done|]. split.
  - apply lookup_insert_eq.
  - intros name Hname. rewrite lookup_insert_ne by done.
    destruct (feed_all cfg steps metrics) as [ms|]; [|done].
    apply lookup_fmap.
Qed.

Lemma evaluate_metrics_witness :
  ∃ final results metrics,
    @PT.evaluate Z unit unit Q Z_scalar peak_torch sample_cfg sample_model
      [sample_batch; sample_batch] (Some {["f1" := (1 # 4)%Q]}) false
    = Ok (final, results, metrics)
    ∧ final !! "f1" = Some (1 # 4)%Q.
Proof.
  edestruct (@evaluate_metrics Z unit unit Q Z_scalar peak_torch sample_cfg sample_model
               [sample_batch; sample_batch]) as (final & results & Heq & _ & Hother).
  - discriminate.
  - vm_compute. reflexivity.
  - exists final, results. eexists. split; [exact Heq|].
    rewrite (Hother "f1") by discriminate. vm_compute. reflexivity.
Defined.

(** X13. For a loader with at least one batch whose evaluation steps succeed,
    the per-example results [evaluate] returns are kept only when [save_results] is set and a metric collection is given; they are
    then the sequence identifiers of all the batches in loader order, each
    wrapped in a list of its own, the rows of the batches' probabilities, and
    the rows of the batches' labels, in the same order. *)
Theorem evaluate_saved_results {T G O Metric : Type} `{!Scalar T, !PT.Torch T G O Metric}
    (cfg : PT.config) (m : ProTCL.t T) (loader : list (PT.batch T))
    (steps : list (Q * tensor T * tensor T * list Z))
    (metrics : option (gmap string Metric)) (save_results : bool) :
  loader ≠ [] →
  for_each (PT.evaluation_step cfg m) loader = Ok steps →
  ∃ final metrics',
    PT.evaluate cfg m loader metrics save_results
    = Ok (final,
          (if save_results && bool_decide (is_Some metrics) then
             Some (map (λ j, [j]) (concat (map PT.sequence_ids loader)),
                   concat (map (λ step, PT.probabilities_of cfg (step_logits step)) steps),
                   concat (map PT.label_multihots loader))
           else None),
          metrics').
Proof.
  intros Hne Hsteps.
  destruct (evaluate_ok cfg m loader steps metrics save_results Hne Hsteps)
    as (st & -> & _ & _ & Hids & Hprobs & Hlabs).
  eexists _, _. do 2 f_equal. f_equal.
  destruct (evaluation_steps_batches cfg m loader steps Hsteps) as [Hi Hl].
  unfold PT.test_results_of. cbn in Hids, Hprobs, Hlabs.
  rewrite Hids, Hprobs, Hlabs.
  destruct save_results; [|done]. cbn [andb].
  destruct (bool_decide (is_Some metrics)); [|done].
  rewrite Hi, Hl.
  apply for_each_length in Hsteps.
  destruct steps as [|step steps]; [by destruct loader|]. done.
Qed.

Lemma evaluate_saved_results_witness :
  ∃ final probabilities metrics',
    @PT.evaluate Z unit unit Q Z_scalar peak_torch sample_cfg sample_model
      [sample_batch; sample_batch] (Some {["f1" := (1 # 4)%Q]}) true
    = Ok (final, Some ([[0]; [1]; [0]; [1]], probabilities,
                       [[1; 0]; [0; 1]; [1; 0]; [0; 1]]), metrics').
Proof.
  edestruct (@evaluate_saved_results Z unit unit Q Z_scalar peak_torch sample_cfg
               sample_model [sample_batch; sample_batch])
    as (final & metrics' & Heq).
  - discriminate.
  - vm_compute. reflexivity.
  - exists final. eexists. exists metrics'. exact Heq.
Defined.

(** X14. A validation changes neither the model's parameters nor the
    optimizer nor the gradients, and never lowers the recorded best value,
    whether it returns or raises. *)
Theorem validate_preserves_parameters {T G O Metric : Type}
    `{!Scalar T, !PT.Torch T G O Metric}
    (cfg : PT.config) (s : PT.state T G O) (val_loader : list (PT.batch T))
    (metric : Metric) (name : string) :
  let s' := (PT.validate cfg s val_loader metric name).1.2 in
  PT.model s' = PT.model s
  ∧ PT.optimizer s' = PT.optimizer s
  ∧ PT.grads s' = PT.grads s
  ∧ (PT.best_val_metric s <= PT.best_val_metric s')%Q.
Proof.
  cbn zeta.
  destruct (validate_effect_spec cfg s val_loader metric name)
    as (Hm & Ho & Hg & Heff).
  split; [done|]. split; [done|]. split; [done|].
  destruct Heff as [(_ & -> & _)|[(v & _ & _ & -> & _)|(v & Hv & _ & -> & _)]];
    [apply Qle_refl..|by apply Qlt_le_weak].
Qed.

(** X15. For a loader with at least one batch whose evaluation steps succeed,
    the score [find_optimal_threshold] returns is never negative and bounds
    the score of every candidate, and the threshold it returns is 0 or one of
    the candidates. *)
Theorem find_optimal_threshold_bounds {T G O Metric : Type}
    `{!Scalar T, !PT.Torch T G O Metric}
    (cfg : PT.config) (m : ProTCL.t T) (data_loader : list (PT.batch T)) (name : string)
    (per_batch : list (tensor T * tensor T)) :
  data_loader ≠ [] →
  for_each (PT.threshold_batch cfg m) data_loader = Ok per_batch →
  ∃ th sc,
    PT.find_optimal_threshold cfg m data_loader name = Ok (th, sc)
    ∧ (0 <= sc)%Q
    ∧ (th = 0%Q ∨ th ∈ PT.np_arange_thresholds)
    ∧ ∀ c, c ∈ PT.np_arange_thresholds →
        (PT.threshold_score name
           (PT.shape_last (default [] (last (map snd per_batch))))
           (concat (map fst per_batch)) (concat (map snd per_batch)) c <= sc)%Q.
Proof.
  intros Hne Hpb.
  rewrite (find_optimal_threshold_ok cfg m data_loader name per_batch) by done.
  destruct (sweep_spec
              (PT.threshold_score name
                 (PT.shape_last (default [] (last (map snd per_batch))))
                 (concat (map fst per_batch)) (concat (map snd per_batch)))
              PT.np_arange_thresholds)
    as (th & sc & -> & [(Hall & -> & ->)|(i & Hi & Hsc & Hpos & Hall & _)]).
  - exists 0%Q, 0%Q. split; [done|]. split; [apply Qle_refl|]. split; [by left|done].
  - exists th, sc. split; [done|]. split; [by apply Qlt_le_weak|].
    split; [right; by eapply list_elem_of_lookup_2|done].
Qed.

Lemma find_optimal_threshold_bounds_witness :
  ∃ th sc,
    @PT.find_optimal_threshold Z unit unit Q Z_scalar peak_torch
      sample_cfg sample_model [sample_batch] "f1_micro" = Ok (th, sc)
    ∧ (0 <= sc)%Q.
Proof.
  edestruct (@find_optimal_threshold_bounds Z unit unit Q Z_scalar peak_torch
               sample_cfg sample_model [sample_batch] "f1_micro")
    as (th & sc & Heq & Hsc & _).
  - discriminate.
  - vm_compute. reflexivity.
  - exists th, sc. split; [exact Heq | exact Hsc].
Defined.

Lemma forward_env_type_error `{Scalar T} {A B C : Type} (environ : gmap string string)
    (v : string) (self : ProTCL.t T) (oh : option A) (sl : option B) (tl : option C)
    (P_f L_f : tensor T) :
  environ !! "NUM_CHUNKS" = Some v →
  ProTCL.train_label_encoder self = false →
  ProTCL.train_sequence_encoder self = false →
  Linear_wf (ProTCL.W_p self) → Linear_wf (ProTCL.W_l self) →
  width (in_features (ProTCL.W_p self)) P_f →
  width (in_features (ProTCL.W_l self)) L_f →
  ProTCL.forward environ self oh (Some P_f) sl tl (Some L_f) = Raise TypeError.
Proof.
  intros Henv Htl Hts HwfP HwfL HwP HwL. rewrite forward_frozen by done.
  destruct (linear_batch_fits (ProTCL.W_p self) P_f) as (P_e & -> & _); [done..|].
  destruct (linear_batch_fits (ProTCL.W_l self) L_f) as (L_e & -> & _); [done..|].
  cbn [bind].
  unfold ProTCL.score, ProTCL._get_joint_embeddings, ProTCL.default_num_chunks,
    os_environ_get.
  by rewrite Henv.
Qed.

(** X16. Setting [NUM_CHUNKS] in the environment breaks the trainer as a
    whole: for a model with frozen encoders and well-formed projections, and a
    loader whose first batch carries both embeddings, non-empty and of the
    widths the projections take, [evaluation_step], [evaluate] and
    [find_optimal_threshold] all raise [TypeError], and [train] raises it at
    its first micro-batch, before any gradient is computed. *)
Theorem num_chunks_env_breaks_trainer {T G O Metric : Type}
    `{!Scalar T, !PT.Torch T G O Metric}
    (cfg : PT.config) (v : string) (s : PT.state T G O) (b : PT.batch T)
    (loader : list (PT.batch T)) (P_f L_f : tensor T)
    (metrics : option (gmap string Metric)) (save_results : bool) (name : string)
    (train_loader : @PT.DataLoader T) (rest : list (PT.batch T))
    (val_loader : list (PT.batch T)) (metric : Metric) :
  PT.environ cfg !! "NUM_CHUNKS" = Some v →
  ProTCL.train_label_encoder (PT.model s) = false →
  ProTCL.train_sequence_encoder (PT.model s) = false →
  Linear_wf (ProTCL.W_p (PT.model s)) → Linear_wf (ProTCL.W_l (PT.model s)) →
  PT.sequence_embeddings b = Some P_f →
  PT.label_embeddings b = Some L_f →
  P_f ≠ [] → L_f ≠ [] →
  width (in_features (ProTCL.W_p (PT.model s))) P_f →
  width (in_features (ProTCL.W_l (PT.model s))) L_f →
  PT.evaluation_step cfg (PT.model s) b = Raise TypeError
  ∧ PT.evaluate cfg (PT.model s) (b :: loader) metrics save_results = Raise TypeError
  ∧ PT.find_optimal_threshold cfg (PT.model s) (b :: loader) name = Raise TypeError
  ∧ (1 ≤ PT.num_epochs cfg → PT.batches train_loader 0 = b :: rest →
     let out := PT.train cfg s train_loader val_loader metric name in
     out.1.1 = Raise TypeError ∧ PT.trace out.1.2 = PT.trace s).
Proof.
  intros Henv Htl Hts HwfP HwfL Hse Hle _ _ HwP HwL.
  assert (PT.evaluation_step cfg (PT.model s) b = Raise TypeError) as Hstep.
  { unfold PT.evaluation_step. rewrite Hse, Hle.
    by rewrite (forward_env_type_error _ v). }
  split; [done|]. split; [|split].
  - unfold PT.evaluate. cbn [for_fold]. unfold PT.evaluate_batch at 1.
    by rewrite Hstep.
  - unfold PT.find_optimal_threshold. cbn [for_each]. unfold PT.threshold_batch at 1.
    by rewrite Hstep.
  - intros Hep Hb. cbn zeta.
    assert (PT.train_batch cfg (Z.of_nat (PT.loader_len train_loader)) val_loader name
              {| PT.self := s; PT.metric_object := metric; PT.batch_count := 0 |} b
            = (Raise TypeError,
               {| PT.self := s; PT.metric_object := metric; PT.batch_count := 0 + 1 |}))
      as Hfirst.
    { unfold PT.train_batch. cbn [PT.self PT.batch_count PT.metric_object].
      by rewrite Hse, Hle, (forward_env_type_error _ v) by done. }
    unfold PT.train, PT.train_epochs.
    destruct (Z.to_nat (PT.num_epochs cfg)) as [|n] eqn:Hn; [lia|].
    cbn [seq PT.run_loop]. rewrite Hb. cbn [PT.run_loop]. by rewrite Hfirst.
Qed.

Lemma num_chunks_env_breaks_trainer_witness :
  @PT.evaluation_step Z unit unit Q Z_scalar peak_torch
    {| PT.environ := {["NUM_CHUNKS" := "4"]}; PT.normalize_probabilities := false;
       PT.validations_per_epoch := 1; PT.gradient_accumulation_steps := 1;
       PT.num_epochs := 1; PT.GO_label_vocab := []; PT.label_normalizer := ∅ |}
    sample_model sample_batch
  = Raise TypeError.
Proof.
  refine (proj1 (@num_chunks_env_breaks_trainer Z unit unit Q Z_scalar peak_torch
                   {| PT.environ := {["NUM_CHUNKS" := "4"]};
                      PT.normalize_probabilities := false;
                      PT.validations_per_epoch := 1; PT.gradient_accumulation_steps := 1;
                      PT.num_epochs := 1; PT.GO_label_vocab := [];
                      PT.label_normalizer := ∅ |}
                   "4" sample_state sample_batch [] _ _ None false "f1" sample_loader []
                   [] (1 # 4)%Q (lookup_singleton_eq _ _) eq_refl eq_refl
                   _ _ eq_refl eq_refl _ _ _ _)).
  - apply (@nn_Linear_wf Z Z_init).
  - apply (@nn_Linear_wf Z Z_init).
  - discriminate.
  - discriminate.
  - repeat constructor.
  - repeat constructor.
Defined.

Lemma run_loop_skip {A S} (body : S → A → result unit * S) (s : S) (l : list A) :
  (∀ x, x ∈ l → body s x = (Ok (), s)) → PT.run_loop body s l = (Ok (), s).
Proof.
  induction l as [|x l IH]; intros Hbody; cbn; [done|].
  rewrite Hbody by left. apply IH. intros y Hy. apply Hbody. by right.
Qed.

(** X17. A training run without a micro-batch (no epoch, or only empty
    passes over the loader) touches neither optimizer nor validation: it
    loads the checkpoint file that is already there into the model, or raises
    [FileNotFoundError] when there is none. *)
Theorem train_without_batches {T G O Metric : Type} `{!Scalar T, !PT.Torch T G O Metric}
    (cfg : PT.config) (s : PT.state T G O) (train_loader : @PT.DataLoader T)
    (val_loader : list (PT.batch T)) (metric : Metric) (name : string) :
  PT.num_epochs cfg ≤ 0 ∨ (∀ epoch, PT.batches train_loader epoch = []) →
  PT.train cfg s train_loader val_loader metric name
  = match PT.model_path s with
    | Some sd =>
        (Ok (),
         {| PT.model := PT.load_state_dict (PT.model s) sd;
            PT.optimizer := PT.optimizer s; PT.grads := PT.grads s;
            PT.best_val_metric := PT.best_val_metric s;
            PT.model_path := PT.model_path s;
            PT.trace := PT.trace s ++ [PT.EvLoad sd] |},
         metric)
    | None => (Raise FileNotFoundError, s, metric)
    end.
Proof.
  intros Hno. unfold PT.train, PT.train_epochs.
  rewrite run_loop_skip; [done|].
  intros epoch Hepoch. destruct Hno as [Hno|Hno].
  - replace (Z.to_nat (PT.num_epochs cfg)) with 0%nat in Hepoch by lia.
    by apply elem_of_nil in Hepoch.
  - by rewrite Hno.
Qed.

Lemma train_without_batches_witness :
  (@PT.train Z unit unit Q Z_scalar peak_torch sample_cfg sample_state
     {| PT.loader_len := 0; PT.batches := λ _, [] |} [sample_batch] (1 # 4)%Q "f1").1.1
  = Raise FileNotFoundError.
Proof.
  rewrite (@train_without_batches Z unit unit Q Z_scalar peak_torch sample_cfg sample_state
             {| PT.loader_len := 0; PT.batches := λ _, [] |} [sample_batch] (1 # 4)%Q "f1"
             (or_intror (λ _, eq_refl))).
  reflexivity.
Defined.

(** X18. A training run whose first micro-batch goes through the model
    raises [ZeroDivisionError] in that micro-batch, after its gradients were
    computed, when [gradient_accumulation_steps] is 0, when
    [validations_per_epoch] is 0, or when the loader's length divided by
    [validations_per_epoch] is 0 (more validations asked for than there are
    batches); nothing is validated or saved. *)
Theorem train_zero_division {T G O Metric : Type} `{!Scalar T, !PT.Torch T G O Metric}
    (cfg : PT.config) (s : PT.state T G O) (train_loader : @PT.DataLoader T)
    (val_loader : list (PT.batch T)) (metric : Metric) (name : string)
    (b : PT.batch T) (rest : list (PT.batch T)) (logits : tensor T) :
  1 ≤ PT.num_epochs cfg →
  PT.batches train_loader 0 = b :: rest →
  ProTCL.forward (PT.environ cfg) (PT.model s) (PT.sequence_onehots b)
    (PT.sequence_embeddings b) (PT.sequence_lengths b) (PT.tokenized_labels b)
    (PT.label_embeddings b) = Ok logits →
  PT.gradient_accumulation_steps cfg = 0 ∨ PT.validations_per_epoch cfg = 0
  ∨ Z.of_nat (PT.loader_len train_loader) / PT.validations_per_epoch cfg = 0 →
  let out := PT.train cfg s train_loader val_loader metric name in
  out.1.1 = Raise ZeroDivisionError
  ∧ (∃ evs, PT.trace out.1.2 = PT.trace s ++ PT.EvBackward 1 :: evs
            ∧ Forall neutral evs)
  ∧ PT.model_path out.1.2 = PT.model_path s
  ∧ PT.best_val_metric out.1.2 = PT.best_val_metric s.
Proof.
  intros Hep Hb Hfwd Hzero. cbn zeta.
  assert (∃ l', PT.train_batch cfg (Z.of_nat (PT.loader_len train_loader)) val_loader name
                  {| PT.self := s; PT.metric_object := metric; PT.batch_count := 0 |} b
                = (Raise ZeroDivisionError, l')
                ∧ (∃ evs, PT.trace (PT.self l') = PT.trace s ++ PT.EvBackward 1 :: evs
                          ∧ Forall neutral evs)
                ∧ PT.model_path (PT.self l') = PT.model_path s
                ∧ PT.best_val_metric (PT.self l') = PT.best_val_metric s)
    as (l' & Hfirst & Htrace & Hpath & Hbest).
  { unfold PT.train_batch. cbn [PT.self PT.batch_count PT.metric_object].
    rewrite Hfwd.
    destruct (decide (PT.gradient_accumulation_steps cfg = 0)) as [Hgas|Hgas].
    { eexists. split; [done|]. cbn. split; [|done]. by exists []. }
    destruct Hzero as [?|Hzero]; [done|].
    destruct (decide ((0 + 1) `mod` PT.gradient_accumulation_steps cfg = 0)).
    - destruct (PT.optimizer_step _ _ _) as [o m'].
      rewrite decide_False by lia.
      destruct (decide (PT.validations_per_epoch cfg = 0)).
      + eexists. split; [done|]. cbn. split; [|done].
        eexists. rewrite <- app_assoc. split; [done|]. by repeat constructor.
      + destruct Hzero as [?|Hzero]; [done|]. rewrite decide_True by done.
        eexists. split; [done|]. cbn. split; [|done].
        eexists. rewrite <- app_assoc. split; [done|]. by repeat constructor.
    - rewrite decide_False by lia.
      destruct (decide (PT.validations_per_epoch cfg = 0)).
      + eexists. split; [done|]. cbn. split; [|done]. by exists [].
      + destruct Hzero as [?|Hzero]; [done|]. rewrite decide_True by done.
        eexists. split; [done|]. cbn. split; [|done]. by exists []. }
  unfold PT.train, PT.train_epochs.
  destruct (Z.to_nat (PT.num_epochs cfg)) as [|n] eqn:Hn; [lia|].
  cbn [seq PT.run_loop]. rewrite Hb. cbn [PT.run_loop]. by rewrite Hfirst.
Qed.

Lemma train_zero_division_witness :
  (@PT.train Z unit unit Q Z_scalar peak_torch
     {| PT.environ := ∅; PT.normalize_probabilities := false;
        PT.validations_per_epoch := 5; PT.gradient_accumulation_steps := 1;
        PT.num_epochs := 1; PT.GO_label_vocab := []; PT.label_normalizer := ∅ |}
     sample_state sample_loader [sample_batch] (1 # 4)%Q "f1").1.1
  = Raise ZeroDivisionError.
Proof.
  refine (proj1 (@train_zero_division Z unit unit Q Z_scalar peak_torch
                   {| PT.environ := ∅; PT.normalize_probabilities := false;
                      PT.validations_per_epoch := 5; PT.gradient_accumulation_steps := 1;
                      PT.num_epochs := 1; PT.GO_label_vocab := [];
                      PT.label_normalizer := ∅ |}
                   sample_state sample_loader [sample_batch] (1 # 4)%Q "f1"
                   sample_batch [sample_batch; sample_batch] _ _ eq_refl _ _)).
  - cbn. lia.
  - vm_compute. reflexivity.
  - right; right. reflexivity.
Defined.

Section NoImprovement.
Context {T G O Metric : Type} `{!Scalar T, !PT.Torch T G O Metric}.

(** Under a name other than [avg_loss], a value [evaluate] returns is one a
    metric of the collection computed. *)
Lemma evaluate_value_computed (cfg : PT.config) (m : ProTCL.t T)
    (loader : list (PT.batch T)) (metrics : option (gmap string Metric)) (save : bool)
    final results metrics' (name : string) (v : Q) :
  PT.evaluate cfg m loader metrics save = Ok (final, results, metrics') →
  name ≠ "avg_loss" → final !! name = Some v →
  ∃ metric, v = PT.metric_compute metric.
Proof.
  unfold PT.evaluate. destruct (for_fold _ _ loader) as [st|e]; cbn; [|done].
  destruct (PT.py_truediv _ _) as [avg|e]; cbn; [|done].
  intros [= <- _ _] Hname. rewrite lookup_insert_ne by done.
  destruct (PT.eval_metrics st) as [ms|]; [|done].
  rewrite lookup_fmap. destruct (ms !! name) as [metric|]; cbn; [|done].
  intros [= <-]. by exists metric.
Qed.

Lemma validate_no_improvement (cfg : PT.config) (s : PT.state T G O)
    (val_loader : list (PT.batch T)) (metric : Metric) (name : string) :
  name ≠ "avg_loss" →
  (∀ mt, (PT.metric_compute mt <= PT.best_val_metric s)%Q) →
  let s' := (PT.validate cfg s val_loader metric name).1.2 in
  PT.model_path s' = PT.model_path s ∧ PT.best_val_metric s' = PT.best_val_metric s.
Proof.
  intros Hname Hle. cbn zeta. unfold PT.validate.
  destruct (PT.evaluate _ _ _ _ _) as [[[val_metrics res] metrics]|e] eqn:Hev; cbn; [|done].
  destruct (val_metrics !! name) as [value|] eqn:Hval; cbn; [|done].
  destruct (evaluate_value_computed _ _ _ _ _ _ _ _ _ _ Hev Hname Hval) as [mt ->].
  specialize (Hle mt). apply py_gt_le in Hle. by rewrite Hle.
Qed.

Lemma train_batch_no_improvement (cfg : PT.config) (len : Z)
    (val_loader : list (PT.batch T)) (name : string) (best : Q)
    (l : @PT.train_loop T G O Metric) (b : PT.batch T) :
  name ≠ "avg_loss" →
  (∀ mt, (PT.metric_compute mt <= best)%Q) →
  PT.model_path (PT.self l) = None ∧ PT.best_val_metric (PT.self l) = best →
  let l' := (PT.train_batch cfg len val_loader name l b).2 in
  PT.model_path (PT.self l') = None ∧ PT.best_val_metric (PT.self l') = best.
Proof.
  intros Hname Hle [Hpath Hbest]. cbn zeta. unfold PT.train_batch.
  destruct (ProTCL.forward _ _ _ _ _ _ _) as [logits|e]; [|done].
  case_decide; [done|].
  set (s3 := if decide (_ `mod` _ = 0) then _ else _).
  assert (PT.model_path s3 = None ∧ PT.best_val_metric s3 = best) as [Hpath3 Hbest3].
  { unfold s3. case_decide; [|done]. by destruct (PT.optimizer_step _ _ _). }
  clearbody s3.
  repeat (case_decide; [done|]). case_decide; [|done].
  pose proof (validate_no_improvement cfg s3 val_loader (PT.metric_object l) name Hname)
    as Hv.
  rewrite Hbest3 in Hv. specialize (Hv Hle). cbn zeta in Hv.
  destruct (PT.validate _ _ _ _ _) as [[r s4] metric']. cbn in Hv.
  destruct Hv as [Hp4 Hb4]. destruct r; cbn; by rewrite Hp4, Hb4.
Qed.

End NoImprovement.

(** X19. When no checkpoint file exists, the optimization metric is not
    called [avg_loss], and the metric never computes a value above the
    initial best, no validation saves the model, and [train] cannot return:
    it ends in an exception ([FileNotFoundError] if the loops complete), with
    still no checkpoint file. *)
Theorem train_without_improvement_fails {T G O Metric : Type}
    `{!Scalar T, !PT.Torch T G O Metric}
    (cfg : PT.config) (s : PT.state T G O) (train_loader : @PT.DataLoader T)
    (val_loader : list (PT.batch T)) (metric : Metric) (name : string) :
  PT.model_path s = None →
  name ≠ "avg_loss" →
  (∀ mt : Metric, (PT.metric_compute mt <= PT.best_val_metric s)%Q) →
  let out := PT.train cfg s train_loader val_loader metric name in
  (∃ e, out.1.1 = Raise e)
  ∧ PT.model_path out.1.2 = None
  ∧ PT.best_val_metric out.1.2 = PT.best_val_metric s.
Proof.
  intros Hpath Hname Hle. cbn zeta. unfold PT.train.
  pose proof (run_loop_inv
    (λ l : @PT.train_loop T G O Metric,
       PT.model_path (PT.self l) = None
       ∧ PT.best_val_metric (PT.self l) = PT.best_val_metric s)
    (λ l epoch,
       PT.run_loop (PT.train_batch cfg (Z.of_nat (PT.loader_len train_loader))
                      val_loader name) l (PT.batches train_loader epoch))
    (seq 0 (Z.to_nat (PT.num_epochs cfg)))
    {| PT.self := s; PT.metric_object := metric; PT.batch_count := 0 |}) as Hinv.
  unfold PT.train_epochs.
  destruct (PT.run_loop _ _ (seq 0 _)) as [[u|e] l'] eqn:Hrun; cbn in Hinv.
  - destruct Hinv as [Hp Hb]; [|done|].
    { intros l0 epoch Hl0. apply run_loop_inv; [|done].
      intros l1 b Hl1. by apply train_batch_no_improvement. }
    rewrite Hp. cbn. split; [by eexists|done].
  - destruct Hinv as [Hp Hb]; [|done|].
    { intros l0 epoch Hl0. apply run_loop_inv; [|done].
      intros l1 b Hl1. by apply train_batch_no_improvement. }
    cbn. split; [by eexists|done].
Qed.

Lemma train_without_improvement_fails_witness :
  ∃ e,
    (@PT.train Z unit unit unit Z_scalar null_torch sample_cfg sample_state
       sample_loader [sample_batch] tt "f1").1.1 = Raise e.
Proof.
  exact (proj1 (@train_without_improvement_fails Z unit unit unit Z_scalar null_torch
                  sample_cfg sample_state sample_loader [sample_batch] tt "f1"
                  eq_refl ltac:(discriminate) (λ _, Qle_refl 0))).
Defined.

Lemma requires_grad_after (tse tle tph : bool) (name : string) (rg : bool) :
  (if (Stdlib.Strings.String.prefix "W_p.weight" name
       || Stdlib.Strings.String.prefix "W_l.weight" name) && negb tph
   then false
   else if Stdlib.Strings.String.prefix "label_encoder" name && negb tle
        then false
        else if Stdlib.Strings.String.prefix "sequence_encoder" name && negb tse
             then false else rg)
  = rg && stays_trainable tse tle tph name.
Proof.
  unfold stays_trainable.
  by destruct (Stdlib.Strings.String.prefix "sequence_encoder" name), tse,
    (Stdlib.Strings.String.prefix "label_encoder" name), tle,
    (Stdlib.Strings.String.prefix "W_p.weight" name),
    (Stdlib.Strings.String.prefix "W_l.weight" name), tph, rg.
Qed.

Lemma set_optimizer_loop (tse tle tph : bool) (named : list (string * bool))
    (params : list (string * bool)) (names : list string) :
  foldl (λ '(params, trainable_params_names) '(name, requires_grad),
           let requires_grad :=
             if Stdlib.Strings.String.prefix "sequence_encoder" name && negb tse
             then false else requires_grad in
           let requires_grad :=
             if Stdlib.Strings.String.prefix "label_encoder" name && negb tle
             then false else requires_grad in
           let requires_grad :=
             if (Stdlib.Strings.String.prefix "W_p.weight" name
                 || Stdlib.Strings.String.prefix "W_l.weight" name) && negb tph
             then false else requires_grad in
           (params ++ [(name, requires_grad)],
            if requires_grad then trainable_params_names ++ [name]
            else trainable_params_names))
        (params, names) named
  = (params ++ map (λ p, (p.1, p.2 && stays_trainable tse tle tph p.1)) named,
     names ++ (filter (λ p, p.2 = true)
                 (map (λ p, (p.1, p.2 && stays_trainable tse tle tph p.1)) named)).*1).
Proof.
  revert params names. induction named as [|[name rg] named IH]; intros params names.
  - cbn. by rewrite !app_nil_r.
  - cbn [foldl map fst snd]. rewrite requires_grad_after, IH, filter_cons.
    cbn [fst snd].
    destruct (rg && stays_trainable tse tle tph name) eqn:Hrg.
    + rewrite decide_True by done. cbn. by rewrite <- !app_assoc.
    + rewrite decide_False by done. by rewrite <- !app_assoc.
Qed.

(** X20. [_set_optimizer] never turns a gradient on: a parameter requires a
    gradient afterwards exactly when it did before and its name does not fall
    under a frozen part (names starting with [sequence_encoder],
    [label_encoder], [W_p.weight] or [W_l.weight], each unless its training
    flag is set); the trainable names are those of the parameters that
    require a gradient afterwards, in the model's order; constructing the
    optimizer raises [ValueError] exactly when no parameter is left
    trainable; and with the three flags set no flag changes. *)
Theorem set_optimizer_trainable (tse tle tph : bool) (named : list (string * bool)) :
  let out := PT._set_optimizer tse tle tph named in
  out.1.1 = map (λ p, (p.1, p.2 && stays_trainable tse tle tph p.1)) named
  ∧ out.1.2 = (filter (λ p, p.2 = true) out.1.1).*1
  ∧ (out.2 = Raise ValueError ↔ Forall (λ p, p.2 = false) out.1.1)
  ∧ (out.2 = Ok () ∨ out.2 = Raise ValueError)
  ∧ (PT._set_optimizer true true true named).1.1 = named.
Proof.
  cbn zeta. unfold PT._set_optimizer, PT.trainable_parameters.
  rewrite !set_optimizer_loop. cbn [fst snd app].
  split; [done|]. split; [done|]. split; [|split].
  - set (ps := map _ named). clearbody ps. split.
    + intros Hraise. induction ps as [|[name rg] ps IH]; [constructor|].
      rewrite filter_cons in Hraise. cbn [snd] in Hraise. destruct rg.
      * by rewrite decide_True in Hraise by done.
      * rewrite decide_False in Hraise by done. constructor; [done|by apply IH].
    + intros Hall. induction Hall as [|[name rg] ps Hrg _ IH]; [done|].
      cbn in Hrg. subst rg. rewrite filter_cons. cbn [snd].
      by rewrite decide_False by done.
  - by destruct ((filter _ _).*1); [right|left].
  - induction named as [|[name rg] named IH]; [done|]. cbn. rewrite IH.
    unfold stays_trainable. by rewrite !andb_false_r, andb_true_r.
Qed.
